(** * Matrix addition kernels of [qutip.core.data.add]

    A shallow embedding of [add.pyx]: the shape validator, the CSR merge
    kernels with their entry point, and the dense kernels built on the BLAS
    vector update [zaxpy].  Matrix objects live in a store indexed by object
    identity, so that copies, in-place updates and aliasing are visible. *)

From Stdlib Require Import ZArith Lia.
From stdpp Require Import base option list gmap strings pretty sorting.

Local Open Scope Z_scope.

(** ** Scalars

    The kernels work on [double complex] values and compare magnitudes with a
    [double] tolerance.  Both are kept abstract: the kernels only add,
    multiply and compare.  No law of arithmetic is built in; a theorem that
    needs one states it, or asks for [ExactLaws] below. *)

Class Numeric := {
  cplx : Type;
  real : Type;
  c0 : cplx;
  c1 : cplx;
  cm1 : cplx;
  cadd : cplx → cplx → cplx;
  cmul : cplx → cplx → cplx;
  ceqb : cplx → cplx → bool;
  at_or_below : cplx → real → bool;
}.

(** ** Outcomes of a call

    A call either returns a value in a new store, raises [ValueError] in the
    store reached when it was raised, or faults: an access outside a buffer
    or through an identity that names no object, which C leaves undefined. *)

Inductive result (S A : Type) : Type :=
  | Ok (a : A) (s : S)
  | Raise (msg : string) (s : S)
  | Fault.
Arguments Ok {S A} a s.
Arguments Raise {S A} msg s.
Arguments Fault {S A}.

Definition M (S A : Type) : Type := S → result S A.

Definition ret {S A} (a : A) : M S A := λ s, Ok a s.

Definition bind {S A B} (m : M S A) (k : A → M S B) : M S B :=
  λ s, match m s with
       | Ok a s' => k a s'
       | Raise msg s' => Raise msg s'
       | Fault => Fault
       end.

Definition raise {S A} (msg : string) : M S A := λ s, Raise msg s.

Definition fault {S A} : M S A := λ _, Fault.

Definition lift {S A} (o : option A) : M S A :=
  match o with Some a => ret a | None => fault end.

#[global] Instance M_ret {S} : MRet (M S) := λ A, ret.
#[global] Instance M_bind {S} : MBind (M S) := λ A B k m, bind m k.

(** ** Machine integers and buffers *)

Definition INT_MAX : Z := 2 ^ 31 - 1.

(** Conversion of an integer value to a C [int]: the low 32 bits, read in
    two's complement. *)
Definition c_int (z : Z) : Z := (z + 2 ^ 31) `mod` 2 ^ 32 - 2 ^ 31.
Arguments c_int : simpl never.

(** [l[i]] for a C index: outside the buffer there is no value. *)
Definition at_idx {A} (l : list A) (i : Z) : option A :=
  if decide (0 ≤ i) then l !! Z.to_nat i else None.

(** [l[i] = x] for a C index. *)
Definition set_idx {A} (l : list A) (i : Z) (x : A) : option (list A) :=
  if decide (0 ≤ i < Z.of_nat (length l)) then Some (<[Z.to_nat i := x]> l) else None.

(** Object identities and stores of objects. *)
Abbreviation loc := positive.

Definition deref {A} (l : loc) : M (gmap loc A) A :=
  λ h, match h !! l with Some v => Ok v h | None => Fault end.

Definition alloc {A} (v : A) : M (gmap loc A) loc :=
  λ h, let l := fresh (dom h) in Ok l (<[l := v]> h).

Definition store {A} (l : loc) (v : A) : M (gmap loc A) unit :=
  λ h, match h !! l with Some _ => Ok () (<[l := v]> h) | None => Fault end.

(** ** The [Data] interface: every matrix type has a shape *)

Class Data (A : Type) := shape : A → Z * Z.

(** Python's [str] of a shape tuple. *)
Definition str_shape (s : Z * Z) : string :=
  "(" +:+ pretty s.1 +:+ ", " +:+ pretty s.2 +:+ ")".

(** ** Dense matrices ([qutip.core.data.dense]) *)

Module dense.
Section Defs.
Context {N : Numeric}.

Record Dense := {
  shape : Z * Z;
  data : list cplx;
  fortran : bool;
}.

Definition with_data (d : Dense) (buf : list cplx) : Dense :=
  {| shape := shape d; data := buf; fortran := fortran d |}.

(** Modelled from the spec: [Dense.copy()], defined outside [add.pyx]; it
    returns an independent deep copy. *)
Definition copy (l : loc) : M (gmap loc Dense) loc :=
  d ← deref l; alloc d.

End Defs.
End dense.

#[global] Instance Dense_Data {N : Numeric} : Data dense.Dense := dense.shape.

(** ** The BLAS vector update ([scipy.linalg.cython_blas]) *)

Module blas.
Section Defs.
Context {N : Numeric}.

(** [zaxpy(n, alpha, x, incx, y, incy)]: [y[i*incy] += alpha * x[i*incx]]
    for [i] in [0, n), nothing when [n <= 0].  A vector is named by the
    object that owns the buffer and an offset into it, and every element is
    read from the store when its turn comes, so that [x] and [y] may share a
    buffer. *)
Fixpoint zaxpy_loop (n : nat) (alpha : cplx) (x : loc) (ix incx : Z)
    (y : loc) (iy incy : Z) : M (gmap loc dense.Dense) unit :=
  match n with
  | O => mret ()
  | S n' =>
      X ← deref x;
      xv ← lift (at_idx (dense.data X) ix);
      Y ← deref y;
      yv ← lift (at_idx (dense.data Y) iy);
      buf ← lift (set_idx (dense.data Y) iy (cadd yv (cmul alpha xv)));
      store y (dense.with_data Y buf);;
      zaxpy_loop n' alpha x (ix + incx) incx y (iy + incy) incy
  end.

(** With a negative increment BLAS walks the vector from its far end. *)
Definition start (n off inc : Z) : Z :=
  if decide (inc < 0) then off + (1 - n) * inc else off.

Definition zaxpy (n : Z) (alpha : cplx) (x : loc) (offx incx : Z)
    (y : loc) (offy incy : Z) : M (gmap loc dense.Dense) unit :=
  if decide (n ≤ 0) then mret ()
  else zaxpy_loop (Z.to_nat n) alpha x (start n offx incx) incx
                  y (start n offy incy) incy.

End Defs.
End blas.

(** ** Configuration and indeterminate storage *)

Section Environment.
Context {N : Numeric}.

(** The two entries of [settings.core] that the merge kernels read. *)
Record Settings := {
  auto_tidyup : bool;
  auto_tidyup_atol : real;
}.

(** What storage holds before its first write: the stack slot of a C local
    declared without a value, and the buffers of a matrix allocated but not
    yet filled. *)
Record Indeterminate := {
  stack_double : real;
  heap_values : nat → cplx;
  heap_indices : nat → Z;
}.

End Environment.

(** ** CSR matrices and the accumulator ([qutip.core.data.csr]) *)

Module csr.
Section Defs.
Context {N : Numeric}.

Record CSR := {
  shape : Z * Z;
  data : list cplx;
  col_index : list Z;
  row_index : list Z;
}.

Definition with_data (m : CSR) (buf : list cplx) : CSR :=
  {| shape := shape m; data := buf;
     col_index := col_index m; row_index := row_index m |}.

(** Modelled from the spec: [csr.nnz], defined outside [add.pyx];
    [row_index[rows]] is the total stored entry count. *)
Definition nnz (m : CSR) : option Z := at_idx (row_index m) (shape m).1.

(** Modelled from the spec: [CSR.copy()], defined outside [add.pyx]; it
    returns an independent deep copy. *)
Definition copy (l : loc) : M (gmap loc CSR) loc :=
  m ← deref l; alloc m.

(** Modelled from the spec: [csr.empty(rows, cols, capacity)], defined
    outside [add.pyx]; it returns an uninitialized CSR with
    [row_index], [col_index] and [data] sized for [capacity] entries. *)
Definition empty (u : Indeterminate) (rows cols size : Z)
    : M (gmap loc CSR) loc :=
  alloc {| shape := (rows, cols);
           data := heap_values u <$> seq 0 (Z.to_nat size);
           col_index := heap_indices u <$> seq 0 (Z.to_nat size);
           row_index := heap_indices u <$> seq 0 (Z.to_nat (rows + 1)) |}.

(** Modelled from the spec: the sparse accumulator, defined outside
    [add.pyx].  It owns a value buffer of length [ncols] and the columns
    touched since the last reset, in the order they were touched. *)
Record Accumulator := {
  values : list cplx;
  touched : list Z;
}.

(** Modelled from the spec: [alloc(ncols)] gives a fresh accumulator sized
    for [ncols] columns, all untouched; it fails if [ncols < 0]. *)
Definition acc_alloc (ncols : Z) : option Accumulator :=
  if decide (ncols < 0) then None
  else Some {| values := replicate (Z.to_nat ncols) c0; touched := [] |}.

(** Modelled from the spec: [scatter] adds [value] to the running total at
    [column], and records the column if it was not touched before. *)
Definition acc_scatter (acc : Accumulator) (value : cplx) (position : Z)
    : option Accumulator :=
  total ← at_idx (values acc) position;
  buf ← set_idx (values acc) position (cadd total value);
  Some {| values := buf;
          touched := if decide (position ∈ touched acc) then touched acc
                     else touched acc ++ [position] |}.

(** Writing [xs] into a buffer from offset [off] on. *)
Fixpoint write_at {A} (buf : list A) (off : Z) (xs : list A)
    : option (list A) :=
  match xs with
  | [] => Some buf
  | x :: xs' => buf' ← set_idx buf off x; write_at buf' (off + 1) xs'
  end.

(** What [gather] keeps of one touched column: the column and its total,
    unless the total is at or below the tolerance. *)
Definition kept (acc : Accumulator) (tol : real) (col : Z)
    : option (Z * cplx) :=
  total ← at_idx (values acc) col;
  if at_or_below total tol then None else Some (col, total).

(** The touched columns in ascending order, each with its total, without
    those that are not kept. *)
Definition gathered (acc : Accumulator) (tol : real) : list (Z * cplx) :=
  omap (kept acc tol) (merge_sort Z.le (touched acc)).

(** Modelled from the spec: [gather] writes the touched columns, ascending
    and compacted, into the output buffers (here from offset [off] on),
    omits a column whose total is at or below [tolerance], and returns the
    count of entries written. *)
Definition acc_gather (acc : Accumulator) (out_values : list cplx)
    (out_columns : list Z) (off : Z) (tolerance : real)
    : option (list cplx * list Z * Z) :=
  let kept := gathered acc tolerance in
  vals ← write_at out_values off kept.*2;
  cols ← write_at out_columns off kept.*1;
  Some (vals, cols, Z.of_nat (length kept)).

(** Modelled from the spec: [reset] clears all touch-marks and values. *)
Definition acc_reset (acc : Accumulator) : Accumulator :=
  {| values := replicate (length (values acc)) c0; touched := [] |}.

End Defs.
End csr.

#[global] Instance CSR_Data {N : Numeric} : Data csr.CSR := csr.shape.

(** ** The shape validator *)

Definition _check_shape {S A B} `{Data A, Data B} (left : A) (right : B)
    : M S unit :=
  if bool_decide ((shape left).1 ≠ (shape right).1)
     || bool_decide ((shape left).2 ≠ (shape right).2)
  then raise ("incompatible matrix shapes "
              +:+ str_shape (shape left)
              +:+ " and "
              +:+ str_shape (shape right))
  else mret ().

(** ** CSR merge kernels *)

Section CSRKernels.
Context {N : Numeric}.

(** The tolerance local of a merge kernel: [cdef double tol] has no initial
    value and is assigned only when tidy-up is enabled. *)
Definition read_tol (cfg : Settings) (u : Indeterminate) : real :=
  if auto_tidyup cfg then auto_tidyup_atol cfg else stack_double u.

(** [m.col_index[ptr] if ptr < ptr_max else ncols + 1].  The index type
    [idxint] of the kernels is a C [int]: the sentinel, like every sum of
    two index values below, is taken as a C int. *)
Definition col_or_sentinel (m : csr.CSR) (ptr ptr_max ncols : Z) : option Z :=
  if decide (ptr < ptr_max) then at_idx (csr.col_index m) ptr
  else Some (c_int (ncols + 1)).

(** The [while] loop over one row.  Each turn reads [a.data[ptr_a]] or
    [b.data[ptr_b]] and advances that pointer, so, the buffers holding no
    more entries than a C int counts, after [len(a.data) + len(b.data)]
    turns a further turn can only read outside a buffer: [fuel] starts
    there.  [f] is applied to the values of [b]. *)
Fixpoint merge_row (fuel : nat) (f : cplx → cplx) (a b : csr.CSR) (ncols : Z)
    (ptr_a ptr_a_max col_a ptr_b ptr_b_max col_b : Z)
    (acc : csr.Accumulator) : option csr.Accumulator :=
  if bool_decide (ptr_a < ptr_a_max) || bool_decide (ptr_b < ptr_b_max) then
    match fuel with
    | O => None
    | S fuel' =>
        if bool_decide (col_a < col_b) then
          v ← at_idx (csr.data a) ptr_a;
          acc' ← csr.acc_scatter acc v col_a;
          let ptr_a := c_int (ptr_a + 1) in
          col_a ← col_or_sentinel a ptr_a ptr_a_max ncols;
          merge_row fuel' f a b ncols ptr_a ptr_a_max col_a
                    ptr_b ptr_b_max col_b acc'
        else
          v ← at_idx (csr.data b) ptr_b;
          acc' ← csr.acc_scatter acc (f v) col_b;
          let ptr_b := c_int (ptr_b + 1) in
          col_b ← col_or_sentinel b ptr_b ptr_b_max ncols;
          merge_row fuel' f a b ncols ptr_a ptr_a_max col_a
                    ptr_b ptr_b_max col_b acc'
    end
  else Some acc.

(** The state carried from one row to the next. *)
Record merge_state := {
  st_acc : csr.Accumulator;
  st_c : csr.CSR;
  st_ptr_a_max : Z;
  st_ptr_b_max : Z;
  st_nnz : Z;
}.

(** The body of [for row in range(a.shape[0])]. *)
Definition merge_step (f : cplx → cplx) (tol : real) (a b : csr.CSR)
    (ncols : Z) (row : Z) (st : merge_state) : option merge_state :=
  let ptr_a := st_ptr_a_max st in
  ptr_a_max ← at_idx (csr.row_index a) (c_int (row + 1));
  let ptr_b := st_ptr_b_max st in
  ptr_b_max ← at_idx (csr.row_index b) (c_int (row + 1));
  col_a ← col_or_sentinel a ptr_a ptr_a_max ncols;
  col_b ← col_or_sentinel b ptr_b ptr_b_max ncols;
  acc ← merge_row (length (csr.data a) + length (csr.data b))%nat f a b ncols
                  ptr_a ptr_a_max col_a ptr_b ptr_b_max col_b (st_acc st);
  '(vals, cols, n) ← csr.acc_gather acc (csr.data (st_c st))
                        (csr.col_index (st_c st)) (st_nnz st) tol;
  let nnz := c_int (st_nnz st + n) in
  let acc := csr.acc_reset acc in
  rows ← set_idx (csr.row_index (st_c st)) (c_int (row + 1)) nnz;
  Some {| st_acc := acc;
          st_c := {| csr.shape := csr.shape (st_c st); csr.data := vals;
                     csr.col_index := cols; csr.row_index := rows |};
          st_ptr_a_max := ptr_a_max; st_ptr_b_max := ptr_b_max;
          st_nnz := nnz |}.

Fixpoint merge_rows (n : nat) (f : cplx → cplx) (tol : real) (a b : csr.CSR)
    (ncols : Z) (row : Z) (st : merge_state) : option merge_state :=
  match n with
  | O => Some st
  | S n' => st' ← merge_step f tol a b ncols row st;
            merge_rows n' f tol a b ncols (row + 1) st'
  end.

(** The two kernels differ only in what they scatter for an entry of [b]:
    its value, or [scale] times its value.  Both return the count of stored
    entries together with the accumulator and the output they wrote to. *)
Definition merge_kernel (f : cplx → cplx) (cfg : Settings)
    (u : Indeterminate) (acc : csr.Accumulator) (a b c : csr.CSR)
    : option (Z * csr.Accumulator * csr.CSR) :=
  let nnz := 0 in
  let ncols := (shape a).2 in
  let tol := read_tol cfg u in
  rows ← set_idx (csr.row_index c) 0 nnz;
  let c := {| csr.shape := csr.shape c; csr.data := csr.data c;
              csr.col_index := csr.col_index c; csr.row_index := rows |} in
  st ← merge_rows (Z.to_nat (shape a).1) f tol a b ncols 0
         {| st_acc := acc; st_c := c;
            st_ptr_a_max := 0; st_ptr_b_max := 0; st_nnz := nnz |};
  Some (st_nnz st, st_acc st, st_c st).

Definition _add_csr := merge_kernel (λ v, v).

Definition _add_csr_scale (cfg : Settings) (u : Indeterminate)
    (acc : csr.Accumulator) (a b c : csr.CSR) (scale : cplx) :=
  merge_kernel (cmul scale) cfg u acc a b c.

(** [for idx in range(n)]: the body runs for [idx = 0, ..., n - 1]. *)
Fixpoint for_range {S} (n : nat) (idx : Z) (body : Z → M S unit) : M S unit :=
  match n with
  | O => mret ()
  | S n' => body idx;; for_range n' (idx + 1) body
  end.

(** [out.data[i] *= scale] *)
Definition scale_entry (out : loc) (scale : cplx) (i : Z)
    : M (gmap loc csr.CSR) unit :=
  O ← deref out;
  v ← lift (at_idx (csr.data O) i);
  buf ← lift (set_idx (csr.data O) i (cmul v scale));
  store out (csr.with_data O buf).

(** The accumulator is a local of the call; [acc_free] only releases it
    and leaves no trace here. *)
Definition add_csr (cfg : Settings) (u : Indeterminate)
    (left right : loc) (scale : cplx) : M (gmap loc csr.CSR) loc :=
  L ← deref left;
  R ← deref right;
  _check_shape L R;;
  left_nnz ← lift (csr.nnz L);
  right_nnz ← lift (csr.nnz R);
  let worst_nnz := c_int (left_nnz + right_nnz) in
  if bool_decide (right_nnz = 0) || ceqb scale c0 then
    csr.copy left
  else if bool_decide (left_nnz = 0) then
    out ← csr.copy right;
    (if negb (ceqb scale c1) then
       for_range (Z.to_nat right_nnz) 0 (scale_entry out scale)
     else mret ());;
    mret out
  else
    out ← csr.empty u (shape L).1 (shape L).2 worst_nnz;
    acc ← lift (csr.acc_alloc (shape L).2);
    O ← deref out;
    '(_, _, O') ← lift (if ceqb scale c1 then _add_csr cfg u acc L R O
                        else _add_csr_scale cfg u acc L R O scale);
    store out O';;
    mret out.

Definition sub_csr (cfg : Settings) (u : Indeterminate) (left right : loc)
    : M (gmap loc csr.CSR) loc :=
  add_csr cfg u left right cm1.

End CSRKernels.

(** ** Dense kernels *)

Section DenseKernels.
Context {N : Numeric}.

Definition _ONE : Z := 1.

(** [cdef int size = left.shape[0] * left.shape[1]] *)
Definition int_size (s : Z * Z) : Z := c_int (s.1 * s.2).

Definition add_dense_eq_order_inplace (left right : loc) (scale : cplx)
    : M (gmap loc dense.Dense) unit :=
  L ← deref left;
  let size := int_size (shape L) in
  blas.zaxpy size scale right 0 _ONE left 0 _ONE.

Definition _add_dense_eq_order (left right : loc) (scale : cplx)
    : M (gmap loc dense.Dense) loc :=
  out ← dense.copy left;
  L ← deref left;
  let size := int_size (shape L) in
  blas.zaxpy size scale right 0 _ONE out 0 _ONE;;
  mret out.

(** [dim1, dim2 = (nrows, ncols) if left.fortran else (ncols, nrows)], each
    stored into a C int. *)
Definition int_dims (L : dense.Dense) : Z * Z :=
  let nrows := (shape L).1 in
  let ncols := (shape L).2 in
  if dense.fortran L then (c_int nrows, c_int ncols)
  else (c_int ncols, c_int nrows).

Definition add_dense (left right : loc) (scale : cplx)
    : M (gmap loc dense.Dense) loc :=
  L ← deref left;
  R ← deref right;
  _check_shape L R;;
  if negb (xorb (dense.fortran L) (dense.fortran R)) then
    _add_dense_eq_order left right scale
  else
    out ← dense.copy left;
    let '(dim1, dim2) := int_dims L in
    for_range (Z.to_nat dim2) 0 (λ idx,
      blas.zaxpy dim1 scale right idx dim2 out (idx * dim1) _ONE);;
    mret out.

Definition iadd_dense (left right : loc) (scale : cplx)
    : M (gmap loc dense.Dense) loc :=
  L ← deref left;
  R ← deref right;
  _check_shape L R;;
  let size := int_size (shape L) in
  let '(dim1, dim2) := int_dims L in
  (if negb (xorb (dense.fortran L) (dense.fortran R)) then
     blas.zaxpy size scale right 0 _ONE left 0 _ONE
   else
     for_range (Z.to_nat dim2) 0 (λ idx,
       blas.zaxpy dim1 scale right idx dim2 left (idx * dim1) _ONE));;
  mret left.

Definition sub_dense (left right : loc) : M (gmap loc dense.Dense) loc :=
  add_dense left right cm1.

End DenseKernels.

(** ** Reading a matrix: validity and elements *)

Section Views.
Context {N : Numeric}.

(** A dense matrix as the data model has it: the shape entries are
    non-negative [idxint] values, a C int, and the buffer holds exactly
    [rows * cols] values. *)
Definition wf_dense (d : dense.Dense) : Prop :=
  0 ≤ (shape d).1 ≤ INT_MAX ∧ 0 ≤ (shape d).2 ≤ INT_MAX ∧
  Z.of_nat (length (dense.data d)) = (shape d).1 * (shape d).2.

(** Where element [(r, c)] sits in the buffer. *)
Definition offset (d : dense.Dense) (r c : Z) : Z :=
  if dense.fortran d then r + c * (shape d).1 else r * (shape d).2 + c.

Definition elem (d : dense.Dense) (r c : Z) : option cplx :=
  at_idx (dense.data d) (offset d r c).

(** The vector update on plain buffers, [x] and [y] being distinct. *)
Fixpoint axpy (n : nat) (alpha : cplx) (xs : list cplx) (ix incx : Z)
    (ys : list cplx) (iy incy : Z) : option (list cplx) :=
  match n with
  | O => Some ys
  | S n' =>
      xv ← at_idx xs ix;
      yv ← at_idx ys iy;
      buf ← set_idx ys iy (cadd yv (cmul alpha xv));
      axpy n' alpha xs (ix + incx) incx buf (iy + incy) incy
  end.

(** The vector update on one buffer that is both [x] and [y]. *)
Fixpoint axpy_self (n : nat) (alpha : cplx) (ys : list cplx)
    (ix incx iy incy : Z) : option (list cplx) :=
  match n with
  | O => Some ys
  | S n' =>
      xv ← at_idx ys ix;
      yv ← at_idx ys iy;
      buf ← set_idx ys iy (cadd yv (cmul alpha xv));
      axpy_self n' alpha buf (ix + incx) incx (iy + incy) incy
  end.

Definition zaxpy_list (n : Z) (alpha : cplx) (xs : list cplx) (offx incx : Z)
    (ys : list cplx) (offy incy : Z) : option (list cplx) :=
  if decide (n ≤ 0) then Some ys
  else axpy (Z.to_nat n) alpha xs (blas.start n offx incx) incx
            ys (blas.start n offy incy) incy.

(** The strided loop of the mixed-layout path on plain buffers. *)
Fixpoint segments (n : nat) (idx : Z) (alpha : cplx) (xs : list cplx)
    (dim1 dim2 : Z) (ys : list cplx) : option (list cplx) :=
  match n with
  | O => Some ys
  | S n' =>
      buf ← zaxpy_list dim1 alpha xs idx dim2 ys (idx * dim1) _ONE;
      segments n' (idx + 1) alpha xs dim1 dim2 buf
  end.

(** What the element at [k] is after a unit-stride update of [n] elements
    from [iy] on, reading [x] with stride [incx] from [ix] on. *)
Definition updated (alpha : cplx) (xs : list cplx) (ix incx : Z)
    (ys : list cplx) (iy n : Z) (k : Z) : option cplx :=
  if decide (iy ≤ k < iy + n) then
    yv ← at_idx ys k;
    xv ← at_idx xs (ix + (k - iy) * incx);
    Some (cadd yv (cmul alpha xv))
  else at_idx ys k.

(** What the element [i] of segment [j] is after the segments [lo, hi) have
    been updated. *)
Definition seg_updated (alpha : cplx) (xs ys : list cplx) (dim1 dim2 : Z)
    (lo hi : Z) (j i : Z) : option cplx :=
  if decide (lo ≤ j < hi) then
    yv ← at_idx ys (j * dim1 + i);
    xv ← at_idx xs (j + i * dim2);
    Some (cadd yv (cmul alpha xv))
  else at_idx ys (j * dim1 + i).

(** The buffer that [add_dense] gives its result and [iadd_dense] gives its
    left operand: one vector update when the layouts agree, one update per
    segment when they differ. *)
Definition dense_sum (L R : dense.Dense) (scale : cplx)
    : option (list cplx) :=
  if negb (xorb (dense.fortran L) (dense.fortran R)) then
    zaxpy_list (int_size (shape L)) scale (dense.data R) 0 _ONE
               (dense.data L) 0 _ONE
  else
    segments (Z.to_nat (int_dims L).2) 0 scale (dense.data R)
             (int_dims L).1 (int_dims L).2 (dense.data L).

End Views.

Section CSRViews.
Context {N : Numeric}.

(** The part of a buffer at offsets [lo, hi). *)
Definition segment {A} (l : list A) (lo hi : Z) : list A :=
  take (Z.to_nat (hi - lo)) (drop (Z.to_nat lo) l).

(** Column indices strictly increasing and within [0, cols). *)
Definition sorted_cols (cols : Z) (l : list Z) : Prop :=
  StronglySorted Z.lt l ∧ Forall (λ c, 0 ≤ c < cols) l.

(** Row [r] of a CSR matrix: its offsets are in order and its column
    indices are strictly increasing and within the matrix. *)
Definition valid_row (m : csr.CSR) (r : Z) : Prop :=
  ∃ lo hi, at_idx (csr.row_index m) r = Some lo ∧
           at_idx (csr.row_index m) (r + 1) = Some hi ∧
           lo ≤ hi ∧
           sorted_cols (shape m).2 (segment (csr.col_index m) lo hi).

(** A structurally valid CSR matrix.  The buffers may be longer than the
    stored entry count [row_index[rows]]. *)
Definition valid_csr (m : csr.CSR) : Prop :=
  0 ≤ (shape m).1 ∧ 0 ≤ (shape m).2 ∧
  Z.of_nat (length (csr.row_index m)) = (shape m).1 + 1 ∧
  at_idx (csr.row_index m) 0 = Some 0 ∧
  (∃ n, csr.nnz m = Some n ∧
        n ≤ Z.of_nat (length (csr.col_index m)) ∧
        n ≤ Z.of_nat (length (csr.data m))) ∧
  ∀ r, 0 ≤ r < (shape m).1 → valid_row m r.

#[global] Instance sorted_cols_dec cols l : Decision (sorted_cols cols l).
Proof. unfold sorted_cols. apply _. Defined.

(** Validity as a check that runs. *)
Definition valid_rowb (m : csr.CSR) (r : Z) : bool :=
  match at_idx (csr.row_index m) r, at_idx (csr.row_index m) (r + 1) with
  | Some lo, Some hi =>
      bool_decide (lo ≤ hi)
      && bool_decide (sorted_cols (shape m).2 (segment (csr.col_index m) lo hi))
  | _, _ => false
  end.

Definition valid_csrb (m : csr.CSR) : bool :=
  bool_decide (0 ≤ (shape m).1) && bool_decide (0 ≤ (shape m).2)
  && bool_decide (Z.of_nat (length (csr.row_index m)) = (shape m).1 + 1)
  && bool_decide (at_idx (csr.row_index m) 0 = Some 0)
  && match csr.nnz m with
     | Some n => bool_decide (n ≤ Z.of_nat (length (csr.col_index m)))
                 && bool_decide (n ≤ Z.of_nat (length (csr.data m)))
     | None => false
     end
  && forallb (valid_rowb m) (seqZ 0 (shape m).1).

(** The stored entries at offsets [lo, hi), as (column, value) pairs. *)
Definition entries (m : csr.CSR) (lo hi : Z) : list (Z * cplx) :=
  zip (segment (csr.col_index m) lo hi) (segment (csr.data m) lo hi).

(** The stored entries of row [r]. *)
Definition row_entries (m : csr.CSR) (r : Z) : list (Z * cplx) :=
  match at_idx (csr.row_index m) r, at_idx (csr.row_index m) (r + 1) with
  | Some lo, Some hi => entries m lo hi
  | _, _ => []
  end.

(** The value stored for column [col] among some entries, if any. *)
Fixpoint assoc (col : Z) (es : list (Z * cplx)) : option cplx :=
  match es with
  | [] => None
  | (c, v) :: es' => if decide (c = col) then Some v else assoc col es'
  end.

(** The dense expansion: the stored value at [(r, c)], zero if none. *)
Definition to_dense (m : csr.CSR) (r c : Z) : cplx :=
  default c0 (assoc c (row_entries m r)).

(** What the accumulator holds for column [col] once the entries [ea] of
    a row of [a] and [eb] of the same row of [b] have been scattered: the
    running total starts at zero, an entry of [b] at a column is scattered
    before the entry of [a] at that column, and [f] is applied to the
    values of [b]. *)
Definition row_total (f : cplx → cplx) (ea eb : list (Z * cplx)) (col : Z)
    : cplx :=
  let tb := match assoc col eb with Some v => cadd c0 (f v) | None => c0 end in
  match assoc col ea with Some v => cadd tb v | None => tb end.

(** What the accumulator holds while the cursors of the loop over a row
    are at [ptr_a] and [ptr_b], the rows starting at [lo_a] and [lo_b]: the
    totals of the entries before the cursors, zero where nothing was
    touched, and no entry of [a] yet at or above the column under the
    cursor of [b]. *)
Definition row_state (f : cplx → cplx) (a b : csr.CSR) (ncols : Z)
    (lo_a hi_a lo_b hi_b : Z) (ptr_a ptr_b col_b : Z)
    (acc : csr.Accumulator) : Prop :=
  let ea := take (Z.to_nat (ptr_a - lo_a)) (entries a lo_a hi_a) in
  let eb := take (Z.to_nat (ptr_b - lo_b)) (entries b lo_b hi_b) in
  Z.of_nat (length (csr.values acc)) = ncols ∧
  (∀ col, 0 ≤ col < ncols →
     at_idx (csr.values acc) col = Some (row_total f ea eb col)) ∧
  (∀ col, 0 ≤ col < ncols → col ∉ csr.touched acc →
     at_idx (csr.values acc) col = Some c0) ∧
  (∀ e, e ∈ ea → e.1 < col_b).

(** The laws of exact arithmetic that relate what the kernels compute to
    the sum [a + scale * b]. *)
Class ExactLaws : Prop := {
  cadd_0_l : ∀ x, cadd c0 x = x;
  cadd_0_r : ∀ x, cadd x c0 = x;
  cadd_comm : ∀ x y, cadd x y = cadd y x;
  cmul_0_l : ∀ x, cmul c0 x = c0;
  cmul_0_r : ∀ x, cmul x c0 = c0;
  cmul_1_l : ∀ x, cmul c1 x = x;
  cmul_comm : ∀ x y, cmul x y = cmul y x;
  ceqb_0 : ∀ x, ceqb x c0 = true → x = c0;
  ceqb_1 : ∀ x, ceqb x c1 = true → x = c1;
}.

(** A tolerance at or below which only zero lies: filtering with it drops
    nothing but stored zeros. *)
Definition drops_only_zero (tol : real) : Prop :=
  ∀ v, at_or_below v tol = true → v = c0.

(** The accumulator between two scatters: sized for [ncols] columns, the
    touched columns distinct and within the matrix. *)
Definition acc_ok (ncols : Z) (acc : csr.Accumulator) : Prop :=
  Z.of_nat (length (csr.values acc)) = ncols ∧
  NoDup (csr.touched acc) ∧
  Forall (λ c, 0 ≤ c < ncols) (csr.touched acc).

(** The entries at offsets [lo, hi) can be read and lie within the matrix. *)
Definition readable (m : csr.CSR) (ncols lo hi : Z) : Prop :=
  ∀ p, lo ≤ p < hi →
    (∃ c, at_idx (csr.col_index m) p = Some c ∧ 0 ≤ c < ncols) ∧
    is_Some (at_idx (csr.data m) p).

(** What holds of the merge state before row [row] is processed: the
    accumulator is reset, the input offsets are those of [row], and the
    output is a valid CSR up to [row], with [nnz] entries in buffers of
    [cap] entries. *)
Definition merge_inv (a b : csr.CSR) (cap : Z) (row : Z) (st : merge_state)
    : Prop :=
  let c := st_c st in
  acc_ok (shape a).2 (st_acc st) ∧ csr.touched (st_acc st) = [] ∧
  (∀ col, 0 ≤ col < (shape a).2 →
          at_idx (csr.values (st_acc st)) col = Some c0) ∧
  at_idx (csr.row_index a) row = Some (st_ptr_a_max st) ∧
  at_idx (csr.row_index b) row = Some (st_ptr_b_max st) ∧
  0 ≤ st_nnz st ≤ st_ptr_a_max st + st_ptr_b_max st ∧
  shape c = shape a ∧
  Z.of_nat (length (csr.row_index c)) = (shape a).1 + 1 ∧
  Z.of_nat (length (csr.col_index c)) = cap ∧
  Z.of_nat (length (csr.data c)) = cap ∧
  at_idx (csr.row_index c) 0 = Some 0 ∧
  at_idx (csr.row_index c) row = Some (st_nnz st) ∧
  (∀ r, 0 ≤ r < row → valid_row c r) ∧
  (∀ r v, 0 ≤ r ≤ row → at_idx (csr.row_index c) r = Some v →
          0 ≤ v ≤ st_nnz st).

(** What the main path of [add_csr] needs of the index type [idxint], a C
    int: the row count, the sentinel column [cols + 1] and the capacity
    [nnz(left) + nnz(right)] are at most [INT_MAX]. *)
Definition fits_idxint (a : csr.CSR) (na nb : Z) : Prop :=
  (shape a).1 ≤ INT_MAX ∧ (shape a).2 + 1 ≤ INT_MAX ∧ na + nb ≤ INT_MAX.

(** [buf[i] *= scale] for [n] positions from [idx] on, on a plain buffer. *)
Fixpoint scaled (n : nat) (idx : Z) (scale : cplx) (buf : list cplx)
    : option (list cplx) :=
  match n with
  | O => Some buf
  | S n' =>
      v ← at_idx buf idx;
      buf' ← set_idx buf idx (cmul v scale);
      scaled n' (idx + 1) scale buf'
  end.

End CSRViews.

(** ** What the merge stores *)

Section MergeViews.
Context {N : Numeric}.

(** What the merge scatters for a value of [right]: the kernel for
    [scale == 1] scatters the value itself, the other one the product. *)
Definition scattered (scale : cplx) : cplx → cplx :=
  if ceqb scale c1 then (λ v, v) else cmul scale.

(** The columns at which one of two rows stores an entry, ascending, each
    once. *)
Definition merged_cols (ea eb : list (Z * cplx)) : list Z :=
  merge_sort Z.le (remove_dups (ea.*1 ++ eb.*1)).

(** The entries of the sum of two rows: at every such column the
    accumulated total, unless it is at or below the tolerance. *)
Definition merged_row (f : cplx → cplx) (tol : real)
    (ea eb : list (Z * cplx)) : list (Z * cplx) :=
  omap (λ col, let total := row_total f ea eb col in
               if at_or_below total tol then None else Some (col, total))
       (merged_cols ea eb).

(** The accumulator and the output that [add_csr] hands to a merge
    kernel: a fresh accumulator for [ncols] columns, and buffers for
    [size] entries that hold whatever the heap held. *)
Definition acc_fresh (ncols : Z) : csr.Accumulator :=
  {| csr.values := replicate (Z.to_nat ncols) c0; csr.touched := [] |}.

Definition out_fresh (u : Indeterminate) (rows cols size : Z) : csr.CSR :=
  {| csr.shape := (rows, cols);
     csr.data := heap_values u <$> seq 0 (Z.to_nat size);
     csr.col_index := heap_indices u <$> seq 0 (Z.to_nat size);
     csr.row_index := heap_indices u <$> seq 0 (Z.to_nat (rows + 1)) |}.

End MergeViews.

Section ResultViews.
Context {N : Numeric}.

(** A row of what [add_csr] returns, from the same row of [left] and of
    [right] and their stored entry counts: the row of [left] on the first
    fast path, the row of [right] with its values scaled on the second,
    the merged row on the main path. *)
Definition result_row (cfg : Settings) (u : Indeterminate) (scale : cplx)
    (left_nnz right_nnz : Z) (ea eb : list (Z * cplx)) : list (Z * cplx) :=
  if bool_decide (right_nnz = 0) || ceqb scale c0 then ea
  else if bool_decide (left_nnz = 0) then
    prod_map id (λ v, if ceqb scale c1 then v else cmul v scale) <$> eb
  else merged_row (scattered scale) (read_tol cfg u) ea eb.

End ResultViews.

(** ** Exact integer scalars, for running the kernels on examples *)

Definition Z_numeric : Numeric :=
  {| cplx := Z; real := Z; c0 := 0; c1 := 1; cm1 := -1;
     cadd := Z.add; cmul := Z.mul; ceqb := Z.eqb;
     at_or_below := λ v tol, Z.abs v <=? tol |}.

(** The dense scenario of the specification: row-major [[1,2],[3,4]] and
    column-major [[5,6],[7,8]], as objects 1 and 2 of a store. *)
Definition ex_L : @dense.Dense Z_numeric :=
  @dense.Build_Dense Z_numeric (2, 2) [1; 2; 3; 4] false.

Definition ex_R : @dense.Dense Z_numeric :=
  @dense.Build_Dense Z_numeric (2, 2) [5; 7; 6; 8] true.

Definition ex_dense_store : gmap loc (@dense.Dense Z_numeric) :=
  <[2%positive := ex_R]> (<[1%positive := ex_L]> ∅).

(** A row-major matrix of ones with 65536 rows and 32769 columns: every
    shape entry is a valid C int, the element count [2^31 + 65536] is not. *)
Definition big_shape : Z * Z := (65536, 32769).

Definition big_ones : @dense.Dense Z_numeric :=
  @dense.Build_Dense Z_numeric big_shape
    (replicate (Z.to_nat (big_shape.1 * big_shape.2)) 1) false.

Definition big_store : gmap loc (@dense.Dense Z_numeric) :=
  <[2%positive := big_ones]> (<[1%positive := big_ones]> ∅).

(** The same matrix of ones stored column-major, and a store with the
    row-major one as object 1 and the column-major one as object 2. *)
Definition big_ones_f : @dense.Dense Z_numeric :=
  @dense.Build_Dense Z_numeric big_shape
    (replicate (Z.to_nat (big_shape.1 * big_shape.2)) 1) true.

Definition big_mixed_store : gmap loc (@dense.Dense Z_numeric) :=
  <[2%positive := big_ones_f]> (<[1%positive := big_ones]> ∅).

(** The sparse scenario of the specification: [A] holds 1 at (0,0) and 2
    at (1,1), [B] holds -1 at (0,0) and 3 at (0,1), as objects 1 and 2. *)
Definition ex_A : @csr.CSR Z_numeric :=
  @csr.Build_CSR Z_numeric (2, 2) [1; 2] [0; 1] [0; 1; 2].

Definition ex_B : @csr.CSR Z_numeric :=
  @csr.Build_CSR Z_numeric (2, 2) [-1; 3] [0; 1] [0; 2; 2].

Definition ex_csr_store : gmap loc (@csr.CSR Z_numeric) :=
  <[2%positive := ex_B]> (<[1%positive := ex_A]> ∅).

(** Tidy-up enabled with threshold 0, and tidy-up disabled. *)
Definition tidy_on : @Settings Z_numeric := @Build_Settings Z_numeric true 0.

Definition tidy_off : @Settings Z_numeric := @Build_Settings Z_numeric false 0.

(** Storage that happens to hold [t] in the stack slot and zeros in fresh
    buffers. *)
Definition storage (t : Z) : @Indeterminate Z_numeric :=
  @Build_Indeterminate Z_numeric t (λ _, 0) (λ _, 0).

(** More objects for the sparse examples: an empty 2x2 matrix (object 3)
    and a 2x2 matrix that stores an explicit zero at (0,0) (object 4). *)
Definition ex_empty : @csr.CSR Z_numeric :=
  @csr.Build_CSR Z_numeric (2, 2) [] [] [0; 0; 0].

Definition ex_stored_zero : @csr.CSR Z_numeric :=
  @csr.Build_CSR Z_numeric (2, 2) [0] [0] [0; 1; 1].

Definition ex_csr_store4 : gmap loc (@csr.CSR Z_numeric) :=
  <[4%positive := ex_stored_zero]> (<[3%positive := ex_empty]> ex_csr_store).

(** Operands of shapes (2, 3) and (3, 2), dense and sparse. *)
Definition ex_d23 : @dense.Dense Z_numeric :=
  @dense.Build_Dense Z_numeric (2, 3) [0; 0; 0; 0; 0; 0] false.

Definition ex_d32 : @dense.Dense Z_numeric :=
  @dense.Build_Dense Z_numeric (3, 2) [0; 0; 0; 0; 0; 0] false.

Definition ex_dense_mismatch : gmap loc (@dense.Dense Z_numeric) :=
  <[2%positive := ex_d32]> (<[1%positive := ex_d23]> ∅).

Definition ex_s23 : @csr.CSR Z_numeric :=
  @csr.Build_CSR Z_numeric (2, 3) [] [] [0; 0; 0].

Definition ex_s32 : @csr.CSR Z_numeric :=
  @csr.Build_CSR Z_numeric (3, 2) [] [] [0; 0; 0; 0].

Definition ex_csr_mismatch : gmap loc (@csr.CSR Z_numeric) :=
  <[2%positive := ex_s32]> (<[1%positive := ex_s23]> ∅).

(** Scalars that round: fixed-point numbers with four fractional bits,
    the integer [n] standing for [n / 16].  A product is truncated to the
    grid, so that two small non-zero factors can give exactly zero, as
    floating-point products do when they underflow. *)
Definition fixed_numeric : Numeric :=
  {| cplx := Z; real := Z; c0 := 0; c1 := 16; cm1 := -16;
     cadd := Z.add; cmul := λ x y, Z.quot (x * y) 16; ceqb := Z.eqb;
     at_or_below := λ v tol, Z.abs v <=? tol |}.

(** An empty 1x1 matrix (object 1) and a 1x1 matrix that stores 1/16 at
    (0,0) (object 2), with tidy-up enabled at threshold 0. *)
Definition fx_empty : @csr.CSR fixed_numeric :=
  @csr.Build_CSR fixed_numeric (1, 1) [] [] [0; 0].

Definition fx_small : @csr.CSR fixed_numeric :=
  @csr.Build_CSR fixed_numeric (1, 1) [1] [0] [0; 1].

Definition fx_store : gmap loc (@csr.CSR fixed_numeric) :=
  <[2%positive := fx_small]> (<[1%positive := fx_empty]> ∅).

Definition fx_tidy_on : @Settings fixed_numeric :=
  @Build_Settings fixed_numeric true 0.

Definition fx_storage : @Indeterminate fixed_numeric :=
  @Build_Indeterminate fixed_numeric 0 (λ _, 0) (λ _, 0).

(** Matrices without rows: shape (0, 3), row-major (object 1) and
    column-major (object 2). *)
Definition ex_d03 : @dense.Dense Z_numeric :=
  @dense.Build_Dense Z_numeric (0, 3) [] false.

Definition ex_d03f : @dense.Dense Z_numeric :=
  @dense.Build_Dense Z_numeric (0, 3) [] true.

Definition ex_dense_empty : gmap loc (@dense.Dense Z_numeric) :=
  <[2%positive := ex_d03f]> (<[1%positive := ex_d03]> ∅).

(** Storage that holds [t] in the stack slot and sevens in fresh
    buffers. *)
Definition storage7 (t : Z) : @Indeterminate Z_numeric :=
  @Build_Indeterminate Z_numeric t (λ _, 7) (λ _, 7).

(** A one-row matrix with [ncols] columns and a single entry 1 in column
    0, and the widest one whose column count is still a C int: there
    [ncols + 1] is not. *)
Definition wide (ncols : Z) : @csr.CSR Z_numeric :=
  @csr.Build_CSR Z_numeric (1, ncols) [1] [0] [0; 1].

Definition ex_wide : @csr.CSR Z_numeric := wide INT_MAX.

Definition ex_wide_store : gmap loc (@csr.CSR Z_numeric) :=
  <[2%positive := ex_wide]> (<[1%positive := ex_wide]> ∅).

(** * Properties *)

Ltac unfold_M :=
  unfold mbind, M_bind, bind, mret, M_ret, ret, lift, fault, raise,
         deref, store, alloc in *.

Section MonadFacts.
Context {S : Type}.

Lemma bind_Ok {A B} (m : M S A) (k : A → M S B) s a s' :
  m s = Ok a s' → (m ≫= k) s = k a s'.
Proof. unfold_M. by intros ->. Qed.

Lemma bind_Raise {A B} (m : M S A) (k : A → M S B) s msg s' :
  m s = Raise msg s' → (m ≫= k) s = Raise msg s'.
Proof. unfold_M. by intros ->. Qed.

End MonadFacts.

Section StoreFacts.
Context {A : Type}.
Implicit Types h : gmap loc A.

Lemma deref_Some h l v : h !! l = Some v → deref l h = Ok v h.
Proof. unfold deref. by intros ->. Qed.

Lemma fresh_lookup h : h !! fresh (dom h) = None.
Proof. apply not_elem_of_dom, is_fresh. Qed.

Lemma fresh_ne h l v : h !! l = Some v → fresh (dom h) ≠ l.
Proof. intros Hl Heq. by rewrite <- Heq, fresh_lookup in Hl. Qed.

End StoreFacts.

Section IndexFacts.
Context {A : Type}.
Implicit Types l : list A.

Lemma at_idx_Some l i x :
  at_idx l i = Some x ↔ 0 ≤ i ∧ l !! Z.to_nat i = Some x.
Proof.
  unfold at_idx. destruct (decide (0 ≤ i)); split; try tauto; done.
Qed.

Lemma at_idx_nat l (k : nat) : at_idx l (Z.of_nat k) = l !! k.
Proof. unfold at_idx. rewrite decide_True by lia. by rewrite Nat2Z.id. Qed.

Lemma at_idx_lt l i : 0 ≤ i < Z.of_nat (length l) → is_Some (at_idx l i).
Proof.
  intros Hi. unfold at_idx. rewrite decide_True by lia.
  apply lookup_lt_is_Some. lia.
Qed.

Lemma set_idx_Some l i x buf :
  set_idx l i x = Some buf ↔
  0 ≤ i < Z.of_nat (length l) ∧ buf = <[Z.to_nat i := x]> l.
Proof.
  unfold set_idx. destruct (decide (0 ≤ i < Z.of_nat (length l))); split.
  - intros [= <-]. done.
  - by intros [_ ->].
  - done.
  - by intros [? _].
Qed.

Lemma set_idx_lt l i x :
  0 ≤ i < Z.of_nat (length l) → set_idx l i x = Some (<[Z.to_nat i := x]> l).
Proof. intros. unfold set_idx. by rewrite decide_True. Qed.

Lemma at_idx_insert l i j x :
  0 ≤ i < Z.of_nat (length l) → 0 ≤ j →
  at_idx (<[Z.to_nat i := x]> l) j = if decide (j = i) then Some x else at_idx l j.
Proof.
  intros Hi Hj. unfold at_idx. rewrite !(decide_True (P := 0 ≤ j)) by lia.
  destruct (decide (j = i)) as [->|Hij].
  - apply list_lookup_insert_eq. lia.
  - apply list_lookup_insert_ne. lia.
Qed.

End IndexFacts.


(** ** The vector update *)

Section ZaxpyFacts.
Context {N : Numeric}.
Implicit Types h : gmap loc dense.Dense.

Lemma with_data_id (Y : dense.Dense) : dense.with_data Y (dense.data Y) = Y.
Proof. by destruct Y. Qed.

(** When [x] and [y] are distinct objects the store-level loop is the
    update of [y]'s buffer by [axpy]. *)
Lemma zaxpy_loop_distinct n alpha x ix incx y iy incy h X Y :
  x ≠ y → h !! x = Some X → h !! y = Some Y →
  blas.zaxpy_loop n alpha x ix incx y iy incy h =
  match axpy n alpha (dense.data X) ix incx (dense.data Y) iy incy with
  | Some buf => Ok () (<[y := dense.with_data Y buf]> h)
  | None => Fault
  end.
Proof.
  intros Hxy. revert ix iy h Y.
  induction n as [|n IH]; intros ix iy h Y Hx Hy; simpl.
  - rewrite with_data_id, insert_id by done. done.
  - unfold_M. rewrite Hx.
    destruct (at_idx (dense.data X) ix) as [xv|]; simpl; [|done].
    rewrite Hy.
    destruct (at_idx (dense.data Y) iy) as [yv|]; simpl; [|done].
    destruct (set_idx (dense.data Y) iy _) as [buf|]; simpl; [|done].
    rewrite Hy.
    erewrite (IH _ _ _ (dense.with_data Y buf)).
    + simpl. destruct (axpy n _ _ _ _ _ _ _); [|done].
      by rewrite insert_insert_eq.
    + by rewrite lookup_insert_ne.
    + by rewrite lookup_insert_eq.
Qed.

(** When [x] and [y] are the same object it is [axpy_self]. *)
Lemma zaxpy_loop_same n alpha ix incx y iy incy h Y :
  h !! y = Some Y →
  blas.zaxpy_loop n alpha y ix incx y iy incy h =
  match axpy_self n alpha (dense.data Y) ix incx iy incy with
  | Some buf => Ok () (<[y := dense.with_data Y buf]> h)
  | None => Fault
  end.
Proof.
  revert ix iy h Y.
  induction n as [|n IH]; intros ix iy h Y Hy; simpl.
  - rewrite with_data_id, insert_id by done. done.
  - unfold_M. rewrite Hy.
    destruct (at_idx (dense.data Y) ix) as [xv|]; simpl; [|done].
    rewrite ?Hy.
    destruct (at_idx (dense.data Y) iy) as [yv|]; simpl; [|done].
    destruct (set_idx (dense.data Y) iy _) as [buf|]; simpl; [|done].
    rewrite ?Hy.
    erewrite (IH _ _ _ (dense.with_data Y buf)).
    + simpl. destruct (axpy_self n _ _ _ _ _ _); [|done].
      by rewrite insert_insert_eq.
    + by rewrite lookup_insert_eq.
Qed.

(** Reading and writing the same buffer at the same unit-stride positions
    gives what reading from an untouched copy gives. *)
Lemma axpy_self_unit n alpha (ys ys0 : list cplx) i :
  length ys = length ys0 →
  (∀ k, i ≤ k → at_idx ys k = at_idx ys0 k) →
  axpy_self n alpha ys i 1 i 1 = axpy n alpha ys0 i 1 ys i 1.
Proof.
  revert ys i. induction n as [|n IH]; intros ys i Hlen Hagree; simpl; [done|].
  rewrite (Hagree i) by lia.
  destruct (at_idx ys0 i) as [xv|] eqn:Hxv; simpl; [|done].
  destruct (set_idx ys i _) as [buf|] eqn:Hbuf; simpl; [|done].
  apply set_idx_Some in Hbuf as [Hi ->].
  apply IH.
  - by rewrite length_insert.
  - intros k Hk. rewrite at_idx_insert by lia.
    rewrite decide_False by lia. apply Hagree. lia.
Qed.

End ZaxpyFacts.

Section AxpyFacts.
Context {N : Numeric}.

Lemma axpy_spec (n : nat) alpha xs ix incx ys iy :
  0 ≤ incx → 0 ≤ ix → 0 ≤ iy →
  ix + (Z.of_nat n - 1) * incx < Z.of_nat (length xs) ∨ n = O →
  iy + Z.of_nat n ≤ Z.of_nat (length ys) →
  ∃ buf, axpy n alpha xs ix incx ys iy 1 = Some buf ∧
         length buf = length ys ∧
         ∀ k, 0 ≤ k →
           at_idx buf k = updated alpha xs ix incx ys iy (Z.of_nat n) k.
Proof.
  intros Hinc. revert ix ys iy.
  induction n as [|n IH]; intros ix ys iy Hix Hiy Hx Hy; simpl.
  - exists ys. split_and!; [done..|].
    intros k _. unfold updated. by rewrite decide_False by lia.
  - destruct Hx as [Hx|]; [|done].
    destruct (at_idx_lt xs ix) as [xv Hxv]; [nia|].
    destruct (at_idx_lt ys iy) as [yv Hyv]; [lia|].
    rewrite Hxv, Hyv. simpl.
    rewrite set_idx_lt by lia. simpl.
    set (buf1 := <[Z.to_nat iy := cadd yv (cmul alpha xv)]> ys).
    destruct (IH (ix + incx) buf1 (iy + 1)) as (buf & Hbuf & Hlen & Hk).
    + lia.
    + lia.
    + destruct n; [by right|left]. nia.
    + unfold buf1. rewrite length_insert. lia.
    + exists buf. split_and!; [done| |].
      { rewrite Hlen. unfold buf1. by rewrite length_insert. }
      intros k Hk0. rewrite Hk by done. unfold updated, buf1.
      destruct (decide (k = iy)) as [->|Hne].
      * rewrite decide_False by lia. rewrite decide_True by lia.
        rewrite at_idx_insert by lia. rewrite decide_True by done.
        rewrite Hyv. simpl.
        replace (ix + (iy - iy) * incx) with ix by lia.
        by rewrite Hxv.
      * rewrite at_idx_insert by lia. rewrite (decide_False (P := k = iy)) by done.
        destruct (decide (iy + 1 ≤ k < iy + 1 + Z.of_nat n)).
        -- rewrite decide_True by lia.
           replace (ix + incx + (k - (iy + 1)) * incx)
             with (ix + (k - iy) * incx) by lia.
           done.
        -- by rewrite decide_False by lia.
Qed.

Lemma zaxpy_list_spec n alpha xs ix incx ys iy :
  0 ≤ incx → 0 ≤ ix → 0 ≤ iy →
  ix + (n - 1) * incx < Z.of_nat (length xs) ∨ n ≤ 0 →
  iy + n ≤ Z.of_nat (length ys) ∨ n ≤ 0 →
  ∃ buf, zaxpy_list n alpha xs ix incx ys iy _ONE = Some buf ∧
         length buf = length ys ∧
         ∀ k, 0 ≤ k → at_idx buf k = updated alpha xs ix incx ys iy n k.
Proof.
  intros Hinc Hix Hiy Hx Hy. unfold zaxpy_list.
  destruct (decide (n ≤ 0)) as [Hn|Hn].
  - exists ys. split_and!; [done..|].
    intros k _. unfold updated. by rewrite decide_False by lia.
  - unfold blas.start, _ONE. rewrite !decide_False by lia.
    destruct (axpy_spec (Z.to_nat n) alpha xs ix incx ys iy)
      as (buf & Hbuf & Hlen & Hk); try lia.
    exists buf. split_and!; [done..|].
    intros k Hk0. rewrite Hk by done. by rewrite Z2Nat.id by lia.
Qed.


Lemma segments_spec (n : nat) idx alpha xs dim1 dim2 ys :
  0 ≤ dim1 → 0 ≤ idx → idx + Z.of_nat n ≤ dim2 →
  Z.of_nat (length xs) = dim1 * dim2 →
  Z.of_nat (length ys) = dim1 * dim2 →
  ∃ buf, segments n idx alpha xs dim1 dim2 ys = Some buf ∧
         length buf = length ys ∧
         ∀ j i, 0 ≤ j < dim2 → 0 ≤ i < dim1 →
           at_idx buf (j * dim1 + i) =
           seg_updated alpha xs ys dim1 dim2 idx (idx + Z.of_nat n) j i.
Proof.
  intros Hd1. revert idx ys.
  induction n as [|n IH]; intros idx ys Hidx Hn Hxs Hys; simpl.
  - exists ys. split_and!; [done..|].
    intros j i _ _. unfold seg_updated. by rewrite decide_False by lia.
  - destruct (zaxpy_list_spec dim1 alpha xs idx dim2 ys (idx * dim1))
      as (buf1 & Hbuf1 & Hlen1 & Hk1).
    { lia. }
    { lia. }
    { nia. }
    { destruct (decide (dim1 ≤ 0)); [by right|left]. nia. }
    { left. nia. }
    rewrite Hbuf1. simpl.
    destruct (IH (idx + 1) buf1) as (buf & Hbuf & Hlen & Hk); try lia.
    exists buf. split_and!; [done|congruence|].
    intros j i Hj Hi. rewrite Hk by done.
    unfold seg_updated.
    assert (0 ≤ j * dim1 + i) as Hpos by nia.
    rewrite !Hk1 by done. unfold updated.
    destruct (decide (j = idx)) as [->|Hne].
    + rewrite decide_False by lia.
      rewrite (decide_True (P := idx ≤ idx < _)) by lia.
      rewrite decide_True by lia.
      replace (idx + (idx * dim1 + i - idx * dim1) * dim2)
        with (idx + i * dim2) by lia.
      done.
    + assert (¬ (idx * dim1 ≤ j * dim1 + i < idx * dim1 + dim1)) by nia.
      rewrite (decide_False (P := idx * dim1 ≤ _ < _)) by done.
      destruct (decide (idx + 1 ≤ j < idx + 1 + Z.of_nat n)).
      * by rewrite decide_True by lia.
      * by rewrite decide_False by lia.
Qed.

End AxpyFacts.

Lemma c_int_range z : - 2 ^ 31 ≤ c_int z ≤ INT_MAX.
Proof.
  unfold c_int, INT_MAX.
  pose proof (Z.mod_pos_bound (z + 2 ^ 31) (2 ^ 32) eq_refl). lia.
Qed.

Lemma c_int_id z : - 2 ^ 31 ≤ z ≤ INT_MAX → c_int z = z.
Proof.
  unfold c_int, INT_MAX. intros Hz.
  rewrite Z.mod_small; lia.
Qed.

Lemma c_int_le z : 0 ≤ z → c_int z ≤ z.
Proof.
  unfold c_int. intros Hz.
  pose proof (Z.mod_le (z + 2 ^ 31) (2 ^ 32)). lia.
Qed.

Lemma c_int_cong z : (c_int z - z) `mod` 2 ^ 32 = 0.
Proof.
  unfold c_int.
  rewrite (Z.mod_eq (z + 2 ^ 31) (2 ^ 32)) by lia.
  replace (z + 2 ^ 31 - 2 ^ 32 * ((z + 2 ^ 31) `div` 2 ^ 32) - 2 ^ 31 - z)
    with ((- ((z + 2 ^ 31) `div` 2 ^ 32)) * 2 ^ 32) by lia.
  apply Z.mod_mul. lia.
Qed.

Section ZaxpyRuns.
Context {N : Numeric}.
Implicit Types h : gmap loc dense.Dense.

Lemma zaxpy_distinct n alpha x offx incx y offy incy h X Y :
  x ≠ y → h !! x = Some X → h !! y = Some Y →
  blas.zaxpy n alpha x offx incx y offy incy h =
  match zaxpy_list n alpha (dense.data X) offx incx (dense.data Y) offy incy with
  | Some buf => Ok () (<[y := dense.with_data Y buf]> h)
  | None => Fault
  end.
Proof.
  intros Hxy Hx Hy. unfold blas.zaxpy, zaxpy_list.
  destruct (decide (n ≤ 0)).
  - rewrite with_data_id, insert_id by done. done.
  - by apply zaxpy_loop_distinct.
Qed.

Lemma for_range_segments n idx alpha x dim1 dim2 y h X Y :
  x ≠ y → h !! x = Some X → h !! y = Some Y →
  for_range n idx (λ idx,
    blas.zaxpy dim1 alpha x idx dim2 y (idx * dim1) _ONE) h =
  match segments n idx alpha (dense.data X) dim1 dim2 (dense.data Y) with
  | Some buf => Ok () (<[y := dense.with_data Y buf]> h)
  | None => Fault
  end.
Proof.
  intros Hxy. revert idx h Y.
  induction n as [|n IH]; intros idx h Y Hx Hy; simpl.
  - rewrite with_data_id, insert_id by done. done.
  - unfold mbind, M_bind, bind.
    rewrite (zaxpy_distinct _ _ _ _ _ _ _ _ _ X Y) by done.
    destruct (zaxpy_list _ _ _ _ _ _ _ _) as [buf1|]; simpl; [|done].
    erewrite (IH _ _ (dense.with_data Y buf1)).
    + simpl. destruct (segments n _ _ _ _ _ _); [|done].
      by rewrite insert_insert_eq.
    + by rewrite lookup_insert_ne.
    + by rewrite lookup_insert_eq.
Qed.

End ZaxpyRuns.

Section DenseRuns.
Context {N : Numeric}.
Implicit Types h : gmap loc dense.Dense.

Lemma check_shape_same {S A B} `{Data A, Data B} (left : A) (right : B) (s : S) :
  shape left = shape right → _check_shape left right s = Ok () s.
Proof.
  intros Heq. unfold _check_shape. rewrite Heq.
  rewrite !bool_decide_eq_false_2 by (intros ?; done). done.
Qed.

Lemma check_shape_differ {S A B} `{Data A, Data B} (left : A) (right : B) (s : S) :
  shape left ≠ shape right →
  _check_shape left right s =
  Raise ("incompatible matrix shapes " +:+ str_shape (shape left)
         +:+ " and " +:+ str_shape (shape right)) s.
Proof.
  intros Hne. unfold _check_shape.
  destruct (bool_decide _ || bool_decide _) eqn:Hb; [done|].
  apply orb_false_iff in Hb as [Hb1%bool_decide_eq_false Hb2%bool_decide_eq_false].
  exfalso. apply Hne.
  destruct (shape left), (shape right); simpl in *.
  f_equal; by apply dec_stable.
Qed.

Lemma add_dense_run h l r L R scale :
  h !! l = Some L → h !! r = Some R → shape L = shape R →
  add_dense l r scale h =
  match dense_sum L R scale with
  | Some buf => Ok (fresh (dom h))
                   (<[fresh (dom h) := dense.with_data L buf]> h)
  | None => Fault
  end.
Proof.
  intros Hl Hr Hs. unfold add_dense, dense_sum.
  rewrite (bind_Ok _ _ _ _ _ (deref_Some _ _ _ Hl)).
  rewrite (bind_Ok _ _ _ _ _ (deref_Some _ _ _ Hr)).
  rewrite (bind_Ok _ _ _ _ _ (check_shape_same L R h Hs)).
  pose proof (fresh_ne _ _ _ Hl) as Hol.
  pose proof (fresh_ne _ _ _ Hr) as Hor.
  set (out := fresh (dom h)) in *.
  assert (dense.copy l h = Ok out (<[out := L]> h)) as Hcopy.
  { unfold dense.copy. by rewrite (bind_Ok _ _ _ _ _ (deref_Some _ _ _ Hl)). }
  destruct (negb (xorb (dense.fortran L) (dense.fortran R))).
  - unfold _add_dense_eq_order.
    rewrite (bind_Ok _ _ _ _ _ Hcopy).
    erewrite bind_Ok; last by (apply deref_Some; rewrite lookup_insert_ne).
    unfold mbind, M_bind, bind.
    rewrite (zaxpy_distinct _ _ _ _ _ _ _ _ _ R L);
      [|done|by rewrite lookup_insert_ne|by rewrite lookup_insert_eq].
    destruct (zaxpy_list _ _ _ _ _ _ _ _); [|done].
    by rewrite insert_insert_eq.
  - rewrite (bind_Ok _ _ _ _ _ Hcopy).
    destruct (int_dims L) as [dim1 dim2] eqn:Hd. simpl.
    unfold mbind, M_bind, bind.
    rewrite (for_range_segments _ _ _ _ _ _ _ _ R L);
      [|done|by rewrite lookup_insert_ne|by rewrite lookup_insert_eq].
    destruct (segments _ _ _ _ _ _ _); [|done].
    by rewrite insert_insert_eq.
Qed.

Lemma iadd_dense_run h l r L R scale :
  h !! l = Some L → h !! r = Some R → shape L = shape R →
  iadd_dense l r scale h =
  match dense_sum L R scale with
  | Some buf => Ok l (<[l := dense.with_data L buf]> h)
  | None => Fault
  end.
Proof.
  intros Hl Hr Hs. unfold iadd_dense, dense_sum.
  rewrite (bind_Ok _ _ _ _ _ (deref_Some _ _ _ Hl)).
  rewrite (bind_Ok _ _ _ _ _ (deref_Some _ _ _ Hr)).
  rewrite (bind_Ok _ _ _ _ _ (check_shape_same L R h Hs)).
  destruct (int_dims L) as [dim1 dim2] eqn:Hd. simpl.
  destruct (negb (xorb (dense.fortran L) (dense.fortran R))) eqn:Hlay.
  - unfold mbind, M_bind, bind.
    destruct (decide (r = l)) as [->|Hrl].
    + assert (R = L) as -> by congruence.
      unfold blas.zaxpy, zaxpy_list.
      destruct (decide (int_size (shape L) ≤ 0)).
      { rewrite with_data_id, insert_id by done. done. }
      unfold blas.start, _ONE. rewrite !decide_False by lia.
      rewrite (zaxpy_loop_same _ _ _ _ _ _ _ _ L) by done.
      rewrite (axpy_self_unit _ _ _ (dense.data L)) by done.
      by destruct (axpy _ _ _ _ _ _ _ _).
    + rewrite (zaxpy_distinct _ _ _ _ _ _ _ _ _ R L) by done.
      by destruct (zaxpy_list _ _ _ _ _ _ _ _).
  - assert (r ≠ l) as Hrl.
    { intros ->. assert (R = L) as -> by congruence.
      by destruct (dense.fortran L). }
    unfold mbind, M_bind, bind.
    rewrite (for_range_segments _ _ _ _ _ _ _ _ R L) by done.
    by destruct (segments _ _ _ _ _ _ _).
Qed.

End DenseRuns.

Section DenseSum.
Context {N : Numeric}.

Lemma int_dims_exact (L : dense.Dense) :
  wf_dense L →
  int_dims L = if dense.fortran L then ((shape L).1, (shape L).2)
               else ((shape L).2, (shape L).1).
Proof.
  intros (Hr & Hc & _). unfold int_dims, INT_MAX in *.
  rewrite !c_int_id by (unfold INT_MAX; lia). done.
Qed.

Lemma offset_range (L : dense.Dense) r c :
  wf_dense L → 0 ≤ r < (shape L).1 → 0 ≤ c < (shape L).2 →
  0 ≤ offset L r c < Z.of_nat (length (dense.data L)).
Proof.
  intros (Hr & Hc & Hlen) Hri Hci. unfold offset. rewrite Hlen.
  destruct (dense.fortran L); nia.
Qed.

Lemma dense_sum_total (L R : dense.Dense) scale :
  wf_dense L → wf_dense R → shape L = shape R →
  ∃ buf, dense_sum L R scale = Some buf ∧ length buf = length (dense.data L).
Proof.
  intros HL HR Hs. unfold dense_sum.
  pose proof HL as (Hr & Hc & Hlen).
  pose proof HR as (_ & _ & HlenR). rewrite <- Hs in HlenR.
  destruct (negb (xorb (dense.fortran L) (dense.fortran R))).
  - pose proof (c_int_le ((shape L).1 * (shape L).2)) as Hle.
    destruct (zaxpy_list_spec (int_size (shape L)) scale (dense.data R) 0 1
                (dense.data L) 0) as (buf & Hbuf & Hl & _);
      unfold int_size in *; try lia.
    exists buf. done.
  - rewrite (int_dims_exact L HL).
    destruct (dense.fortran L); simpl.
    + destruct (segments_spec (Z.to_nat (shape L).2) 0 scale (dense.data R)
                  (shape L).1 (shape L).2 (dense.data L))
        as (buf & Hbuf & Hl & _); try lia.
      exists buf. done.
    + destruct (segments_spec (Z.to_nat (shape L).1) 0 scale (dense.data R)
                  (shape L).2 (shape L).1 (dense.data L))
        as (buf & Hbuf & Hl & _); try lia.
      exists buf. done.
Qed.

Lemma dense_sum_elem (L R : dense.Dense) scale r c :
  wf_dense L → wf_dense R → shape L = shape R →
  (dense.fortran L = dense.fortran R →
   (shape L).1 * (shape L).2 ≤ INT_MAX) →
  0 ≤ r < (shape L).1 → 0 ≤ c < (shape L).2 →
  ∃ buf lv rv,
    dense_sum L R scale = Some buf ∧ length buf = length (dense.data L) ∧
    elem L r c = Some lv ∧ elem R r c = Some rv ∧
    at_idx buf (offset L r c) = Some (cadd lv (cmul scale rv)).
Proof.
  intros HL HR Hs Hfit Hri Hci.
  pose proof HL as (Hr & Hc & Hlen).
  pose proof HR as (_ & _ & HlenR). rewrite <- Hs in HlenR.
  pose proof (offset_range L r c HL Hri Hci) as HoL.
  assert (0 ≤ offset R r c < Z.of_nat (length (dense.data R))) as HoR.
  { apply offset_range; [done|by rewrite <- Hs..]. }
  destruct (at_idx_lt _ _ HoL) as [lv Hlv].
  destruct (at_idx_lt _ _ HoR) as [rv Hrv].
  unfold dense_sum, elem.
  destruct (negb (xorb (dense.fortran L) (dense.fortran R))) eqn:Hlay.
  - assert (dense.fortran L = dense.fortran R) as Hsame
      by by destruct (dense.fortran L), (dense.fortran R).
    specialize (Hfit Hsame).
    assert (int_size (shape L) = (shape L).1 * (shape L).2) as Hsize.
    { unfold int_size. apply c_int_id. unfold INT_MAX in *. lia. }
    destruct (zaxpy_list_spec (int_size (shape L)) scale (dense.data R) 0 1
                (dense.data L) 0) as (buf & Hbuf & Hl & Hk); try lia.
    exists buf, lv, rv. split_and!; [done..|].
    rewrite Hk by lia. unfold updated.
    rewrite decide_True by lia. rewrite Hlv. simpl.
    assert (offset R r c = offset L r c) as HRL.
    { unfold offset. rewrite <- Hs.
      by destruct (dense.fortran L), (dense.fortran R). }
    replace (0 + (offset L r c - 0) * 1) with (offset R r c) by lia.
    by rewrite Hrv.
  - rewrite (int_dims_exact L HL).
    unfold offset in *. rewrite <- Hs in *.
    destruct (dense.fortran L), (dense.fortran R); try done; simpl.
    + destruct (segments_spec (Z.to_nat (shape L).2) 0 scale (dense.data R)
                  (shape L).1 (shape L).2 (dense.data L))
        as (buf & Hbuf & Hl & Hk); try lia.
      exists buf, lv, rv. split_and!; [done..|].
      replace (r + c * (shape L).1) with (c * (shape L).1 + r) in * by lia.
      rewrite Hk by lia. unfold seg_updated.
      rewrite decide_True by lia. rewrite Hlv. simpl.
      replace (c + r * (shape L).2) with (r * (shape L).2 + c) by lia.
      by rewrite Hrv.
    + destruct (segments_spec (Z.to_nat (shape L).1) 0 scale (dense.data R)
                  (shape L).2 (shape L).1 (dense.data L))
        as (buf & Hbuf & Hl & Hk); try lia.
      exists buf, lv, rv. split_and!; [done..|].
      rewrite Hk by lia. unfold seg_updated.
      rewrite decide_True by lia. rewrite Hlv. simpl.
      by rewrite Hrv.
Qed.

(** What a unit-stride update of the first [n] positions leaves at
    position [k], the two buffers being as long as each other. *)
Lemma zaxpy_list_prefix n alpha (xs ys : list cplx) :
  length xs = length ys → n ≤ Z.of_nat (length ys) →
  ∃ buf, zaxpy_list n alpha xs 0 _ONE ys 0 _ONE = Some buf ∧
         length buf = length ys ∧
         ∀ k, 0 ≤ k < Z.of_nat (length ys) →
           ∃ lv rv, at_idx ys k = Some lv ∧ at_idx xs k = Some rv ∧
                    at_idx buf k =
                    Some (if decide (k < n) then cadd lv (cmul alpha rv)
                          else lv).
Proof.
  intros Hlen Hn.
  destruct (zaxpy_list_spec n alpha xs 0 1 ys 0) as (buf & Hbuf & Hl & Hk);
    try lia.
  exists buf. split_and!; [done..|].
  intros k Hk0.
  destruct (at_idx_lt ys k) as [lv Hlv]; [lia|].
  destruct (at_idx_lt xs k) as [rv Hrv]; [lia|].
  exists lv, rv. split_and!; [done..|].
  rewrite Hk by lia. unfold updated.
  destruct (decide (0 ≤ k < 0 + n)).
  - rewrite decide_True by lia. rewrite Hlv. simpl.
    replace (0 + (k - 0) * 1) with k by lia. by rewrite Hrv.
  - by rewrite decide_False by lia.
Qed.

Lemma wf_dense_sizes (L R : dense.Dense) :
  wf_dense L → wf_dense R → shape L = shape R →
  length (dense.data R) = length (dense.data L) ∧
  int_size (shape L) ≤ Z.of_nat (length (dense.data L)).
Proof.
  intros (Hr & Hc & Hlen) (_ & _ & HlenR) Hs. rewrite <- Hs in HlenR.
  split; [lia|]. rewrite Hlen. apply c_int_le. lia.
Qed.

(** Every position of a constant matrix holds the constant. *)
Lemma elem_replicate (s : Z * Z) (v : cplx) (fl : bool) i j :
  0 ≤ i < s.1 → 0 ≤ j < s.2 →
  elem (dense.Build_Dense s (replicate (Z.to_nat (s.1 * s.2)) v) fl) i j
  = Some v.
Proof.
  intros Hi Hj. unfold elem, offset, shape, Dense_Data.
  cbn [dense.shape dense.data dense.fortran].
  apply at_idx_Some. split; [destruct fl; nia|].
  apply lookup_replicate_2. destruct fl; nia.
Qed.

End DenseSum.


(** ** The dense entry points *)

Section DenseClaims.
Context {N : Numeric}.
Implicit Types h : gmap loc dense.Dense.

(** C7: for same-shape dense matrices [L] and [R] and any [scale],
    [iadd_dense(L, R, scale)] returns the identity of [L] itself and leaves
    the store as it was except that the buffer of [L] now holds exactly the
    values of the matrix that [add_dense(L, R, scale)] returns. *)
Theorem iadd_dense_matches_add_dense h l r L R scale :
  h !! l = Some L → h !! r = Some R →
  wf_dense L → wf_dense R → shape L = shape R →
  ∃ out h1 O,
    add_dense l r scale h = Ok out h1 ∧ h1 !! out = Some O ∧
    iadd_dense l r scale h =
      Ok l (<[l := dense.with_data L (dense.data O)]> h).
Proof.
  intros Hl Hr HL HR Hs.
  destruct (dense_sum_total L R scale HL HR Hs) as (buf & Hbuf & _).
  rewrite (add_dense_run h l r L R) by done.
  rewrite (iadd_dense_run h l r L R) by done.
  rewrite Hbuf.
  exists (fresh (dom h)), (<[fresh (dom h) := dense.with_data L buf]> h),
         (dense.with_data L buf).
  split_and!; [done| |done].
  by rewrite lookup_insert_eq.
Qed.

(** C9: the matrix returned by [add_dense(L, R, scale)] has the shape and
    the layout flag of [L], whatever the flag of [R]. *)
Theorem add_dense_keeps_left_layout h l r L R scale :
  h !! l = Some L → h !! r = Some R →
  wf_dense L → wf_dense R → shape L = shape R →
  ∃ out h1 O,
    add_dense l r scale h = Ok out h1 ∧ h1 !! out = Some O ∧
    (out ∉ dom h) ∧
    dense.fortran O = dense.fortran L ∧ shape O = shape L.
Proof.
  intros Hl Hr HL HR Hs.
  destruct (dense_sum_total L R scale HL HR Hs) as (buf & Hbuf & _).
  rewrite (add_dense_run h l r L R) by done.
  rewrite Hbuf.
  exists (fresh (dom h)), (<[fresh (dom h) := dense.with_data L buf]> h),
         (dense.with_data L buf).
  split_and!; [done| |apply is_fresh|done..].
  by rewrite lookup_insert_eq.
Qed.

(** C3, as amended: for same-shape dense matrices [add_dense(L, R, scale)]
    returns a new matrix with [L[r,c] + scale * R[r,c]] at every position,
    whether the layout flags agree or differ, provided that, when they
    agree, the element count [rows * cols] fits in a C int; with
    [scale = 1], addition commutative and [1] a left unit, swapping the
    operands gives the same values. *)
Theorem add_dense_elementwise h l r L R scale :
  h !! l = Some L → h !! r = Some R →
  wf_dense L → wf_dense R → shape L = shape R →
  (dense.fortran L = dense.fortran R →
   (shape L).1 * (shape L).2 ≤ INT_MAX) →
  ∃ out h1 O,
    add_dense l r scale h = Ok out h1 ∧ h1 !! out = Some O ∧
    shape O = shape L ∧
    (∀ i j, 0 ≤ i < (shape L).1 → 0 ≤ j < (shape L).2 →
       ∃ lv rv, elem L i j = Some lv ∧ elem R i j = Some rv ∧
                elem O i j = Some (cadd lv (cmul scale rv))) ∧
    (scale = c1 → (∀ x y, cadd x y = cadd y x) → (∀ x, cmul c1 x = x) →
     ∃ out' h2 O',
       add_dense r l c1 h = Ok out' h2 ∧ h2 !! out' = Some O' ∧
       ∀ i j, 0 ≤ i < (shape L).1 → 0 ≤ j < (shape L).2 →
         elem O i j = elem O' i j).
Proof.
  intros Hl Hr HL HR Hs Hfit.
  destruct (dense_sum_total L R scale HL HR Hs) as (buf & Hbuf & Hlen).
  rewrite (add_dense_run h l r L R) by done.
  rewrite Hbuf.
  exists (fresh (dom h)), (<[fresh (dom h) := dense.with_data L buf]> h),
         (dense.with_data L buf).
  split_and!; [done|by rewrite lookup_insert_eq|done|..].
  - intros i j Hi Hj.
    destruct (dense_sum_elem L R scale i j) as (buf' & lv & rv & Hb & _ & ? & ? & ?);
      try done.
    exists lv, rv. split_and!; [done..|].
    rewrite Hbuf in Hb. by injection Hb as <-.
  - intros -> Hcomm Hone.
    destruct (dense_sum_total R L c1 HR HL (eq_sym Hs)) as (buf2 & Hbuf2 & Hlen2).
    rewrite (add_dense_run h r l R L) by done.
    rewrite Hbuf2.
    exists (fresh (dom h)), (<[fresh (dom h) := dense.with_data R buf2]> h),
           (dense.with_data R buf2).
    split_and!; [done|by rewrite lookup_insert_eq|].
    intros i j Hi Hj.
    destruct (dense_sum_elem L R c1 i j) as (b1 & lv & rv & Hb1 & _ & HLv & HRv & H1);
      try done.
    destruct (dense_sum_elem R L c1 i j) as (b2 & rv' & lv' & Hb2 & _ & HRv' & HLv' & H2);
      try done; try (by rewrite <- Hs).
    { intros Hsame. rewrite <- Hs. by apply Hfit. }
    rewrite Hbuf in Hb1. injection Hb1 as <-.
    rewrite Hbuf2 in Hb2. injection Hb2 as <-.
    assert (lv' = lv) as -> by congruence.
    assert (rv' = rv) as -> by congruence.
    unfold elem in *. simpl. change (offset (dense.with_data L buf) i j) with (offset L i j).
    change (offset (dense.with_data R buf2) i j) with (offset R i j).
    rewrite H1, H2, !Hone. by rewrite Hcomm.
Qed.

(** A count that is not positive makes the vector update a no-op. *)
Lemma add_dense_nonpositive_size h l r L R scale :
  h !! l = Some L → h !! r = Some R → shape L = shape R →
  dense.fortran L = dense.fortran R → int_size (shape L) ≤ 0 →
  add_dense l r scale h = Ok (fresh (dom h)) (<[fresh (dom h) := L]> h).
Proof.
  intros Hl Hr Hs Hlay Hneg.
  rewrite (add_dense_run h l r L R) by done.
  unfold dense_sum, zaxpy_list. rewrite Hlay.
  replace (negb (xorb (dense.fortran R) (dense.fortran R))) with true
    by by destruct (dense.fortran R).
  rewrite decide_True by done.
  by rewrite with_data_id.
Qed.

(** C10, as amended: the kernels hand [rows * cols] and the segment
    extents to the vector update as C ints.  The extents of a well-formed
    matrix are exact.  The count is [rows * cols] reduced modulo [2^32]
    into [[-2^31, 2^31)]: it is [rows * cols] when that fits in a signed
    int and less than it otherwise.  When the layout flags agree,
    [add_dense] and [iadd_dense] leave [L[k] + scale * R[k]] at the buffer
    positions below the count and [L[k]] from there on, so every
    position holds the sum when [rows * cols] fits in a signed int, and
    not every position is updated when it does not.  When the flags
    differ every position holds the sum, whatever the element count. *)
Theorem dense_size_is_c_int h l r L R scale :
  h !! l = Some L → h !! r = Some R →
  wf_dense L → wf_dense R → shape L = shape R →
  (- 2 ^ 31 ≤ int_size (shape L) ≤ INT_MAX ∧
   (int_size (shape L) - (shape L).1 * (shape L).2) `mod` 2 ^ 32 = 0 ∧
   ((shape L).1 * (shape L).2 ≤ INT_MAX →
    int_size (shape L) = (shape L).1 * (shape L).2) ∧
   (INT_MAX < (shape L).1 * (shape L).2 →
    int_size (shape L) < (shape L).1 * (shape L).2)) ∧
  int_dims L = (if dense.fortran L then ((shape L).1, (shape L).2)
                else ((shape L).2, (shape L).1)) ∧
  ∃ out O,
    add_dense l r scale h = Ok out (<[out := O]> h) ∧
    iadd_dense l r scale h =
      Ok l (<[l := dense.with_data L (dense.data O)]> h) ∧
    (dense.fortran L = dense.fortran R →
     ∀ k, 0 ≤ k < (shape L).1 * (shape L).2 →
       ∃ lv rv, at_idx (dense.data L) k = Some lv ∧
                at_idx (dense.data R) k = Some rv ∧
                at_idx (dense.data O) k =
                Some (if decide (k < int_size (shape L))
                      then cadd lv (cmul scale rv) else lv)) ∧
    (dense.fortran L ≠ dense.fortran R →
     ∀ i j, 0 ≤ i < (shape L).1 → 0 ≤ j < (shape L).2 →
       ∃ lv rv, elem L i j = Some lv ∧ elem R i j = Some rv ∧
                elem O i j = Some (cadd lv (cmul scale rv))).
Proof.
  intros Hl Hr HL HR Hs.
  pose proof HL as (Hr0 & Hc0 & HlenL).
  split; [|split].
  - pose proof (c_int_range ((shape L).1 * (shape L).2)) as Hrange.
    unfold int_size. split; [done|]. split; [apply c_int_cong|].
    split.
    + intros Hfit. apply c_int_id. unfold INT_MAX in *. nia.
    + lia.
  - by apply int_dims_exact.
  - destruct (dense_sum_total L R scale HL HR Hs) as (buf & Hbuf & Hlen).
    rewrite (add_dense_run h l r L R) by done.
    rewrite (iadd_dense_run h l r L R) by done.
    rewrite Hbuf.
    exists (fresh (dom h)), (dense.with_data L buf).
    split; [done|]. split; [done|]. split.
    + intros Hlay k Hk.
      destruct (wf_dense_sizes L R HL HR Hs) as [HlenR Hsize].
      destruct (zaxpy_list_prefix (int_size (shape L)) scale
                  (dense.data R) (dense.data L) HlenR Hsize)
        as (buf' & Hbuf' & _ & Hpos).
      unfold dense_sum in Hbuf. rewrite Hlay in Hbuf.
      replace (negb (xorb (dense.fortran R) (dense.fortran R))) with true
        in Hbuf by by destruct (dense.fortran R).
      rewrite Hbuf' in Hbuf. injection Hbuf as ->.
      apply Hpos. lia.
    + intros Hlay i j Hi Hj.
      destruct (dense_sum_elem L R scale i j)
        as (buf' & lv & rv & Hb & _ & ? & ? & ?); try done.
      exists lv, rv. split_and!; [done..|].
      rewrite Hbuf in Hb. by injection Hb as <-.
Qed.

End DenseClaims.

(** ** The dense claims on concrete matrices *)

Ltac solve_wf_dense := unfold wf_dense, INT_MAX; simpl; lia.

(** The claims on the dense scenario of the specification. *)
Lemma iadd_dense_matches_add_dense_witness :
  ∃ out h1 O,
    add_dense (N:=Z_numeric) 1 2 1 ex_dense_store = Ok out h1 ∧
    h1 !! out = Some O ∧
    iadd_dense (N:=Z_numeric) 1 2 1 ex_dense_store =
      Ok 1%positive
         (<[1%positive := dense.with_data ex_L (dense.data O)]> ex_dense_store).
Proof.
  apply (iadd_dense_matches_add_dense (N:=Z_numeric)
           ex_dense_store 1 2 ex_L ex_R 1);
    [reflexivity|reflexivity|solve_wf_dense|solve_wf_dense|reflexivity].
Defined.

Lemma add_dense_keeps_left_layout_witness :
  ∃ out h1 O,
    add_dense (N:=Z_numeric) 1 2 1 ex_dense_store = Ok out h1 ∧
    h1 !! out = Some O ∧ (out ∉ dom ex_dense_store) ∧
    dense.fortran O = dense.fortran ex_L ∧ shape O = shape ex_L.
Proof.
  apply (add_dense_keeps_left_layout (N:=Z_numeric)
           ex_dense_store 1 2 ex_L ex_R 1);
    [reflexivity|reflexivity|solve_wf_dense|solve_wf_dense|reflexivity].
Defined.

Lemma add_dense_elementwise_witness :
  ∃ out h1 O,
    add_dense (N:=Z_numeric) 1 2 1 ex_dense_store = Ok out h1 ∧
    h1 !! out = Some O ∧ shape O = shape ex_L ∧
    (∀ i j, 0 ≤ i < 2 → 0 ≤ j < 2 →
       ∃ lv rv, elem ex_L i j = Some lv ∧ elem ex_R i j = Some rv ∧
                elem O i j = Some (lv + 1 * rv)) ∧
    ((1 : Z) = 1 → (∀ x y : Z, x + y = y + x) → (∀ x : Z, 1 * x = x) →
     ∃ out' h2 O',
       add_dense (N:=Z_numeric) 2 1 1 ex_dense_store = Ok out' h2 ∧
       h2 !! out' = Some O' ∧
       ∀ i j, 0 ≤ i < 2 → 0 ≤ j < 2 → elem O i j = elem O' i j).
Proof.
  apply (add_dense_elementwise (N:=Z_numeric)
           ex_dense_store 1 2 ex_L ex_R 1);
    [reflexivity|reflexivity|solve_wf_dense|solve_wf_dense|reflexivity|].
  intros _. unfold INT_MAX. simpl. lia.
Defined.

(** On the scenario [add_dense] returns row-major [[6,8],[10,12]], and
    with the operands swapped the same values column-major. *)
Lemma add_dense_scenario :
  add_dense (N:=Z_numeric) 1 2 1 ex_dense_store =
    Ok 3%positive
       (<[3%positive := @dense.Build_Dense Z_numeric (2, 2) [6; 8; 10; 12] false]>
          ex_dense_store) ∧
  add_dense (N:=Z_numeric) 2 1 1 ex_dense_store =
    Ok 3%positive
       (<[3%positive := @dense.Build_Dense Z_numeric (2, 2) [6; 10; 8; 12] true]>
          ex_dense_store).
Proof. split; by vm_compute. Qed.

Lemma dense_size_is_c_int_witness :
  (- 2 ^ 31 ≤ int_size (shape ex_L) ≤ INT_MAX ∧
   (int_size (shape ex_L) - (shape ex_L).1 * (shape ex_L).2) `mod` 2 ^ 32 = 0 ∧
   ((shape ex_L).1 * (shape ex_L).2 ≤ INT_MAX →
    int_size (shape ex_L) = (shape ex_L).1 * (shape ex_L).2) ∧
   (INT_MAX < (shape ex_L).1 * (shape ex_L).2 →
    int_size (shape ex_L) < (shape ex_L).1 * (shape ex_L).2)) ∧
  int_dims ex_L = (if dense.fortran ex_L then ((shape ex_L).1, (shape ex_L).2)
                   else ((shape ex_L).2, (shape ex_L).1)) ∧
  ∃ out O,
    add_dense (N:=Z_numeric) 1 2 1 ex_dense_store =
      Ok out (<[out := O]> ex_dense_store) ∧
    iadd_dense (N:=Z_numeric) 1 2 1 ex_dense_store =
      Ok 1%positive
         (<[1%positive := dense.with_data ex_L (dense.data O)]> ex_dense_store) ∧
    (dense.fortran ex_L = dense.fortran ex_R →
     ∀ k, 0 ≤ k < (shape ex_L).1 * (shape ex_L).2 →
       ∃ lv rv, at_idx (dense.data ex_L) k = Some lv ∧
                at_idx (dense.data ex_R) k = Some rv ∧
                at_idx (dense.data O) k =
                Some (if decide (k < int_size (shape ex_L))
                      then lv + 1 * rv else lv)) ∧
    (dense.fortran ex_L ≠ dense.fortran ex_R →
     ∀ i j, 0 ≤ i < (shape ex_L).1 → 0 ≤ j < (shape ex_L).2 →
       ∃ lv rv, elem ex_L i j = Some lv ∧ elem ex_R i j = Some rv ∧
                elem O i j = Some (lv + 1 * rv)).
Proof.
  apply (dense_size_is_c_int (N:=Z_numeric) ex_dense_store 1 2 ex_L ex_R 1);
    [reflexivity|reflexivity|solve_wf_dense|solve_wf_dense|reflexivity].
Defined.

Lemma big_ones_wf : wf_dense big_ones.
Proof.
  unfold wf_dense, big_ones, INT_MAX, big_shape, shape, Dense_Data.
  cbn [dense.shape dense.data fst snd].
  rewrite length_replicate. lia.
Qed.

Lemma big_ones_first : elem big_ones 0 0 = Some 1.
Proof.
  unfold elem, offset, big_ones, big_shape, shape, Dense_Data.
  cbn [dense.shape dense.data dense.fortran fst snd].
  change (0 * 32769 + 0) with (Z.of_nat 0).
  rewrite at_idx_nat. apply lookup_replicate_2. lia.
Qed.

(** C3 as stated fails on large matrices: with [2^31 + 65536] elements the
    count handed to the vector update is negative, and [add_dense] returns
    an unchanged copy of its left operand. *)
Lemma add_dense_large_counterexample :
  wf_dense big_ones ∧ big_store !! 1%positive = Some big_ones ∧
  big_store !! 2%positive = Some big_ones ∧
  ∃ out h1 O,
    add_dense (N:=Z_numeric) 1 2 1 big_store = Ok out h1 ∧
    h1 !! out = Some O ∧
    ¬ ∃ lv rv, elem big_ones 0 0 = Some lv ∧ elem big_ones 0 0 = Some rv ∧
               elem O 0 0 = Some (lv + 1 * rv).
Proof.
  assert (big_store !! 1%positive = Some big_ones) as Hl.
  { unfold big_store. rewrite lookup_insert_ne by done. apply lookup_insert_eq. }
  assert (big_store !! 2%positive = Some big_ones) as Hr.
  { unfold big_store. apply lookup_insert_eq. }
  split; [apply big_ones_wf|]. split; [done|]. split; [done|].
  exists (fresh (dom big_store)), (<[fresh (dom big_store) := big_ones]> big_store),
         big_ones.
  split; [|split].
  - apply (add_dense_nonpositive_size (N:=Z_numeric) big_store 1 2 big_ones big_ones);
      [done|done|reflexivity|reflexivity|].
    unfold shape, Dense_Data, big_ones.
    cbn [dense.shape]. by vm_compute.
  - apply lookup_insert_eq.
  - intros (lv & rv & Hlv & Hrv & HO).
    rewrite big_ones_first in Hlv, Hrv, HO.
    injection Hlv as <-. injection Hrv as <-. discriminate HO.
Qed.

Lemma big_ones_f_wf : wf_dense big_ones_f.
Proof.
  unfold wf_dense, big_ones_f, INT_MAX, big_shape, shape, Dense_Data.
  cbn [dense.shape dense.data fst snd].
  rewrite length_replicate. lia.
Qed.

(** C10 as stated fails: for [65536 * 32769 = 2^31 + 65536] elements the C
    int is [-2^31 + 65536], while reduction modulo [2^31] would give
    [65536]; with that count [add_dense] on two row-major matrices of ones
    updates no position, position (0,0) included.  On a row-major and a
    column-major matrix of ones of that shape it returns the sum at every
    position, although the element count does not fit in a signed int. *)
Lemma dense_size_counterexample :
  int_size big_shape = - 2 ^ 31 + 65536 ∧
  (big_shape.1 * big_shape.2) `mod` 2 ^ 31 = 65536 ∧
  int_size big_shape ≠ (big_shape.1 * big_shape.2) `mod` 2 ^ 31 ∧
  (∃ out O,
     add_dense (N:=Z_numeric) 1 2 1 big_store =
       Ok out (<[out := O]> big_store) ∧
     elem big_ones 0 0 = Some 1 ∧ elem O 0 0 = Some 1) ∧
  wf_dense big_ones ∧ wf_dense big_ones_f ∧
  INT_MAX < big_shape.1 * big_shape.2 ∧
  ∃ out O,
    add_dense (N:=Z_numeric) 1 2 1 big_mixed_store =
      Ok out (<[out := O]> big_mixed_store) ∧
    ∀ i j, 0 ≤ i < big_shape.1 → 0 ≤ j < big_shape.2 →
      elem big_ones i j = Some 1 ∧ elem big_ones_f i j = Some 1 ∧
      elem O i j = Some 2.
Proof.
  split; [by vm_compute|]. split; [by vm_compute|]. split; [by vm_compute|].
  split.
  { exists (fresh (dom big_store)), big_ones.
    split; [|split; apply big_ones_first].
    apply (add_dense_nonpositive_size (N:=Z_numeric) big_store 1 2 big_ones big_ones);
      [reflexivity|reflexivity|reflexivity|reflexivity|].
    unfold shape, Dense_Data, big_ones.
    cbn [dense.shape]. by vm_compute. }
  split; [apply big_ones_wf|]. split; [apply big_ones_f_wf|].
  split; [by vm_compute|].
  assert (big_mixed_store !! 1%positive = Some big_ones) as Hl by reflexivity.
  assert (big_mixed_store !! 2%positive = Some big_ones_f) as Hr by reflexivity.
  destruct (dense_sum_total big_ones big_ones_f 1 big_ones_wf big_ones_f_wf eq_refl)
    as (buf & Hbuf & _).
  exists (fresh (dom big_mixed_store)), (dense.with_data big_ones buf).
  split.
  { rewrite (add_dense_run big_mixed_store 1 2 big_ones big_ones_f 1 Hl Hr eq_refl).
    by rewrite Hbuf. }
  intros i j Hi Hj.
  assert (elem big_ones i j = Some 1) as H1
    by exact (elem_replicate (N:=Z_numeric) big_shape 1 false i j Hi Hj).
  assert (elem big_ones_f i j = Some 1) as H2
    by exact (elem_replicate (N:=Z_numeric) big_shape 1 true i j Hi Hj).
  split; [exact H1|]. split; [exact H2|].
  destruct (dense_sum_elem big_ones big_ones_f 1 i j big_ones_wf big_ones_f_wf eq_refl)
    as (buf' & lv & rv & Hb & _ & Hlv & Hrv & HO);
    [discriminate|exact Hi|exact Hj|].
  rewrite Hbuf in Hb. injection Hb as <-.
  rewrite H1 in Hlv. injection Hlv as <-.
  rewrite H2 in Hrv. injection Hrv as <-.
  exact HO.
Qed.

(** ** Buffers, the accumulator and the merge kernels *)

Section BufferFacts.
Context {A : Type}.
Implicit Types l buf xs : list A.

Lemma write_at_spec buf off xs :
  0 ≤ off → off + Z.of_nat (length xs) ≤ Z.of_nat (length buf) →
  csr.write_at buf off xs =
  Some (take (Z.to_nat off) buf ++ xs
        ++ drop (Z.to_nat off + length xs) buf).
Proof.
  revert buf off. induction xs as [|x xs IH]; intros buf off Hoff Hlen; simpl.
  - rewrite Nat.add_0_r, take_drop. done.
  - simpl in Hlen. rewrite set_idx_lt by lia. simpl.
    rewrite IH by (rewrite ?length_insert; lia).
    f_equal.
    replace (Z.to_nat (off + 1)) with (S (Z.to_nat off)) by lia.
    rewrite (take_S_r _ _ x) by (apply list_lookup_insert_eq; lia).
    rewrite take_insert_ge by lia.
    rewrite <- app_assoc. simpl. do 2 f_equal.
    rewrite drop_insert_lt by lia.
    do 2 f_equal. lia.
Qed.

Lemma segment_length l lo hi :
  0 ≤ lo ≤ hi → hi ≤ Z.of_nat (length l) →
  Z.of_nat (length (segment l lo hi)) = hi - lo.
Proof.
  intros Hlo Hhi. unfold segment. rewrite length_take, length_drop. lia.
Qed.

Lemma segment_empty l lo : segment l lo lo = [].
Proof. unfold segment. by rewrite Z.sub_diag. Qed.

(** A segment that ends at or before [off] ignores what is written from
    [off] on. *)
Lemma segment_write_below buf off xs lo hi :
  0 ≤ lo ≤ hi → hi ≤ off → off ≤ Z.of_nat (length buf) →
  segment (take (Z.to_nat off) buf ++ xs
           ++ drop (Z.to_nat off + length xs) buf) lo hi =
  segment buf lo hi.
Proof.
  intros Hlo Hhi Hoff. unfold segment.
  rewrite !take_drop_commute.
  rewrite take_app_le by (rewrite length_take; lia).
  rewrite take_take. do 2 f_equal. lia.
Qed.

(** The segment written is the list written. *)
Lemma segment_write_at buf off xs :
  0 ≤ off → off ≤ Z.of_nat (length buf) →
  segment (take (Z.to_nat off) buf ++ xs
           ++ drop (Z.to_nat off + length xs) buf)
          off (off + Z.of_nat (length xs)) = xs.
Proof.
  intros Hoff Hlen. unfold segment.
  rewrite drop_app_length'; [|rewrite length_take; lia].
  replace (Z.to_nat (off + Z.of_nat (length xs) - off)) with (length xs) by lia.
  by rewrite take_app_length.
Qed.

Lemma write_length buf off xs :
  0 ≤ off → off + Z.of_nat (length xs) ≤ Z.of_nat (length buf) →
  length (take (Z.to_nat off) buf ++ xs
          ++ drop (Z.to_nat off + length xs) buf) = length buf.
Proof.
  intros Hoff Hlen. rewrite !length_app, length_take, length_drop. lia.
Qed.

End BufferFacts.

Section AccFacts.
Context {N : Numeric}.

Lemma acc_alloc_ok ncols :
  0 ≤ ncols →
  ∃ acc, csr.acc_alloc ncols = Some acc ∧ acc_ok ncols acc ∧
         csr.touched acc = [] ∧
         ∀ col, 0 ≤ col < ncols → at_idx (csr.values acc) col = Some c0.
Proof.
  intros Hn. unfold csr.acc_alloc. rewrite decide_False by lia.
  eexists. split; [done|]. split; [|split; [done|]].
  - split_and!; simpl.
    + rewrite length_replicate. lia.
    + constructor.
    + constructor.
  - intros col Hcol. simpl. unfold at_idx. rewrite decide_True by lia.
    apply lookup_replicate_2. lia.
Qed.

Lemma acc_reset_ok ncols acc :
  acc_ok ncols acc →
  acc_ok ncols (csr.acc_reset acc) ∧ csr.touched (csr.acc_reset acc) = [] ∧
  ∀ col, 0 ≤ col < ncols →
    at_idx (csr.values (csr.acc_reset acc)) col = Some c0.
Proof.
  intros (Hlen & _ & _). split; [|split; [done|]].
  - split_and!; simpl.
    + by rewrite length_replicate.
    + constructor.
    + constructor.
  - intros col Hcol. simpl. unfold at_idx. rewrite decide_True by lia.
    apply lookup_replicate_2. lia.
Qed.

Lemma acc_scatter_ok ncols acc v col :
  acc_ok ncols acc → 0 ≤ col < ncols →
  ∃ acc', csr.acc_scatter acc v col = Some acc' ∧ acc_ok ncols acc' ∧
          (length (csr.touched acc') ≤ S (length (csr.touched acc)))%nat.
Proof.
  intros (Hlen & Hnd & Hin) Hcol. unfold csr.acc_scatter.
  destruct (at_idx_lt (csr.values acc) col) as [total Htot]; [lia|].
  rewrite Htot. simpl. rewrite set_idx_lt by lia. simpl.
  eexists. split; [done|]. simpl.
  destruct (decide (col ∈ csr.touched acc)) as [Hmem|Hmem].
  - split; [|lia]. split_and!; simpl; [|done..].
    by rewrite length_insert.
  - split; [|rewrite length_app; simpl; lia].
    split_and!; simpl.
    + by rewrite length_insert.
    + apply NoDup_app. split_and!; [done| |apply NoDup_singleton].
      intros x Hx ->%list_elem_of_singleton. done.
    + apply Forall_app. split; [done|]. by apply Forall_singleton.
Qed.

(** A sum that fits in a C int is what the kernels compute. *)
Lemma idx_sum x y : 0 ≤ x + y ≤ INT_MAX → c_int (x + y) = x + y.
Proof. intros Hs. apply c_int_id. unfold INT_MAX in *. lia. Qed.

Lemma col_or_sentinel_readable m ncols ptr ptr_max :
  0 ≤ ncols < INT_MAX →
  readable m ncols ptr ptr_max →
  ∃ col, col_or_sentinel m ptr ptr_max ncols = Some col ∧
         (if decide (ptr < ptr_max) then 0 ≤ col < ncols else col = ncols + 1).
Proof.
  intros Hn Hread. unfold col_or_sentinel.
  destruct (decide (ptr < ptr_max)) as [Hlt|Hge].
  - destruct (Hread ptr) as [(c & Hc & Hrange) _]; [lia|]. by exists c.
  - exists (ncols + 1). by rewrite idx_sum by lia.
Qed.

Lemma readable_tail m ncols lo hi :
  readable m ncols lo hi → readable m ncols (lo + 1) hi.
Proof. intros Hread p Hp. apply Hread. lia. Qed.

(** The loop over one row ends within its fuel and keeps the accumulator
    well formed; it touches at most one column per entry read. *)
Lemma merge_row_ok f a b ncols ptr_a_max ptr_b_max :
  0 ≤ ncols < INT_MAX → ptr_a_max ≤ INT_MAX → ptr_b_max ≤ INT_MAX →
  ∀ (fuel : nat) ptr_a col_a ptr_b col_b acc,
    readable a ncols ptr_a ptr_a_max →
    readable b ncols ptr_b ptr_b_max →
    col_or_sentinel a ptr_a ptr_a_max ncols = Some col_a →
    col_or_sentinel b ptr_b ptr_b_max ncols = Some col_b →
    acc_ok ncols acc →
    Z.max 0 (ptr_a_max - ptr_a) + Z.max 0 (ptr_b_max - ptr_b) ≤ Z.of_nat fuel →
    ∃ acc', merge_row fuel f a b ncols ptr_a ptr_a_max col_a
                      ptr_b ptr_b_max col_b acc = Some acc' ∧
            acc_ok ncols acc' ∧
            Z.of_nat (length (csr.touched acc')) ≤
              Z.of_nat (length (csr.touched acc))
              + Z.max 0 (ptr_a_max - ptr_a) + Z.max 0 (ptr_b_max - ptr_b).
Proof.
  intros Hn Hamax Hbmax.
  induction fuel as [|fuel IH];
    intros ptr_a col_a ptr_b col_b acc Ha Hb Hca Hcb Hacc Hfuel.
  - simpl. rewrite !bool_decide_eq_false_2 by lia. simpl.
    exists acc. split_and!; [done..|lia].
  - simpl.
    destruct (bool_decide (ptr_a < ptr_a_max) || bool_decide (ptr_b < ptr_b_max))
      eqn:Hcond; [|exists acc; split_and!; [done..|lia]].
    apply orb_true_iff in Hcond.
    rewrite !bool_decide_eq_true in Hcond.
    destruct (col_or_sentinel_readable a ncols ptr_a ptr_a_max Hn Ha)
      as (ca & Hca' & Hra).
    destruct (col_or_sentinel_readable b ncols ptr_b ptr_b_max Hn Hb)
      as (cb & Hcb' & Hrb).
    assert (ca = col_a) as -> by congruence.
    assert (cb = col_b) as -> by congruence.
    destruct (bool_decide (col_a < col_b)) eqn:Hlt.
    + apply bool_decide_eq_true in Hlt.
      assert (ptr_a < ptr_a_max) as Hpa.
      { destruct (decide (ptr_a < ptr_a_max)); [done|].
        destruct (decide (ptr_b < ptr_b_max)); lia. }
      rewrite decide_True in Hra by done.
      destruct (Ha ptr_a) as [_ [v Hv]]; [lia|].
      rewrite Hv. simpl.
      destruct (acc_scatter_ok ncols acc v col_a Hacc Hra)
        as (acc1 & Hsc & Hacc1 & Hlen1).
      rewrite Hsc. simpl.
      apply at_idx_Some in Hv as [Hpa0 _].
      rewrite (idx_sum ptr_a 1) by lia.
      pose proof (readable_tail _ _ _ _ Ha) as Ha'.
      destruct (col_or_sentinel_readable a ncols (ptr_a + 1) ptr_a_max Hn Ha')
        as (ca' & Hca'' & _).
      rewrite Hca''. simpl.
      destruct (IH (ptr_a + 1) ca' ptr_b col_b acc1) as (acc' & Hm & Hok & Hlen);
        try done; [lia|].
      exists acc'. split_and!; [done..|lia].
    + apply bool_decide_eq_false in Hlt.
      assert (ptr_b < ptr_b_max) as Hpb.
      { destruct (decide (ptr_b < ptr_b_max)); [done|].
        destruct (decide (ptr_a < ptr_a_max)); lia. }
      rewrite decide_True in Hrb by done.
      destruct (Hb ptr_b) as [_ [v Hv]]; [lia|].
      rewrite Hv. simpl.
      destruct (acc_scatter_ok ncols acc (f v) col_b Hacc Hrb)
        as (acc1 & Hsc & Hacc1 & Hlen1).
      rewrite Hsc. simpl.
      apply at_idx_Some in Hv as [Hpb0 _].
      rewrite (idx_sum ptr_b 1) by lia.
      pose proof (readable_tail _ _ _ _ Hb) as Hb'.
      destruct (col_or_sentinel_readable b ncols (ptr_b + 1) ptr_b_max Hn Hb')
        as (cb' & Hcb'' & _).
      rewrite Hcb''. simpl.
      destruct (IH ptr_a col_a (ptr_b + 1) cb' acc1) as (acc' & Hm & Hok & Hlen);
        try done; [lia|].
      exists acc'. split_and!; [done..|lia].
Qed.

End AccFacts.

Section GatherFacts.
Context {N : Numeric}.

Lemma kept_col acc tol col p : csr.kept acc tol col = Some p → p.1 = col.
Proof.
  unfold csr.kept. destruct (at_idx _ _) as [total|]; simpl; [|done].
  destruct (at_or_below total tol); [done|]. by intros [= <-].
Qed.

Lemma kept_elem acc tol (l : list Z) y :
  y ∈ (omap (csr.kept acc tol) l).*1 → y ∈ l.
Proof.
  induction l as [|x l IH]; simpl; [done|].
  destruct (csr.kept acc tol x) as [p|] eqn:Hp; simpl.
  - intros [->|Hy]%elem_of_cons.
    + rewrite (kept_col _ _ _ _ Hp). left.
    + right. by apply IH.
  - intros Hy. right. by apply IH.
Qed.

Lemma kept_sorted acc tol (P : Z → Prop) (l : list Z) :
  StronglySorted Z.le l → NoDup l → Forall P l →
  StronglySorted Z.lt (omap (csr.kept acc tol) l).*1 ∧
  Forall P (omap (csr.kept acc tol) l).*1 ∧
  (length (omap (csr.kept acc tol) l) ≤ length l)%nat.
Proof.
  induction l as [|x l IH]; intros Hs Hnd HP; simpl.
  - split_and!; [constructor|constructor|done].
  - apply StronglySorted_inv in Hs as [Hs Hx].
    apply NoDup_cons in Hnd as [Hxl Hnd].
    apply Forall_cons in HP as [HPx HP].
    destruct (IH Hs Hnd HP) as (IHs & IHP & IHlen).
    destruct (csr.kept acc tol x) as [p|] eqn:Hp; simpl.
    + rewrite (kept_col _ _ _ _ Hp). split_and!.
      * constructor; [done|].
        apply Forall_forall. intros y Hy%kept_elem.
        rewrite Forall_forall in Hx. specialize (Hx y Hy).
        assert (x ≠ y) as Hne by (by intros ->). clear -Hx Hne. lia.
      * by constructor.
      * apply le_n_S, IHlen.
    + split_and!; [done..|]. by apply Nat.le_le_succ_r.
Qed.

(** [gather] yields strictly increasing columns of the matrix, no more of
    them than were touched. *)
Lemma gathered_cols ncols acc tol :
  acc_ok ncols acc →
  sorted_cols ncols (csr.gathered acc tol).*1 ∧
  (length (csr.gathered acc tol) ≤ length (csr.touched acc))%nat.
Proof.
  intros (_ & Hnd & Hin). unfold csr.gathered, sorted_cols.
  pose proof (merge_sort_Permutation Z.le (csr.touched acc)) as Hperm.
  destruct (kept_sorted acc tol (λ c, 0 ≤ c < ncols)
              (merge_sort Z.le (csr.touched acc))) as (Hs & HP & Hlen).
  - apply StronglySorted_merge_sort; apply _.
  - by rewrite Hperm.
  - by rewrite Hperm.
  - rewrite (Permutation_length Hperm) in Hlen. done.
Qed.

Lemma acc_gather_spec ncols acc out_values out_columns off tol :
  acc_ok ncols acc → 0 ≤ off →
  off + Z.of_nat (length (csr.touched acc)) ≤ Z.of_nat (length out_values) →
  off + Z.of_nat (length (csr.touched acc)) ≤ Z.of_nat (length out_columns) →
  ∃ es,
    es = csr.gathered acc tol ∧
    csr.acc_gather acc out_values out_columns off tol =
      Some (take (Z.to_nat off) out_values ++ es.*2
              ++ drop (Z.to_nat off + length es.*2) out_values,
            take (Z.to_nat off) out_columns ++ es.*1
              ++ drop (Z.to_nat off + length es.*1) out_columns,
            Z.of_nat (length es)).
Proof.
  intros Hacc Hoff Hv Hc.
  destruct (gathered_cols ncols acc tol Hacc) as [_ Hlen].
  exists (csr.gathered acc tol). split; [done|].
  unfold csr.acc_gather.
  rewrite !write_at_spec by (rewrite ?length_fmap; lia).
  done.
Qed.

End GatherFacts.

Section ValidFacts.
Context {N : Numeric}.

Lemma valid_row_step (m : csr.CSR) r :
  valid_csr m → 0 ≤ r < (shape m).1 →
  ∃ lo hi, at_idx (csr.row_index m) r = Some lo ∧
           at_idx (csr.row_index m) (r + 1) = Some hi ∧ lo ≤ hi.
Proof.
  intros (_ & _ & _ & _ & _ & Hrows) Hr.
  destruct (Hrows r Hr) as (lo & hi & ? & ? & ? & _). by exists lo, hi.
Qed.

(** The row offsets are non-decreasing along the whole of [row_index]. *)
Lemma valid_row_index_mono (m : csr.CSR) (k : nat) i vi vj :
  valid_csr m → 0 ≤ i → i + Z.of_nat k ≤ (shape m).1 →
  at_idx (csr.row_index m) i = Some vi →
  at_idx (csr.row_index m) (i + Z.of_nat k) = Some vj →
  vi ≤ vj.
Proof.
  intros Hm Hi. revert vj.
  induction k as [|k IH]; intros vj Hk Hvi Hvj.
  - rewrite Z.add_0_r in Hvj. assert (vi = vj) by congruence. lia.
  - destruct (valid_row_step m (i + Z.of_nat k) Hm) as (lo & hi & Hlo & Hhi & Hle);
      [lia|].
    replace (i + Z.of_nat k + 1) with (i + Z.of_nat (S k)) in Hhi by lia.
    assert (hi = vj) as -> by congruence.
    assert (vi ≤ lo) by (apply IH; [lia|done..]). lia.
Qed.

Lemma valid_row_index_bounds (m : csr.CSR) r n :
  valid_csr m → csr.nnz m = Some n → 0 ≤ r ≤ (shape m).1 →
  ∃ v, at_idx (csr.row_index m) r = Some v ∧ 0 ≤ v ≤ n.
Proof.
  intros Hm Hn Hr.
  pose proof Hm as (Hrows & _ & Hlen & H0 & _ & _).
  destruct (at_idx_lt (csr.row_index m) r) as [v Hv]; [lia|].
  exists v. split; [done|]. split.
  - apply (valid_row_index_mono m (Z.to_nat r) 0 0 v); try done; try lia.
    by replace (0 + Z.of_nat (Z.to_nat r)) with r by lia.
  - unfold csr.nnz in Hn.
    apply (valid_row_index_mono m (Z.to_nat ((shape m).1 - r)) r v n);
      try done; try lia.
    by replace (r + Z.of_nat (Z.to_nat ((shape m).1 - r))) with (shape m).1 by lia.
Qed.

Lemma at_idx_segment {A} (l : list A) lo hi p :
  0 ≤ lo → lo ≤ p < hi →
  at_idx l p = segment l lo hi !! Z.to_nat (p - lo).
Proof.
  intros Hlo Hp. unfold at_idx, segment. rewrite decide_True by lia.
  rewrite lookup_take_lt by lia. rewrite lookup_drop. f_equal. lia.
Qed.

(** The entries of a row of a valid matrix can be read. *)
Lemma valid_row_readable (m : csr.CSR) r n :
  valid_csr m → csr.nnz m = Some n → 0 ≤ r < (shape m).1 →
  ∃ lo hi, at_idx (csr.row_index m) r = Some lo ∧
           at_idx (csr.row_index m) (r + 1) = Some hi ∧
           0 ≤ lo ≤ hi ∧ hi ≤ n ∧
           readable m (shape m).2 lo hi.
Proof.
  intros Hm Hn Hr.
  pose proof Hm as (_ & _ & _ & _ & (n' & Hn' & Hcap1 & Hcap2) & Hrows).
  assert (n' = n) as -> by congruence.
  destruct (Hrows r Hr) as (lo & hi & Hlo & Hhi & Hle & _ & Hin).
  destruct (valid_row_index_bounds m r n Hm Hn) as (lo' & Hlo' & Hlo0); [lia|].
  destruct (valid_row_index_bounds m (r + 1) n Hm Hn) as (hi' & Hhi' & Hhi0); [lia|].
  assert (lo' = lo) as -> by congruence.
  assert (hi' = hi) as -> by congruence.
  exists lo, hi. split_and!; try done; try lia.
  intros p Hp. split.
  - destruct (at_idx_lt (csr.col_index m) p) as [c Hc]; [lia|].
    exists c. split; [done|].
    rewrite (at_idx_segment _ lo hi) in Hc by lia.
    rewrite Forall_forall in Hin. apply Hin.
    by apply list_elem_of_lookup_2 in Hc.
  - apply at_idx_lt. lia.
Qed.

End ValidFacts.

(** ** The entries of a row and what the accumulator holds for them *)

Section EntryFacts.
Context {N : Numeric}.
Implicit Types es : list (Z * cplx).

Lemma assoc_None col es : (∀ e, e ∈ es → e.1 ≠ col) → assoc col es = None.
Proof.
  induction es as [|[c v] es IH]; intros Hne; simpl; [done|].
  rewrite decide_False.
  - apply IH. intros e He. apply Hne. by right.
  - apply (Hne (c, v)). by left.
Qed.

Lemma assoc_snoc col es c v :
  assoc col (es ++ [(c, v)]) =
  match assoc col es with
  | Some x => Some x
  | None => if decide (c = col) then Some v else None
  end.
Proof.
  induction es as [|[c' v'] es IH]; simpl; [done|].
  by destruct (decide (c' = col)).
Qed.

Lemma assoc_fmap_value (g : cplx → cplx) col es :
  assoc col (prod_map id g <$> es) = g <$> assoc col es.
Proof.
  induction es as [|[c v] es IH]; simpl; [done|].
  by destruct (decide (c = col)).
Qed.

(** Before position [k] of strictly increasing columns, every column is
    below the one at [k]. *)
Lemma sorted_take_lt es k e :
  StronglySorted Z.lt es.*1 → es !! k = Some e →
  ∀ e', e' ∈ take k es → e'.1 < e.1.
Proof.
  revert k. induction es as [|e0 es IH]; intros k Hs Hk e' He'; [done|].
  destruct k as [|k]; simpl in *; [by apply elem_of_nil in He'|].
  apply StronglySorted_inv in Hs as [Hs Hall].
  apply elem_of_cons in He' as [->|He'].
  - rewrite Forall_forall in Hall. apply Hall.
    apply list_elem_of_fmap. exists e. split; [done|].
    by apply list_elem_of_lookup_2 in Hk.
  - by apply (IH k).
Qed.

Lemma entries_length (m : csr.CSR) lo hi :
  0 ≤ lo ≤ hi →
  hi ≤ Z.of_nat (length (csr.col_index m)) →
  hi ≤ Z.of_nat (length (csr.data m)) →
  Z.of_nat (length (entries m lo hi)) = hi - lo.
Proof.
  intros Hlo Hc Hd. unfold entries.
  rewrite length_zip_with.
  pose proof (segment_length (csr.col_index m) lo hi Hlo Hc).
  pose proof (segment_length (csr.data m) lo hi Hlo Hd). lia.
Qed.

Lemma entries_fst (m : csr.CSR) lo hi :
  0 ≤ lo ≤ hi →
  hi ≤ Z.of_nat (length (csr.col_index m)) →
  hi ≤ Z.of_nat (length (csr.data m)) →
  (entries m lo hi).*1 = segment (csr.col_index m) lo hi.
Proof.
  intros Hlo Hc Hd. unfold entries. apply fst_zip.
  pose proof (segment_length (csr.col_index m) lo hi Hlo Hc).
  pose proof (segment_length (csr.data m) lo hi Hlo Hd). lia.
Qed.

(** The entry at offset [p] of the buffers is the entry at [p - lo] of the
    row that starts at [lo]. *)
Lemma entries_lookup (m : csr.CSR) lo hi p c v :
  0 ≤ lo → lo ≤ p < hi →
  at_idx (csr.col_index m) p = Some c → at_idx (csr.data m) p = Some v →
  entries m lo hi !! Z.to_nat (p - lo) = Some (c, v).
Proof.
  intros Hlo Hp Hc Hv. unfold entries.
  rewrite (at_idx_segment _ lo hi) in Hc by lia.
  rewrite (at_idx_segment _ lo hi) in Hv by lia.
  apply lookup_zip_with_Some. by exists c, v.
Qed.

End EntryFacts.

Section RowCursor.
Context {N : Numeric}.
Variables (m : csr.CSR) (ncols lo hi : Z).
Hypothesis Hlo : 0 ≤ lo ≤ hi.
Hypothesis Hcap_c : hi ≤ Z.of_nat (length (csr.col_index m)).
Hypothesis Hcap_d : hi ≤ Z.of_nat (length (csr.data m)).
Hypothesis Hsorted : sorted_cols ncols (segment (csr.col_index m) lo hi).
Hypothesis Hncols : 0 ≤ ncols < INT_MAX.

Lemma row_cols_range e : e ∈ entries m lo hi → 0 ≤ e.1 < ncols.
Proof.
  intros He. destruct Hsorted as [_ Hin]. rewrite Forall_forall in Hin.
  apply Hin. rewrite <- entries_fst by done.
  apply list_elem_of_fmap. by exists e.
Qed.

(** The column under the cursor: that of the entry at [ptr], which is
    above every column before it, or the sentinel past the end. *)
Lemma cursor_col ptr col :
  lo ≤ ptr ≤ hi → col_or_sentinel m ptr hi ncols = Some col →
  (∀ e, e ∈ take (Z.to_nat (ptr - lo)) (entries m lo hi) → e.1 < col) ∧
  if decide (ptr < hi) then
    0 ≤ col < ncols ∧
    ∃ v, at_idx (csr.data m) ptr = Some v ∧
         entries m lo hi !! Z.to_nat (ptr - lo) = Some (col, v)
  else col = ncols + 1.
Proof.
  intros Hptr Hcol. unfold col_or_sentinel in Hcol.
  destruct (decide (ptr < hi)) as [Hlt|Hge].
  - destruct (at_idx_lt (csr.data m) ptr) as [v Hv]; [lia|].
    pose proof (entries_lookup m lo hi ptr col v) as Hlook.
    specialize (Hlook ltac:(lia) ltac:(lia) Hcol Hv).
    split; [|split].
    + intros e He.
      change col with (col, v).1.
      apply (sorted_take_lt (entries m lo hi) (Z.to_nat (ptr - lo))); try done.
      rewrite entries_fst by done. exact (proj1 Hsorted).
    + apply (row_cols_range (col, v)). by apply list_elem_of_lookup_2 in Hlook.
    + by exists v.
  - rewrite idx_sum in Hcol by lia. injection Hcol as <-. split; [|done].
    intros e He%subseteq_take. apply row_cols_range in He. lia.
Qed.

Lemma row_take_all ptr :
  ¬ ptr < hi → lo ≤ ptr ≤ hi →
  take (Z.to_nat (ptr - lo)) (entries m lo hi) = entries m lo hi.
Proof.
  intros Hge Hptr. apply take_ge.
  pose proof (entries_length m lo hi Hlo Hcap_c Hcap_d). lia.
Qed.

Lemma row_take_next ptr col v :
  lo ≤ ptr < hi →
  entries m lo hi !! Z.to_nat (ptr - lo) = Some (col, v) →
  take (Z.to_nat (ptr + 1 - lo)) (entries m lo hi) =
  take (Z.to_nat (ptr - lo)) (entries m lo hi) ++ [(col, v)].
Proof.
  intros Hptr Hlook.
  replace (Z.to_nat (ptr + 1 - lo)) with (S (Z.to_nat (ptr - lo))) by lia.
  by apply take_S_r.
Qed.

End RowCursor.

Section RowValues.
Context {N : Numeric}.

Lemma acc_scatter_inv acc v col acc1 :
  csr.acc_scatter acc v col = Some acc1 →
  ∃ total,
    at_idx (csr.values acc) col = Some total ∧
    0 ≤ col < Z.of_nat (length (csr.values acc)) ∧
    csr.values acc1 = <[Z.to_nat col := cadd total v]> (csr.values acc) ∧
    ∀ x, x ∈ csr.touched acc1 ↔ x ∈ csr.touched acc ∨ x = col.
Proof.
  unfold csr.acc_scatter. intros Hsc.
  destruct (at_idx (csr.values acc) col) as [total|] eqn:Htot; [|done].
  simpl in Hsc.
  destruct (set_idx _ _ _) as [buf|] eqn:Hbuf; [|done].
  apply set_idx_Some in Hbuf as [Hcol ->].
  injection Hsc as <-. exists total. simpl. split_and!; [done|lia|lia|done|].
  intros x. destruct (decide (col ∈ csr.touched acc)) as [Hin|Hnin].
  - split; [by left|]. by intros [?| ->].
  - rewrite elem_of_app, list_elem_of_singleton. done.
Qed.

Variables (f : cplx → cplx) (a b : csr.CSR) (ncols : Z).
Variables (lo_a hi_a lo_b hi_b : Z).
Hypothesis Ha_lo : 0 ≤ lo_a ≤ hi_a.
Hypothesis Ha_c : hi_a ≤ Z.of_nat (length (csr.col_index a)).
Hypothesis Ha_d : hi_a ≤ Z.of_nat (length (csr.data a)).
Hypothesis Ha_s : sorted_cols ncols (segment (csr.col_index a) lo_a hi_a).
Hypothesis Hb_lo : 0 ≤ lo_b ≤ hi_b.
Hypothesis Hb_c : hi_b ≤ Z.of_nat (length (csr.col_index b)).
Hypothesis Hb_d : hi_b ≤ Z.of_nat (length (csr.data b)).
Hypothesis Hb_s : sorted_cols ncols (segment (csr.col_index b) lo_b hi_b).
Hypothesis Hncols : 0 ≤ ncols < INT_MAX.
Hypothesis Ha_max : hi_a ≤ INT_MAX.
Hypothesis Hb_max : hi_b ≤ INT_MAX.

Lemma merge_row_values (fuel : nat) :
  ∀ ptr_a col_a ptr_b col_b acc acc',
    lo_a ≤ ptr_a ≤ hi_a → lo_b ≤ ptr_b ≤ hi_b →
    col_or_sentinel a ptr_a hi_a ncols = Some col_a →
    col_or_sentinel b ptr_b hi_b ncols = Some col_b →
    row_state f a b ncols lo_a hi_a lo_b hi_b ptr_a ptr_b col_b acc →
    merge_row fuel f a b ncols ptr_a hi_a col_a ptr_b hi_b col_b acc
      = Some acc' →
    (∀ col, 0 ≤ col < ncols →
       at_idx (csr.values acc') col =
       Some (row_total f (entries a lo_a hi_a) (entries b lo_b hi_b) col)) ∧
    (∀ col, 0 ≤ col < ncols → col ∉ csr.touched acc' →
       at_idx (csr.values acc') col = Some c0).
Proof.
  induction fuel as [|fuel IH];
    intros ptr_a col_a ptr_b col_b acc acc' Hpa Hpb Hca Hcb Hst Hrun.
  - simpl in Hrun.
    destruct (bool_decide (ptr_a < hi_a) || bool_decide (ptr_b < hi_b))
      eqn:Hcond; [done|].
    apply orb_false_iff in Hcond as [Hna%bool_decide_eq_false Hnb%bool_decide_eq_false].
    injection Hrun as <-.
    destruct Hst as (_ & Hval & Hzero & _).
    rewrite (row_take_all a lo_a hi_a) in Hval by done.
    rewrite (row_take_all b lo_b hi_b) in Hval by done.
    done.
  - simpl in Hrun.
    destruct (bool_decide (ptr_a < hi_a) || bool_decide (ptr_b < hi_b))
      eqn:Hcond.
    2:{ apply orb_false_iff in Hcond
          as [Hna%bool_decide_eq_false Hnb%bool_decide_eq_false].
        injection Hrun as <-.
        destruct Hst as (_ & Hval & Hzero & _).
        rewrite (row_take_all a lo_a hi_a) in Hval by done.
        rewrite (row_take_all b lo_b hi_b) in Hval by done.
        done. }
    apply orb_true_iff in Hcond. rewrite !bool_decide_eq_true in Hcond.
    destruct (cursor_col a ncols lo_a hi_a Ha_lo Ha_c Ha_d Ha_s Hncols
                ptr_a col_a Hpa Hca) as [Hbefore_a Hcur_a].
    destruct (cursor_col b ncols lo_b hi_b Hb_lo Hb_c Hb_d Hb_s Hncols
                ptr_b col_b Hpb Hcb) as [Hbefore_b Hcur_b].
    destruct Hst as (Hlen & Hval & Hzero & Hbelow).
    destruct (bool_decide (col_a < col_b)) eqn:Hlt.
    + apply bool_decide_eq_true in Hlt.
      assert (ptr_a < hi_a) as Hin.
      { destruct (decide (ptr_a < hi_a)); [done|].
        destruct (decide (ptr_b < hi_b)); lia. }
      rewrite decide_True in Hcur_a by done.
      destruct Hcur_a as (Hrange & v & Hv & Hlook).
      rewrite Hv in Hrun. simpl in Hrun.
      destruct (csr.acc_scatter acc v col_a) as [acc1|] eqn:Hsc; [|done].
      simpl in Hrun.
      rewrite (idx_sum ptr_a 1) in Hrun by lia.
      destruct (col_or_sentinel a (ptr_a + 1) hi_a ncols) as [col_a'|] eqn:Hca';
        [|done].
      simpl in Hrun.
      apply acc_scatter_inv in Hsc as (total & Htot & Hcol & Hvals & Htouch).
      apply (IH (ptr_a + 1) col_a' ptr_b col_b acc1 acc'); try done; [lia|].
      unfold row_state.
      rewrite (row_take_next a lo_a hi_a ptr_a col_a v) by (done || lia).
      rewrite Hvals. split_and!.
      * by rewrite length_insert.
      * intros col Hc. rewrite at_idx_insert by lia.
        destruct (decide (col = col_a)) as [->|Hne].
        -- pose proof (Hval col_a Hc) as Hv0. rewrite Htot in Hv0.
           injection Hv0 as ->. f_equal.
           unfold row_total. rewrite assoc_snoc.
           rewrite (assoc_None col_a (take _ (entries a _ _))).
           ++ by rewrite decide_True.
           ++ intros e He. specialize (Hbefore_a e He). lia.
        -- rewrite Hval by done. f_equal.
           unfold row_total. rewrite assoc_snoc.
           destruct (assoc col (take _ (entries a _ _))); [done|].
           by rewrite decide_False.
      * intros col Hc Hnt. rewrite at_idx_insert by lia.
        rewrite decide_False.
        -- apply Hzero; [done|]. intros Hin'. apply Hnt, Htouch. by left.
        -- intros ->. apply Hnt, Htouch. by right.
      * intros e [He| ->%list_elem_of_singleton]%elem_of_app; [by apply Hbelow|].
        done.
    + apply bool_decide_eq_false in Hlt.
      assert (ptr_b < hi_b) as Hin.
      { destruct (decide (ptr_b < hi_b)); [done|].
        destruct (decide (ptr_a < hi_a)); lia. }
      rewrite decide_True in Hcur_b by done.
      destruct Hcur_b as (Hrange & v & Hv & Hlook).
      rewrite Hv in Hrun. simpl in Hrun.
      destruct (csr.acc_scatter acc (f v) col_b) as [acc1|] eqn:Hsc; [|done].
      simpl in Hrun.
      rewrite (idx_sum ptr_b 1) in Hrun by lia.
      destruct (col_or_sentinel b (ptr_b + 1) hi_b ncols) as [col_b'|] eqn:Hcb';
        [|done].
      simpl in Hrun.
      apply acc_scatter_inv in Hsc as (total & Htot & Hcol & Hvals & Htouch).
      destruct (cursor_col b ncols lo_b hi_b Hb_lo Hb_c Hb_d Hb_s Hncols
                  (ptr_b + 1) col_b' ltac:(lia) Hcb') as [Hbefore_b' _].
      assert (col_b < col_b') as Hup.
      { apply (Hbefore_b' (col_b, v)).
        rewrite (row_take_next b lo_b hi_b ptr_b col_b v) by (done || lia).
        apply elem_of_app. right. by apply list_elem_of_singleton. }
      apply (IH ptr_a col_a (ptr_b + 1) col_b' acc1 acc'); try done; [lia|].
      unfold row_state.
      rewrite (row_take_next b lo_b hi_b ptr_b col_b v) by (done || lia).
      rewrite Hvals. split_and!.
      * by rewrite length_insert.
      * intros col Hc. rewrite at_idx_insert by lia.
        destruct (decide (col = col_b)) as [->|Hne].
        -- pose proof (Hval col_b Hc) as Hv0. rewrite Htot in Hv0.
           injection Hv0 as ->. f_equal.
           unfold row_total. rewrite assoc_snoc.
           rewrite (assoc_None col_b (take _ (entries b _ _))).
           ++ rewrite (assoc_None col_b (take _ (entries a _ _))).
              ** by rewrite decide_True.
              ** intros e He. specialize (Hbelow e He). lia.
           ++ intros e He. specialize (Hbefore_b e He). lia.
        -- rewrite Hval by done. f_equal.
           unfold row_total. rewrite assoc_snoc.
           destruct (assoc col (take _ (entries b _ _))); [done|].
           by rewrite decide_False.
      * intros col Hc Hnt. rewrite at_idx_insert by lia.
        rewrite decide_False.
        -- apply Hzero; [done|]. intros Hin'. apply Hnt, Htouch. by left.
        -- intros ->. apply Hnt, Htouch. by right.
      * intros e He. specialize (Hbelow e He). lia.
Qed.

End RowValues.

Section GatherValues.
Context {N : Numeric}.

Lemma kept_assoc acc tol col (l : list Z) :
  assoc col (omap (csr.kept acc tol) l) =
  if decide (col ∈ l) then snd <$> csr.kept acc tol col else None.
Proof.
  induction l as [|x l IH].
  - by destruct (decide (col ∈ [])) as [?%elem_of_nil|].
  - change (omap (csr.kept acc tol) (x :: l))
      with (match csr.kept acc tol x with
            | Some y => y :: omap (csr.kept acc tol) l
            | None => omap (csr.kept acc tol) l
            end).
    destruct (csr.kept acc tol x) as [[c v]|] eqn:Hk; simpl.
    + pose proof (kept_col _ _ _ _ Hk) as Hc. simpl in Hc. subst c.
      change (assoc col ((x, v) :: omap (csr.kept acc tol) l))
        with (if decide (x = col) then Some v
              else assoc col (omap (csr.kept acc tol) l)).
      destruct (decide (x = col)) as [->|Hne].
      * rewrite decide_True by left. by rewrite Hk.
      * rewrite IH. destruct (decide (col ∈ l)) as [Hin|Hnin].
        -- rewrite decide_True; [done|]. by right.
        -- rewrite decide_False; [done|].
           intros [->|?]%elem_of_cons; done.
    + rewrite IH. destruct (decide (col ∈ l)) as [Hin|Hnin].
      * rewrite decide_True; [done|]. by right.
      * destruct (decide (col ∈ x :: l)) as [[->|?]%elem_of_cons|]; try done.
        by rewrite Hk.
Qed.

(** With a tolerance that drops only zeros, the gathered entries expand
    to the accumulator's totals. *)
Lemma gathered_dense acc tol col total :
  drops_only_zero tol →
  at_idx (csr.values acc) col = Some total →
  (col ∉ csr.touched acc → total = c0) →
  default c0 (assoc col (csr.gathered acc tol)) = total.
Proof.
  intros Htol Htot Hzero. unfold csr.gathered. rewrite kept_assoc.
  destruct (decide (col ∈ merge_sort Z.le (csr.touched acc))) as [Hin|Hnin].
  - unfold csr.kept. rewrite Htot. simpl.
    destruct (at_or_below total tol) eqn:Hb; simpl; [|done].
    symmetry. by apply Htol.
  - simpl. symmetry. apply Hzero. intros Hin. apply Hnin.
    by rewrite merge_sort_Permutation.
Qed.

End GatherValues.

Section MergeFacts.
Context {N : Numeric}.

Lemma valid_nnz_cap (m : csr.CSR) n :
  valid_csr m → csr.nnz m = Some n →
  0 ≤ n ∧ n ≤ Z.of_nat (length (csr.col_index m)) ∧
  n ≤ Z.of_nat (length (csr.data m)).
Proof.
  intros Hm Hn.
  pose proof Hm as (? & _ & _ & _ & (n' & Hn' & ? & ?) & _).
  assert (n' = n) as -> by congruence.
  destruct (valid_row_index_bounds m (shape m).1 n Hm Hn) as (v & Hv & ?); [lia|].
  unfold csr.nnz, shape, CSR_Data in *. assert (v = n) by congruence. lia.
Qed.

(** One turn of the loop over the rows keeps the invariant. *)
Lemma merge_step_inv f tol (a b : csr.CSR) cap row st na nb :
  valid_csr a → valid_csr b → shape a = shape b →
  csr.nnz a = Some na → csr.nnz b = Some nb → na + nb ≤ cap →
  (shape a).1 ≤ INT_MAX → (shape a).2 < INT_MAX → na + nb ≤ INT_MAX →
  0 ≤ row < (shape a).1 → merge_inv a b cap row st →
  ∃ st', merge_step f tol a b (shape a).2 row st = Some st' ∧
         merge_inv a b cap (row + 1) st' ∧
         (∀ r, 0 ≤ r < row →
            row_entries (st_c st') r = row_entries (st_c st) r) ∧
         (drops_only_zero tol →
          ∀ col, 0 ≤ col < (shape a).2 →
            to_dense (st_c st') row col =
            row_total f (row_entries a row) (row_entries b row) col).
Proof.
  intros Ha Hb Hs Hna Hnb Hcap Hrmax Hcmax Hnmax Hrow Hinv.
  destruct Hinv as (Hacc & Htouch & Hzeros & Hpa & Hpb & Hnnz & Hshape & Hlri
                    & Hlci & Hld & Hri0 & Hrirow & Hvalid & Hbound).
  destruct (valid_row_readable a row na Ha Hna Hrow)
    as (lo_a & hi_a & Hlo_a & Hhi_a & Hord_a & Hhi_na & Hread_a).
  destruct (valid_row_readable b row nb Hb Hnb)
    as (lo_b & hi_b & Hlo_b & Hhi_b & Hord_b & Hhi_nb & Hread_b);
    [by rewrite <- Hs|].
  rewrite <- Hs in Hread_b.
  assert (lo_a = st_ptr_a_max st) as -> by congruence.
  assert (lo_b = st_ptr_b_max st) as -> by congruence.
  destruct (valid_nnz_cap a na Ha Hna) as (_ & _ & Hda).
  destruct (valid_nnz_cap b nb Hb Hnb) as (_ & _ & Hdb).
  pose proof Ha as (_ & Hcols & _).
  assert (0 ≤ (shape a).2 < INT_MAX) as Hn by lia.
  assert (hi_a ≤ INT_MAX) as Hamax by lia.
  assert (hi_b ≤ INT_MAX) as Hbmax by lia.
  unfold merge_step. rewrite (idx_sum row 1) by lia.
  rewrite Hhi_a, Hhi_b. simpl.
  destruct (col_or_sentinel_readable a _ _ _ Hn Hread_a) as (col_a & Hca & _).
  destruct (col_or_sentinel_readable b _ _ _ Hn Hread_b) as (col_b & Hcb & _).
  rewrite Hca, Hcb. simpl.
  destruct (merge_row_ok f a b (shape a).2 hi_a hi_b Hn Hamax Hbmax
              (length (csr.data a) + length (csr.data b))%nat
              (st_ptr_a_max st) col_a (st_ptr_b_max st) col_b (st_acc st))
    as (acc1 & Hm & Hacc1 & Hlen1); try done; [lia|].
  rewrite Hm. simpl. rewrite Htouch in Hlen1. simpl in Hlen1.
  destruct (acc_gather_spec (shape a).2 acc1 (csr.data (st_c st))
              (csr.col_index (st_c st)) (st_nnz st) tol)
    as (es & Hes & Hg); try done; try lia.
  rewrite Hg. simpl.
  destruct (gathered_cols (shape a).2 acc1 tol Hacc1) as [Hsorted Hlen_es].
  rewrite <- Hes in Hsorted, Hlen_es.
  rewrite (idx_sum (st_nnz st)) by lia.
  rewrite set_idx_lt by lia. simpl.
  eexists. split; [done|].
  destruct (acc_reset_ok _ _ Hacc1) as (Hreset & Hreset_t & Hreset_z).
  assert (∀ r, r ≠ row + 1 → 0 ≤ r →
            at_idx (<[Z.to_nat (row + 1) := st_nnz st + Z.of_nat (length es)]>
                      (csr.row_index (st_c st))) r =
            at_idx (csr.row_index (st_c st)) r) as Hother.
  { intros r Hne Hr. rewrite at_idx_insert by lia. by rewrite decide_False. }
  assert (at_idx (<[Z.to_nat (row + 1) := st_nnz st + Z.of_nat (length es)]>
                    (csr.row_index (st_c st))) (row + 1) =
          Some (st_nnz st + Z.of_nat (length es))) as Hnew.
  { rewrite at_idx_insert by lia. by rewrite decide_True. }
  assert (Z.of_nat (length es) = Z.of_nat (length es.*1)) as Hlen_c
    by by rewrite length_fmap.
  assert (Z.of_nat (length es) = Z.of_nat (length es.*2)) as Hlen_d
    by by rewrite length_fmap.
  split; [|split].
  - unfold merge_inv. simpl. split_and!; try done; try lia.
    + by rewrite length_insert.
    + rewrite write_length; lia.
    + rewrite write_length; lia.
    + by rewrite Hother by lia.
    + intros r Hr. destruct (decide (r = row)) as [->|Hne].
      * exists (st_nnz st), (st_nnz st + Z.of_nat (length es)).
        rewrite Hother by lia. split_and!; [done|done|lia|].
        unfold shape, CSR_Data in *. simpl. rewrite Hshape.
        rewrite Hlen_c. rewrite segment_write_at by lia. done.
      * destruct (Hvalid r) as (lo & hi & Hlo & Hhi & Hle & Hsc); [lia|].
        exists lo, hi. rewrite !Hother by lia. split_and!; [done..|].
        unfold shape, CSR_Data in *. simpl.
        assert (0 ≤ hi ≤ st_nnz st) by (apply (Hbound (r + 1)); [lia|done]).
        assert (0 ≤ lo ≤ st_nnz st) by (apply (Hbound r); [lia|done]).
        rewrite segment_write_below by lia. done.
    + intros r v Hr Hv. destruct (decide (r = row + 1)) as [->|Hne].
      * rewrite Hnew in Hv. injection Hv as <-. lia.
      * rewrite Hother in Hv by lia.
        assert (0 ≤ v ≤ st_nnz st) by (apply (Hbound r); [lia|done]). lia.
  - intros r Hr. unfold row_entries. simpl. rewrite !Hother by lia.
    destruct (Hvalid r) as (lo & hi & Hlo & Hhi & Hle & _); [lia|].
    rewrite Hlo, Hhi.
    assert (0 ≤ hi ≤ st_nnz st) by (apply (Hbound (r + 1)); [lia|done]).
    assert (0 ≤ lo ≤ st_nnz st) by (apply (Hbound r); [lia|done]).
    unfold entries. simpl. by rewrite !segment_write_below by lia.
  - intros Htol col Hcol. unfold to_dense, row_entries. simpl.
    rewrite Hother by lia. rewrite Hrirow, Hnew.
    unfold entries. simpl.
    rewrite Hlen_c at 1. rewrite segment_write_at by lia.
    rewrite Hlen_d. rewrite segment_write_at by lia.
    rewrite zip_fst_snd. rewrite Hpa, Hhi_a, Hpb, Hhi_b.
    pose proof Ha as (_ & _ & _ & _ & _ & Hrows_a).
    pose proof Hb as (_ & _ & _ & _ & _ & Hrows_b).
    destruct (Hrows_a row Hrow) as (la & ha & Hla & Hha & _ & Hsa).
    destruct (Hrows_b row) as (lb & hb & Hlb & Hhb & _ & Hsb);
      [by rewrite <- Hs|].
    rewrite <- Hs in Hsb.
    assert (la = st_ptr_a_max st) as -> by congruence.
    assert (ha = hi_a) as -> by congruence.
    assert (lb = st_ptr_b_max st) as -> by congruence.
    assert (hb = hi_b) as -> by congruence.
    destruct (valid_nnz_cap a na Ha Hna) as (_ & Hca_cap & _).
    destruct (valid_nnz_cap b nb Hb Hnb) as (_ & Hcb_cap & _).
    pose proof (merge_row_values f a b (shape a).2
                  (st_ptr_a_max st) hi_a (st_ptr_b_max st) hi_b) as Hmv.
    specialize (Hmv ltac:(lia) ltac:(lia) ltac:(lia) Hsa
                    ltac:(lia) ltac:(lia) ltac:(lia) Hsb Hn Hamax Hbmax).
    specialize (Hmv (length (csr.data a) + length (csr.data b))%nat
                    (st_ptr_a_max st) col_a (st_ptr_b_max st) col_b
                    (st_acc st) acc1 ltac:(lia) ltac:(lia) Hca Hcb).
    destruct Hmv as [Hvals Hzero]; [|exact Hm|].
    { unfold row_state. rewrite !Z.sub_diag. simpl.
      destruct Hacc as (Hlen_v & _ & _).
      split_and!; [done| |by intros; apply Hzeros|by intros e ?%elem_of_nil].
      intros c Hc. by rewrite Hzeros. }
    rewrite Hes. apply gathered_dense; [done|by apply Hvals|].
    intros Hnt. specialize (Hvals col Hcol). specialize (Hzero col Hcol Hnt).
    unfold entries in Hvals. congruence.
Qed.

End MergeFacts.

Section KernelFacts.
Context {N : Numeric}.

Lemma to_dense_entries (c c' : csr.CSR) r col :
  row_entries c' r = row_entries c r → to_dense c' r col = to_dense c r col.
Proof. unfold to_dense. by intros ->. Qed.

Lemma merge_rows_inv f tol (a b : csr.CSR) cap na nb :
  valid_csr a → valid_csr b → shape a = shape b →
  csr.nnz a = Some na → csr.nnz b = Some nb → na + nb ≤ cap →
  fits_idxint a na nb →
  ∀ (n : nat) row st,
    0 ≤ row → row + Z.of_nat n ≤ (shape a).1 → merge_inv a b cap row st →
    ∃ st', merge_rows n f tol a b (shape a).2 row st = Some st' ∧
           merge_inv a b cap (row + Z.of_nat n) st' ∧
           (∀ r, 0 ≤ r < row →
              row_entries (st_c st') r = row_entries (st_c st) r) ∧
           (drops_only_zero tol →
            ∀ r col, row ≤ r < row + Z.of_nat n → 0 ≤ col < (shape a).2 →
              to_dense (st_c st') r col =
              row_total f (row_entries a r) (row_entries b r) col).
Proof.
  intros Ha Hb Hs Hna Hnb Hcap (Hrmax & Hcmax & Hnmax).
  induction n as [|n IH]; intros row st Hrow Hn Hinv; simpl.
  - exists st. rewrite Z.add_0_r. split_and!; [done..|]. intros _ r col Hr. lia.
  - destruct (merge_step_inv f tol a b cap row st na nb)
      as (st1 & Hst1 & Hinv1 & Hkeep1 & Hdense1); try done; [lia..|].
    rewrite Hst1. simpl.
    destruct (IH (row + 1) st1) as (st' & Hst' & Hinv' & Hkeep' & Hdense');
      [lia|lia|done|].
    exists st'. split_and!; [done| | |].
    + by replace (row + Z.of_nat (S n)) with (row + 1 + Z.of_nat n) by lia.
    + intros r Hr. rewrite Hkeep' by lia. by apply Hkeep1.
    + intros Htol r col Hr Hcol. destruct (decide (r = row)) as [->|Hne].
      * rewrite (to_dense_entries st1.(st_c)) by (apply Hkeep'; lia).
        by apply Hdense1.
      * apply Hdense'; [done|lia|done].
Qed.

(** After the last row the output is a valid CSR matrix. *)
Lemma merge_inv_final (a b : csr.CSR) cap st na nb :
  valid_csr a → csr.nnz a = Some na → csr.nnz b = Some nb → 
  valid_csr b → shape a = shape b → na + nb ≤ cap →
  merge_inv a b cap (shape a).1 st →
  valid_csr (st_c st) ∧ csr.nnz (st_c st) = Some (st_nnz st) ∧
  shape (st_c st) = shape a.
Proof.
  intros Ha Hna Hnb Hb Hs Hcap Hinv.
  destruct Hinv as (Hacc & Htouch & Hzeros & Hpa & Hpb & Hnnz & Hshape & Hlri
                    & Hlci & Hld & Hri0 & Hrirow & Hvalid & Hbound).
  pose proof Ha as (Hrows & Hcols & _).
  unfold csr.nnz, valid_csr, shape, CSR_Data in *. rewrite <- Hs in Hnb.
  assert (st_ptr_a_max st = na) by congruence.
  assert (st_ptr_b_max st = nb) by congruence.
  assert (at_idx (csr.row_index (st_c st)) (csr.shape (st_c st)).1
          = Some (st_nnz st)) as Hn by (by rewrite Hshape).
  split; [|by split].
  rewrite Hshape. split_and!; try done.
  exists (st_nnz st). split_and!; [done|lia..].
Qed.

(** Both merge kernels return a valid CSR matrix of the inputs' shape,
    whatever the tolerance; with a tolerance that drops only zeros, its
    dense expansion holds the accumulated totals of every row. *)
Lemma merge_kernel_valid f cfg u acc (a b c : csr.CSR) na nb :
  valid_csr a → valid_csr b → shape a = shape b →
  csr.nnz a = Some na → csr.nnz b = Some nb →
  acc_ok (shape a).2 acc → csr.touched acc = [] →
  (∀ col, 0 ≤ col < (shape a).2 → at_idx (csr.values acc) col = Some c0) →
  shape c = shape a →
  Z.of_nat (length (csr.row_index c)) = (shape a).1 + 1 →
  length (csr.col_index c) = length (csr.data c) →
  na + nb ≤ Z.of_nat (length (csr.data c)) →
  fits_idxint a na nb →
  ∃ nnz acc' c',
    merge_kernel f cfg u acc a b c = Some (nnz, acc', c') ∧
    valid_csr c' ∧ csr.nnz c' = Some nnz ∧ shape c' = shape a ∧
    (drops_only_zero (read_tol cfg u) →
     ∀ r col, 0 ≤ r < (shape a).1 → 0 ≤ col < (shape a).2 →
       to_dense c' r col =
       row_total f (row_entries a r) (row_entries b r) col).
Proof.
  intros Ha Hb Hs Hna Hnb Hacc Htouch Hzeros Hshape Hlri Hlen Hcap Hfit.
  pose proof Ha as (Hrows & Hcols & HlenA & HA0 & _).
  pose proof Hb as (_ & _ & _ & HB0 & _).
  unfold merge_kernel.
  rewrite set_idx_lt by lia. simpl.
  set (st0 := {| st_acc := acc; st_c := _ |}).
  destruct (merge_rows_inv f (read_tol cfg u) a b
              (Z.of_nat (length (csr.data c))) na nb Ha Hb Hs Hna Hnb Hcap Hfit
              (Z.to_nat (shape a).1) 0 st0)
    as (st' & Hst' & Hinv' & _ & Hdense'); [lia|lia| |].
  { unfold merge_inv, st0. simpl.
    assert (at_idx (<[Z.to_nat 0 := 0]> (csr.row_index c)) 0 = Some 0) as H0.
    { rewrite at_idx_insert by lia. by rewrite decide_True. }
    split_and!; try done; try lia.
    - by rewrite length_insert.
    - intros r v Hr Hv. assert (r = 0) as -> by lia.
      rewrite H0 in Hv. injection Hv as <-. lia. }
  rewrite Hst'. simpl.
  replace (0 + Z.of_nat (Z.to_nat (shape a).1)) with (shape a).1
    in Hinv', Hdense' by lia.
  destruct (merge_inv_final a b (Z.of_nat (length (csr.data c))) st' na nb)
    as (Hv & Hn & Hsh); try done.
  exists (st_nnz st'), (st_acc st'), (st_c st').
  split_and!; [done..|]. intros Htol r col Hr Hcol. by apply Hdense'.
Qed.

End KernelFacts.

Section CSRRuns.
Context {N : Numeric}.
Implicit Types h : gmap loc csr.CSR.

Lemma csr_with_data_id (O : csr.CSR) : csr.with_data O (csr.data O) = O.
Proof. by destruct O. Qed.

Lemma scale_entry_run out scale i h O :
  h !! out = Some O →
  scale_entry out scale i h =
  match v ← at_idx (csr.data O) i; set_idx (csr.data O) i (cmul v scale) with
  | Some buf => Ok () (<[out := csr.with_data O buf]> h)
  | None => Fault
  end.
Proof.
  intros Hout. unfold scale_entry. unfold_M. rewrite Hout.
  destruct (at_idx (csr.data O) i) as [v|]; simpl; [|done].
  destruct (set_idx (csr.data O) i _) as [buf|]; simpl; [|done].
  by rewrite Hout.
Qed.

Lemma for_range_scaled n idx out scale h O :
  h !! out = Some O →
  for_range n idx (scale_entry out scale) h =
  match scaled n idx scale (csr.data O) with
  | Some buf => Ok () (<[out := csr.with_data O buf]> h)
  | None => Fault
  end.
Proof.
  revert idx h O. induction n as [|n IH]; intros idx h O Hout; simpl.
  - rewrite csr_with_data_id, insert_id by done. done.
  - unfold mbind, M_bind, bind. rewrite (scale_entry_run _ _ _ _ O) by done.
    destruct (at_idx (csr.data O) idx) as [v|]; simpl; [|done].
    destruct (set_idx (csr.data O) idx _) as [buf|]; simpl; [|done].
    erewrite (IH _ _ (csr.with_data O buf)); [|by rewrite lookup_insert_eq].
    simpl. destruct (scaled n _ _ _); [|done].
    by rewrite insert_insert_eq.
Qed.

Lemma scaled_spec (n : nat) idx scale (buf : list cplx) :
  0 ≤ idx → idx + Z.of_nat n ≤ Z.of_nat (length buf) →
  ∃ buf', scaled n idx scale buf = Some buf' ∧
          length buf' = length buf ∧
          ∀ k, 0 ≤ k →
            at_idx buf' k =
            if decide (idx ≤ k < idx + Z.of_nat n)
            then (λ v, cmul v scale) <$> at_idx buf k
            else at_idx buf k.
Proof.
  revert idx buf. induction n as [|n IH]; intros idx buf Hidx Hlen; simpl.
  - exists buf. split_and!; [done..|].
    intros k _. by rewrite decide_False by lia.
  - destruct (at_idx_lt buf idx) as [v Hv]; [lia|].
    rewrite Hv. simpl. rewrite set_idx_lt by lia. simpl.
    destruct (IH (idx + 1) (<[Z.to_nat idx := cmul v scale]> buf))
      as (buf' & Hbuf' & Hlen' & Hk); [lia|rewrite length_insert; lia|].
    exists buf'. split_and!; [done|by rewrite Hlen', length_insert|].
    intros k Hk0. rewrite Hk by done.
    rewrite at_idx_insert by lia.
    destruct (decide (k = idx)) as [->|Hne].
    + rewrite decide_False by lia. rewrite decide_True by lia.
      by rewrite Hv.
    + destruct (decide (idx + 1 ≤ k < idx + 1 + Z.of_nat n)).
      * by rewrite decide_True by lia.
      * by rewrite decide_False by lia.
Qed.

(** The three paths of [add_csr] on same-shape operands: a copy of
    [left], a scaled copy of [right], the merge. *)
Lemma add_csr_copy_left cfg u h l r L R scale nl nr :
  h !! l = Some L → h !! r = Some R → shape L = shape R →
  csr.nnz L = Some nl → csr.nnz R = Some nr →
  nr = 0 ∨ ceqb scale c0 = true →
  add_csr cfg u l r scale h = Ok (fresh (dom h)) (<[fresh (dom h) := L]> h).
Proof.
  intros Hl Hr Hs Hnl Hnr Hfast. unfold add_csr.
  rewrite (bind_Ok _ _ _ _ _ (deref_Some _ _ _ Hl)).
  rewrite (bind_Ok _ _ _ _ _ (deref_Some _ _ _ Hr)).
  rewrite (bind_Ok _ _ _ _ _ (check_shape_same L R h Hs)).
  rewrite Hnl, Hnr. unfold lift, mbind, M_bind, bind, ret. simpl.
  replace (bool_decide (nr = 0) || ceqb scale c0) with true.
  - unfold csr.copy, mbind, M_bind, bind. by rewrite (deref_Some _ _ _ Hl).
  - symmetry. apply orb_true_iff. destruct Hfast as [->|Hz]; [left|by right].
    by apply bool_decide_eq_true.
Qed.

Lemma add_csr_scale_right cfg u h l r L R scale nr :
  h !! l = Some L → h !! r = Some R → shape L = shape R →
  csr.nnz L = Some 0 → csr.nnz R = Some nr →
  nr ≠ 0 → ceqb scale c0 = false →
  add_csr cfg u l r scale h =
  match (if negb (ceqb scale c1) then scaled (Z.to_nat nr) 0 scale (csr.data R)
         else Some (csr.data R)) with
  | Some buf => Ok (fresh (dom h)) (<[fresh (dom h) := csr.with_data R buf]> h)
  | None => Fault
  end.
Proof.
  intros Hl Hr Hs Hnl Hnr Hnz Hscale. unfold add_csr.
  rewrite (bind_Ok _ _ _ _ _ (deref_Some _ _ _ Hl)).
  rewrite (bind_Ok _ _ _ _ _ (deref_Some _ _ _ Hr)).
  rewrite (bind_Ok _ _ _ _ _ (check_shape_same L R h Hs)).
  rewrite Hnl, Hnr. unfold lift, mbind, M_bind, bind, ret. simpl.
  rewrite bool_decide_eq_false_2 by done. rewrite Hscale. simpl.
  unfold csr.copy, mbind, M_bind, bind. rewrite (deref_Some _ _ _ Hr).
  unfold alloc. set (out := fresh (dom h)).
  destruct (negb (ceqb scale c1)).
  - rewrite (for_range_scaled _ _ _ _ _ R) by apply lookup_insert_eq.
    destruct (scaled _ _ _ _); [|done].
    unfold mret, M_ret, ret. by rewrite insert_insert_eq.
  - unfold mret, M_ret, ret. by rewrite csr_with_data_id.
Qed.

Lemma add_csr_merge cfg u h l r L R scale nl nr :
  h !! l = Some L → h !! r = Some R → shape L = shape R →
  valid_csr L → valid_csr R →
  csr.nnz L = Some nl → csr.nnz R = Some nr →
  nr ≠ 0 → ceqb scale c0 = false → nl ≠ 0 →
  fits_idxint L nl nr →
  ∃ O, add_csr cfg u l r scale h =
         Ok (fresh (dom h)) (<[fresh (dom h) := O]> h) ∧
       valid_csr O ∧ shape O = shape L ∧
       (drops_only_zero (read_tol cfg u) →
        ∀ i col, 0 ≤ i < (shape L).1 → 0 ≤ col < (shape L).2 →
          to_dense O i col =
          row_total (if ceqb scale c1 then (λ v, v) else cmul scale)
                    (row_entries L i) (row_entries R i) col).
Proof.
  intros Hl Hr Hs HL HR Hnl Hnr Hnz Hscale Hnlz Hfit. unfold add_csr.
  rewrite (bind_Ok _ _ _ _ _ (deref_Some _ _ _ Hl)).
  rewrite (bind_Ok _ _ _ _ _ (deref_Some _ _ _ Hr)).
  rewrite (bind_Ok _ _ _ _ _ (check_shape_same L R h Hs)).
  rewrite Hnl, Hnr. unfold lift, mbind, M_bind, bind, ret. simpl.
  rewrite !bool_decide_eq_false_2 by done. rewrite Hscale. simpl.
  pose proof HL as (Hrows & Hcols & _).
  destruct (valid_nnz_cap L nl HL Hnl) as (Hnl0 & _).
  destruct (valid_nnz_cap R nr HR Hnr) as (Hnr0 & _).
  pose proof Hfit as (_ & _ & Hnmax).
  rewrite (idx_sum nl nr) by lia.
  unfold csr.empty, alloc. set (out := fresh (dom h)).
  destruct (acc_alloc_ok (shape L).2 Hcols)
    as (acc & Hacc & Hok & Htouch & Hzeros).
  rewrite Hacc. unfold deref. rewrite lookup_insert_eq.
  set (c := {| csr.shape := _ |}).
  assert (∀ f, ∃ nnz acc' c',
            merge_kernel f cfg u acc L R c = Some (nnz, acc', c') ∧
            valid_csr c' ∧ csr.nnz c' = Some nnz ∧ shape c' = shape L ∧
            (drops_only_zero (read_tol cfg u) →
             ∀ i col, 0 ≤ i < (shape L).1 → 0 ≤ col < (shape L).2 →
               to_dense c' i col =
               row_total f (row_entries L i) (row_entries R i) col))
    as Hker.
  { intros f. apply (merge_kernel_valid f cfg u acc L R c nl nr); try done.
    - by destruct (shape L).
    - unfold c. simpl. rewrite length_fmap, length_seq. lia.
    - unfold c. simpl. by rewrite !length_fmap, !length_seq.
    - unfold c. simpl. rewrite length_fmap, length_seq. lia. }
  unfold _add_csr, _add_csr_scale.
  destruct (ceqb scale c1).
  - destruct (Hker (λ v, v)) as (nnz & acc' & c' & Hk & Hv & _ & Hsh & Hd).
    rewrite Hk. unfold store. rewrite lookup_insert_eq, insert_insert_eq.
    by exists c'.
  - destruct (Hker (cmul scale)) as (nnz & acc' & c' & Hk & Hv & _ & Hsh & Hd).
    rewrite Hk. unfold store. rewrite lookup_insert_eq, insert_insert_eq.
    by exists c'.
Qed.

End CSRRuns.


(** ** The CSR entry point *)

Section CSRClaims.
Context {N : Numeric}.
Implicit Types h : gmap loc csr.CSR.

Lemma valid_with_data (m : csr.CSR) buf :
  length buf = length (csr.data m) → valid_csr m →
  valid_csr (csr.with_data m buf).
Proof.
  intros Hlen (? & ? & ? & ? & (n & ? & ? & ?) & Hrows).
  split_and!; try done.
  exists n. split_and!; try done. simpl. by rewrite Hlen.
Qed.

Lemma valid_csrb_sound (m : csr.CSR) : valid_csrb m = true → valid_csr m.
Proof.
  unfold valid_csrb. rewrite !andb_true_iff, !bool_decide_eq_true.
  intros [[[[[Hr Hc] Hlen] H0] Hn] Hrows].
  split_and!; try done.
  - destruct (csr.nnz m) as [n|]; [|done].
    apply andb_true_iff in Hn as [Hn1%bool_decide_eq_true Hn2%bool_decide_eq_true].
    by exists n.
  - intros r Hrange. rewrite forallb_forall in Hrows.
    specialize (Hrows r). unfold valid_rowb in Hrows. unfold valid_row.
    destruct (at_idx (csr.row_index m) r) as [lo|] eqn:Hlo.
    2:{ discriminate Hrows. apply list_elem_of_In, elem_of_seqZ. lia. }
    destruct (at_idx (csr.row_index m) (r + 1)) as [hi|] eqn:Hhi.
    2:{ discriminate Hrows. apply list_elem_of_In, elem_of_seqZ. lia. }
    exists lo, hi.
    rewrite andb_true_iff, !bool_decide_eq_true in Hrows.
    destruct Hrows as [Hle Hsorted]; [apply list_elem_of_In, elem_of_seqZ; lia|].
    done.
Qed.

Lemma valid_nnz_is_Some (m : csr.CSR) :
  valid_csr m → ∃ n, csr.nnz m = Some n.
Proof. intros (_ & _ & _ & _ & (n & ? & _) & _). by exists n. Qed.

(** Whatever the scale, [add_csr] on valid same-shape operands returns a
    new valid matrix of that shape, if the index arithmetic of the main
    path fits in a C int when that path is taken. *)
Lemma add_csr_valid cfg u h l r L R scale nl nr :
  h !! l = Some L → h !! r = Some R →
  valid_csr L → valid_csr R → shape L = shape R →
  csr.nnz L = Some nl → csr.nnz R = Some nr →
  (nl ≠ 0 → nr ≠ 0 → fits_idxint L nl nr) →
  ∃ O, add_csr cfg u l r scale h =
         Ok (fresh (dom h)) (<[fresh (dom h) := O]> h) ∧
       valid_csr O ∧ shape O = shape L.
Proof.
  intros Hl Hr HL HR Hs Hnl Hnr Hfit.
  destruct (decide (nr = 0)) as [Hz|Hnz].
  { exists L. split; [|done].
    apply (add_csr_copy_left cfg u h l r L R scale nl nr); auto. }
  destruct (ceqb scale c0) eqn:Hscale.
  { exists L. split; [|done].
    apply (add_csr_copy_left cfg u h l r L R scale nl nr); auto. }
  destruct (decide (nl = 0)) as [->|Hnlz].
  - rewrite (add_csr_scale_right cfg u h l r L R scale nr) by done.
    destruct (valid_nnz_cap R nr HR Hnr) as (Hnr0 & _ & Hcap).
    destruct (scaled_spec (Z.to_nat nr) 0 scale (csr.data R))
      as (buf & Hbuf & Hlen & _); [lia|lia|].
    destruct (negb (ceqb scale c1)).
    + rewrite Hbuf. exists (csr.with_data R buf).
      split_and!; [done|by apply valid_with_data|done].
    + exists (csr.with_data R (csr.data R)).
      split_and!; [done|by apply valid_with_data|done].
  - destruct (add_csr_merge cfg u h l r L R scale nl nr)
      as (O & Hrun & HO & Hsh & _); try done; [by apply Hfit|].
    by exists O.
Qed.

(** C2, as amended: for valid CSR matrices [A] and [B] of one shape such
    that, when both store entries, the row count, [cols + 1] and
    [nnz(A) + nnz(B)] fit in the index type, a C int, [add_csr(A, B)]
    returns a structurally valid CSR matrix of that shape: [row_index[0]]
    is 0, the row offsets do not decrease, [row_index[rows]] is the stored
    entry count and fits the buffers, and the column indices of every row
    are strictly increasing and within [[0, cols)]. *)
Theorem add_csr_result_valid cfg u h l r L R nl nr :
  h !! l = Some L → h !! r = Some R →
  valid_csr L → valid_csr R → shape L = shape R →
  csr.nnz L = Some nl → csr.nnz R = Some nr →
  (nl ≠ 0 → nr ≠ 0 → fits_idxint L nl nr) →
  ∃ out h' O,
    add_csr cfg u l r c1 h = Ok out h' ∧ h' !! out = Some O ∧
    shape O = shape L ∧ valid_csr O.
Proof.
  intros Hl Hr HL HR Hs Hnl Hnr Hfit.
  destruct (add_csr_valid cfg u h l r L R c1 nl nr) as (O & Hrun & HO & Hsh);
    try done.
  exists (fresh (dom h)), (<[fresh (dom h) := O]> h), O.
  split_and!; [done|apply lookup_insert_eq|done..].
Qed.

(** C6: if [right] has no stored entries or [scale == 0], [add_csr]
    returns a new object that holds exactly what [left] holds; [left]
    itself is still in the store, unchanged, under its own identity. *)
Theorem add_csr_zero_right_copies_left cfg u h l r L R scale nl nr :
  h !! l = Some L → h !! r = Some R → shape L = shape R →
  csr.nnz L = Some nl → csr.nnz R = Some nr →
  nr = 0 ∨ ceqb scale c0 = true →
  ∃ out h',
    add_csr cfg u l r scale h = Ok out h' ∧
    h' = <[out := L]> h ∧ (out ∉ dom h) ∧ out ≠ l ∧
    h' !! out = Some L ∧ h' !! l = Some L.
Proof.
  intros Hl Hr Hs Hnl Hnr Hfast.
  exists (fresh (dom h)), (<[fresh (dom h) := L]> h).
  pose proof (fresh_ne _ _ _ Hl) as Hne.
  split_and!; [|done|apply is_fresh|done|apply lookup_insert_eq|].
  - by apply (add_csr_copy_left cfg u h l r L R scale nl nr).
  - by rewrite lookup_insert_ne.
Qed.

(** C4, as amended: when [left] has no stored entries, [add_csr] never
    reaches the merge kernel.  If [right] is empty or [scale == 0] the
    result is a copy of the empty [left]; otherwise it is a new copy of
    [right] with the same [row_index] and [col_index], in which each of
    the stored values is multiplied by [scale], or left as it is when
    [scale == 1].  No entry is removed, whatever the tidy-up setting. *)
Theorem add_csr_zero_left_scales_right cfg u h l r L R scale nr :
  h !! l = Some L → h !! r = Some R → shape L = shape R →
  valid_csr R → csr.nnz L = Some 0 → csr.nnz R = Some nr →
  ∃ out O,
    add_csr cfg u l r scale h = Ok out (<[out := O]> h) ∧ (out ∉ dom h) ∧
    if bool_decide (nr = 0) || ceqb scale c0 then O = L
    else
      shape O = shape R ∧
      csr.row_index O = csr.row_index R ∧
      csr.col_index O = csr.col_index R ∧
      length (csr.data O) = length (csr.data R) ∧
      ∀ k, 0 ≤ k →
        at_idx (csr.data O) k =
        if decide (k < nr)
        then (λ v, if ceqb scale c1 then v else cmul v scale)
               <$> at_idx (csr.data R) k
        else at_idx (csr.data R) k.
Proof.
  intros Hl Hr Hs HR Hnl Hnr.
  destruct (bool_decide (nr = 0) || ceqb scale c0) eqn:Hfast.
  { exists (fresh (dom h)), L. split_and!; [|apply is_fresh|done].
    apply (add_csr_copy_left cfg u h l r L R scale 0 nr); try done.
    apply orb_true_iff in Hfast as [Hz%bool_decide_eq_true|Hz]; auto. }
  apply orb_false_iff in Hfast as [Hnz%bool_decide_eq_false Hscale].
  rewrite (add_csr_scale_right cfg u h l r L R scale nr) by done.
  destruct (valid_nnz_cap R nr HR Hnr) as (Hnr0 & _ & Hcap).
  destruct (scaled_spec (Z.to_nat nr) 0 scale (csr.data R))
    as (buf & Hbuf & Hlen & Hk); [lia|lia|].
  destruct (ceqb scale c1); simpl.
  - exists (fresh (dom h)), (csr.with_data R (csr.data R)).
    split_and!; [done|apply is_fresh|done..|].
    intros k Hk0. simpl. destruct (decide (k < nr)); [|done].
    by destruct (at_idx (csr.data R) k).
  - rewrite Hbuf. exists (fresh (dom h)), (csr.with_data R buf).
    split_and!; [done|apply is_fresh|done..|].
    intros k Hk0. simpl. rewrite Hk by done.
    destruct (decide (k < nr)).
    + by rewrite decide_True by lia.
    + by rewrite decide_False by lia.
Qed.

(** The tolerance of a merge kernel with tidy-up disabled is whatever the
    stack slot of [tol] held. *)
Lemma read_tol_disabled cfg u :
  auto_tidyup cfg = false → read_tol cfg u = stack_double u.
Proof. unfold read_tol. by intros ->. Qed.

Lemma read_tol_enabled cfg u :
  auto_tidyup cfg = true → read_tol cfg u = auto_tidyup_atol cfg.
Proof. unfold read_tol. by intros ->. Qed.

End CSRClaims.

(** ** The dense expansion of the sum *)

Section DenseSum.
Context {N : Numeric} {E : ExactLaws}.
Implicit Types h : gmap loc csr.CSR.

(** Under the laws of exact arithmetic the accumulated total is the sum. *)
Lemma row_total_sum f s ea eb col :
  (∀ v, f v = cmul s v) →
  row_total f ea eb col =
  cadd (default c0 (assoc col ea)) (cmul s (default c0 (assoc col eb))).
Proof.
  intros Hf. unfold row_total.
  destruct (assoc col ea) as [va|], (assoc col eb) as [vb|]; simpl.
  - by rewrite cadd_0_l, Hf, cadd_comm.
  - by rewrite cmul_0_r, cadd_0_l, cadd_0_r.
  - by rewrite Hf.
  - by rewrite cmul_0_r, cadd_0_l.
Qed.

(** A valid matrix without stored entries expands to zeros. *)
Lemma to_dense_empty (m : csr.CSR) i col :
  valid_csr m → csr.nnz m = Some 0 → 0 ≤ i < (shape m).1 →
  to_dense m i col = c0.
Proof.
  intros Hm Hn Hi.
  destruct (valid_row_readable m i 0 Hm Hn Hi) as (lo & hi & Hlo & Hhi & ? & ? & _).
  unfold to_dense, row_entries. rewrite Hlo, Hhi.
  assert (lo = 0) as -> by lia. assert (hi = 0) as -> by lia.
  unfold entries. by rewrite !segment_empty.
Qed.

Lemma segment_lookup {A} (l : list A) lo hi (k : nat) :
  0 ≤ lo →
  segment l lo hi !! k =
  if decide (Z.of_nat k < hi - lo) then at_idx l (lo + Z.of_nat k) else None.
Proof.
  intros Hlo. unfold segment, at_idx. rewrite lookup_take.
  destruct (decide (Z.of_nat k < hi - lo)).
  - rewrite decide_True by lia. rewrite decide_True by lia.
    rewrite lookup_drop. f_equal. lia.
  - by rewrite decide_False by lia.
Qed.

(** Scaling the stored values scales the entries of every row. *)
Lemma entries_with_data (m : csr.CSR) buf (g : cplx → cplx) n lo hi :
  0 ≤ lo → hi ≤ n →
  (∀ k, 0 ≤ k → at_idx buf k =
                if decide (k < n) then g <$> at_idx (csr.data m) k
                else at_idx (csr.data m) k) →
  entries (csr.with_data m buf) lo hi = prod_map id g <$> entries m lo hi.
Proof.
  intros Hlo Hhi Hbuf. unfold entries. simpl.
  assert (segment buf lo hi = g <$> segment (csr.data m) lo hi) as ->.
  { apply list_eq. intros k. rewrite list_lookup_fmap, !segment_lookup by done.
    destruct (decide (Z.of_nat k < hi - lo)); [|done].
    rewrite Hbuf by lia. by rewrite decide_True by lia. }
  generalize (segment (csr.col_index m) lo hi) (segment (csr.data m) lo hi).
  intros cs. induction cs as [|c cs IH]; intros [|d ds]; simpl; [done..|].
  f_equal. apply IH.
Qed.

End DenseSum.

Section DenseSumTheorem.
Context {N : Numeric} {E : ExactLaws}.
Implicit Types h : gmap loc csr.CSR.

(** With exact arithmetic and a tolerance that drops only zeros, the
    matrix returned by [add_csr(L, R, scale)] expands to
    [dense(L) + scale * dense(R)], on the fast paths as in the merge. *)
Lemma add_csr_dense_sum cfg u h l r L R scale nl nr :
  h !! l = Some L → h !! r = Some R →
  valid_csr L → valid_csr R → shape L = shape R →
  csr.nnz L = Some nl → csr.nnz R = Some nr →
  (nl ≠ 0 → nr ≠ 0 → fits_idxint L nl nr) →
  drops_only_zero (read_tol cfg u) →
  ∃ O, add_csr cfg u l r scale h =
         Ok (fresh (dom h)) (<[fresh (dom h) := O]> h) ∧
       ∀ i col, 0 ≤ i < (shape L).1 → 0 ≤ col < (shape L).2 →
         to_dense O i col =
         cadd (to_dense L i col) (cmul scale (to_dense R i col)).
Proof.
  intros Hl Hr HL HR Hs Hnl Hnr Hfit Htol.
  destruct (decide (nr = 0)) as [->|Hnz].
  { exists L. split.
    - apply (add_csr_copy_left cfg u h l r L R scale nl 0); auto.
    - intros i col Hi Hcol.
      rewrite (to_dense_empty R) by (done || by rewrite <- Hs).
      by rewrite cmul_0_r, cadd_0_r. }
  destruct (ceqb scale c0) eqn:Hscale.
  { exists L. split.
    - apply (add_csr_copy_left cfg u h l r L R scale nl nr); auto.
    - intros i col Hi Hcol. apply ceqb_0 in Hscale as ->.
      by rewrite cmul_0_l, cadd_0_r. }
  destruct (decide (nl = 0)) as [->|Hnlz].
  - rewrite (add_csr_scale_right cfg u h l r L R scale nr) by done.
    destruct (valid_nnz_cap R nr HR Hnr) as (Hnr0 & _ & Hcap).
    destruct (scaled_spec (Z.to_nat nr) 0 scale (csr.data R))
      as (buf & Hbuf & Hlen & Hk); [lia|lia|].
    set (g := λ v, if ceqb scale c1 then v else cmul v scale).
    assert (∃ buf', (if negb (ceqb scale c1)
                     then scaled (Z.to_nat nr) 0 scale (csr.data R)
                     else Some (csr.data R)) = Some buf' ∧
                    ∀ k, 0 ≤ k →
                      at_idx buf' k =
                      if decide (k < nr) then g <$> at_idx (csr.data R) k
                      else at_idx (csr.data R) k) as (buf' & -> & Hbuf').
    { unfold g. destruct (ceqb scale c1); simpl.
      - exists (csr.data R). split; [done|]. intros k Hk0.
        destruct (decide (k < nr)); [|done].
        by destruct (at_idx (csr.data R) k).
      - exists buf. split; [done|]. intros k Hk0. rewrite Hk by done.
        destruct (decide (k < nr)).
        + by rewrite decide_True by lia.
        + by rewrite decide_False by lia. }
    exists (csr.with_data R buf'). split; [done|].
    intros i col Hi Hcol.
    rewrite (to_dense_empty L) by done. rewrite cadd_0_l.
    destruct (valid_row_readable R i nr HR Hnr) as (lo & hi & Hlo & Hhi & ? & ? & _);
      [by rewrite <- Hs|].
    unfold to_dense, row_entries. simpl. rewrite Hlo, Hhi.
    rewrite (entries_with_data R buf' g nr) by (done || lia).
    rewrite assoc_fmap_value.
    destruct (assoc col (entries R lo hi)) as [v|]; simpl.
    + unfold g. destruct (ceqb scale c1) eqn:Hone.
      * apply ceqb_1 in Hone as ->. by rewrite cmul_1_l.
      * apply cmul_comm.
    + by rewrite cmul_0_r.
  - destruct (add_csr_merge cfg u h l r L R scale nl nr)
      as (O & Hrun & _ & _ & Hdense); try done; [by apply Hfit|].
    exists O. split; [done|]. intros i col Hi Hcol.
    rewrite (Hdense Htol i col Hi Hcol).
    apply row_total_sum. intros v.
    destruct (ceqb scale c1) eqn:Hone; [|done].
    apply ceqb_1 in Hone as ->. by rewrite cmul_1_l.
Qed.

End DenseSumTheorem.

(** ** All entry points *)

Section EntryPoints.
Context {N : Numeric}.

(** C8: [sub_csr(left, right)] is [add_csr(left, right, -1)] and
    [sub_dense(left, right)] is [add_dense(left, right, -1)]. *)
Theorem sub_is_add_minus_one cfg u left right :
  sub_csr cfg u left right = add_csr cfg u left right cm1 ∧
  sub_dense left right = add_dense left right cm1.
Proof. split; reflexivity. Qed.

(** The message of the shape-mismatch error. *)
Lemma add_csr_mismatch cfg u (h : gmap loc csr.CSR) l r L R scale :
  h !! l = Some L → h !! r = Some R → shape L ≠ shape R →
  add_csr cfg u l r scale h =
  Raise ("incompatible matrix shapes " +:+ str_shape (shape L)
         +:+ " and " +:+ str_shape (shape R)) h.
Proof.
  intros Hl Hr Hne. unfold add_csr.
  rewrite (bind_Ok _ _ _ _ _ (deref_Some _ _ _ Hl)).
  rewrite (bind_Ok _ _ _ _ _ (deref_Some _ _ _ Hr)).
  by rewrite (bind_Raise _ _ _ _ _ (check_shape_differ L R h Hne)).
Qed.

Lemma add_dense_mismatch (h : gmap loc dense.Dense) l r L R scale :
  h !! l = Some L → h !! r = Some R → shape L ≠ shape R →
  add_dense l r scale h =
  Raise ("incompatible matrix shapes " +:+ str_shape (shape L)
         +:+ " and " +:+ str_shape (shape R)) h.
Proof.
  intros Hl Hr Hne. unfold add_dense.
  rewrite (bind_Ok _ _ _ _ _ (deref_Some _ _ _ Hl)).
  rewrite (bind_Ok _ _ _ _ _ (deref_Some _ _ _ Hr)).
  by rewrite (bind_Raise _ _ _ _ _ (check_shape_differ L R h Hne)).
Qed.

Lemma iadd_dense_mismatch (h : gmap loc dense.Dense) l r L R scale :
  h !! l = Some L → h !! r = Some R → shape L ≠ shape R →
  iadd_dense l r scale h =
  Raise ("incompatible matrix shapes " +:+ str_shape (shape L)
         +:+ " and " +:+ str_shape (shape R)) h.
Proof.
  intros Hl Hr Hne. unfold iadd_dense.
  rewrite (bind_Ok _ _ _ _ _ (deref_Some _ _ _ Hl)).
  rewrite (bind_Ok _ _ _ _ _ (deref_Some _ _ _ Hr)).
  by rewrite (bind_Raise _ _ _ _ _ (check_shape_differ L R h Hne)).
Qed.

(** C5: when the operands' shapes differ, each of [add_csr], [sub_csr],
    [add_dense], [iadd_dense] and [sub_dense] raises the shape-mismatch
    error, whose message holds both shapes, in the very store it was
    called in: nothing has been allocated and no operand has changed. *)
Theorem shape_mismatch_raises :
  (∀ cfg u (h : gmap loc csr.CSR) l r L R scale,
     h !! l = Some L → h !! r = Some R → shape L ≠ shape R →
     let msg := "incompatible matrix shapes " +:+ str_shape (shape L)
                +:+ " and " +:+ str_shape (shape R) in
     add_csr cfg u l r scale h = Raise msg h ∧
     sub_csr cfg u l r h = Raise msg h) ∧
  (∀ (h : gmap loc dense.Dense) l r L R scale,
     h !! l = Some L → h !! r = Some R → shape L ≠ shape R →
     let msg := "incompatible matrix shapes " +:+ str_shape (shape L)
                +:+ " and " +:+ str_shape (shape R) in
     add_dense l r scale h = Raise msg h ∧
     iadd_dense l r scale h = Raise msg h ∧
     sub_dense l r h = Raise msg h).
Proof.
  split.
  - intros cfg u h l r L R scale Hl Hr Hne msg. split.
    + by apply add_csr_mismatch.
    + unfold sub_csr. by apply add_csr_mismatch.
  - intros h l r L R scale Hl Hr Hne msg. split_and!.
    + by apply add_dense_mismatch.
    + by apply iadd_dense_mismatch.
    + unfold sub_dense. by apply add_dense_mismatch.
Qed.

End EntryPoints.

(** ** The claims on concrete matrices *)

Ltac solve_valid_csr := apply valid_csrb_sound; vm_compute; reflexivity.

Ltac solve_fits := intros; unfold fits_idxint, INT_MAX; simpl; lia.

(** The claims on the sparse scenario of the specification and on
    operands of mismatched shapes. *)
Lemma add_csr_result_valid_witness :
  ∃ out h' O,
    add_csr (N:=Z_numeric) tidy_on (storage 0) 1 2 1 ex_csr_store
      = Ok out h' ∧
    h' !! out = Some O ∧ shape O = shape ex_A ∧ valid_csr O.
Proof.
  apply (add_csr_result_valid (N:=Z_numeric) tidy_on (storage 0)
           ex_csr_store 1 2 ex_A ex_B 2 2);
    [reflexivity|reflexivity|solve_valid_csr|solve_valid_csr|reflexivity
    |reflexivity|reflexivity|solve_fits].
Defined.

Lemma add_csr_zero_right_copies_left_witness :
  ∃ out h',
    add_csr (N:=Z_numeric) tidy_on (storage 0) 1 3 5 ex_csr_store4
      = Ok out h' ∧
    h' = <[out := ex_A]> ex_csr_store4 ∧ (out ∉ dom ex_csr_store4) ∧
    out ≠ 1%positive ∧ h' !! out = Some ex_A ∧ h' !! 1%positive = Some ex_A.
Proof.
  apply (add_csr_zero_right_copies_left (N:=Z_numeric) tidy_on (storage 0)
           ex_csr_store4 1 3 ex_A ex_empty 5 2 0);
    [reflexivity|reflexivity|reflexivity|reflexivity|reflexivity|].
  left. reflexivity.
Defined.

Lemma add_csr_zero_left_scales_right_witness :
  ∃ out O,
    add_csr (N:=Z_numeric) tidy_on (storage 0) 3 2 5 ex_csr_store4
      = Ok out (<[out := O]> ex_csr_store4) ∧
    (out ∉ dom ex_csr_store4) ∧
    shape O = shape ex_B ∧
    csr.row_index O = csr.row_index ex_B ∧
    csr.col_index O = csr.col_index ex_B ∧
    length (csr.data O) = length (csr.data ex_B) ∧
    ∀ k, 0 ≤ k →
      at_idx (csr.data O) k =
      if decide (k < 2)
      then (λ v, if (5 =? 1) then v else v * 5) <$> at_idx (csr.data ex_B) k
      else at_idx (csr.data ex_B) k.
Proof.
  apply (add_csr_zero_left_scales_right (N:=Z_numeric) tidy_on (storage 0)
           ex_csr_store4 3 2 ex_empty ex_B 5 2);
    [reflexivity|reflexivity|reflexivity|solve_valid_csr|reflexivity
    |reflexivity].
Defined.

(** C4 as stated fails, with tidy-up enabled at threshold 0.  In exact
    integers, adding a matrix that stores a zero at (0,0) to an empty matrix
    with [scale = 2] returns a matrix that still stores the entry, now
    [2 * 0 = 0].  In fixed-point numbers, adding a matrix that stores 1/16
    to an empty matrix with [scale = 1/16] returns a matrix that stores the
    rounded product, exactly zero.  Both values are at or below the
    tolerance, and neither entry is removed. *)
Lemma add_csr_zero_left_counterexample :
  (valid_csr ex_empty ∧ valid_csr ex_stored_zero ∧
   csr.nnz ex_empty = Some 0 ∧
   ∃ out h' O,
     add_csr (N:=Z_numeric) tidy_on (storage 0) 3 4 2 ex_csr_store4
       = Ok out h' ∧
     h' !! out = Some O ∧
     csr.nnz O = Some 1 ∧ row_entries O 0 = [(0, 0)] ∧
     at_or_below (Numeric:=Z_numeric) 0 (read_tol tidy_on (storage 0))
       = true) ∧
  (valid_csr fx_empty ∧ valid_csr fx_small ∧
   csr.nnz fx_empty = Some 0 ∧ row_entries fx_small 0 = [(0, 1)] ∧
   ∃ out h' O,
     add_csr (N:=fixed_numeric) fx_tidy_on fx_storage 1 2 1 fx_store
       = Ok out h' ∧
     h' !! out = Some O ∧
     csr.nnz O = Some 1 ∧ row_entries O 0 = [(0, 0)] ∧
     at_or_below (Numeric:=fixed_numeric) 0 (read_tol fx_tidy_on fx_storage)
       = true).
Proof.
  split.
  - split; [solve_valid_csr|]. split; [solve_valid_csr|].
    split; [reflexivity|].
    exists 5%positive,
      (<[5%positive := ex_stored_zero]> ex_csr_store4), ex_stored_zero.
    split_and!; by vm_compute.
  - split; [solve_valid_csr|]. split; [solve_valid_csr|].
    split; [reflexivity|]. split; [reflexivity|].
    exists 3%positive,
      (<[3%positive := @csr.Build_CSR fixed_numeric (1, 1) [0] [0] [0; 1]]>
         fx_store),
      (@csr.Build_CSR fixed_numeric (1, 1) [0] [0] [0; 1]).
    split_and!; by vm_compute.
Qed.

(** On the sparse scenario with tidy-up enabled at threshold 0, [add_csr]
    returns the entries 3 at (0,1) and 2 at (1,1) in buffers of capacity 4;
    the entries at (0,0) cancel and are dropped. *)
Lemma add_csr_scenario :
  add_csr (N:=Z_numeric) tidy_on (storage 0) 1 2 1 ex_csr_store =
    Ok 3%positive
       (<[3%positive :=
            @csr.Build_CSR Z_numeric (2, 2) [3; 2; 0; 0] [1; 1; 0; 0] [0; 1; 2]]>
          ex_csr_store).
Proof. by vm_compute. Qed.

(** Exact integers obey the laws, and with tidy-up enabled at threshold 0
    the tolerance drops only zeros: the sum of the sparse scenario expands
    to the dense sum. *)
Lemma Z_exact : @ExactLaws Z_numeric.
Proof.
  split; simpl; intros; lia.
Qed.

Lemma tidy_on_drops_only_zero u :
  drops_only_zero (N:=Z_numeric) (read_tol tidy_on u).
Proof.
  intros v Hv. change ((Z.abs v <=? 0) = true) in Hv.
  apply Z.leb_le in Hv. change (v = 0). lia.
Qed.

Lemma add_csr_scenario_dense_sum :
  ∃ O,
    add_csr (N:=Z_numeric) tidy_on (storage 0) 1 2 1 ex_csr_store
      = Ok (fresh (dom ex_csr_store))
           (<[fresh (dom ex_csr_store) := O]> ex_csr_store) ∧
    ∀ i col, 0 ≤ i < 2 → 0 ≤ col < 2 →
      to_dense O i col = to_dense ex_A i col + 1 * to_dense ex_B i col.
Proof.
  apply (add_csr_dense_sum (N:=Z_numeric) (E:=Z_exact)
           tidy_on (storage 0) ex_csr_store 1 2 ex_A ex_B 1 2 2);
    [reflexivity|reflexivity|solve_valid_csr|solve_valid_csr|reflexivity
    |reflexivity|reflexivity|solve_fits|].
  apply tidy_on_drops_only_zero.
Defined.

(** C1 fails with tidy-up disabled: the tolerance of the merge is then
    the content of the unassigned stack slot of [tol], and the result
    changes with it.  On the sparse scenario, a slot holding -1 gives the
    entries 0 at (0,0), 3 at (0,1) and 2 at (1,1); a slot holding 100
    gives a matrix without stored entries, whose dense expansion is zero
    where the dense sum has 3 at (0,1) and 2 at (1,1). *)
Theorem add_csr_tidy_off_uses_stack_slot :
  (∀ t, read_tol tidy_off (storage t) = t) ∧
  add_csr (N:=Z_numeric) tidy_off (storage (-1)) 1 2 1 ex_csr_store =
    Ok 3%positive
       (<[3%positive :=
            @csr.Build_CSR Z_numeric (2, 2) [0; 3; 2; 0] [0; 1; 1; 0] [0; 2; 3]]>
          ex_csr_store) ∧
  ∃ O,
    add_csr (N:=Z_numeric) tidy_off (storage 100) 1 2 1 ex_csr_store
      = Ok 3%positive (<[3%positive := O]> ex_csr_store) ∧
    csr.nnz O = Some 0 ∧
    to_dense O 0 1 = 0 ∧ to_dense ex_A 0 1 + 1 * to_dense ex_B 0 1 = 3 ∧
    to_dense O 1 1 = 0 ∧ to_dense ex_A 1 1 + 1 * to_dense ex_B 1 1 = 2.
Proof.
  split; [reflexivity|]. split; [by vm_compute|].
  exists (@csr.Build_CSR Z_numeric (2, 2) [0; 0; 0; 0] [0; 0; 0; 0] [0; 0; 0]).
  split_and!; by vm_compute.
Qed.

Lemma shape_mismatch_raises_witness :
  (add_csr (N:=Z_numeric) tidy_on (storage 0) 1 2 1 ex_csr_mismatch
     = Raise "incompatible matrix shapes (2, 3) and (3, 2)" ex_csr_mismatch ∧
   sub_csr (N:=Z_numeric) tidy_on (storage 0) 1 2 ex_csr_mismatch
     = Raise "incompatible matrix shapes (2, 3) and (3, 2)" ex_csr_mismatch) ∧
  (add_dense (N:=Z_numeric) 1 2 1 ex_dense_mismatch
     = Raise "incompatible matrix shapes (2, 3) and (3, 2)" ex_dense_mismatch ∧
   iadd_dense (N:=Z_numeric) 1 2 1 ex_dense_mismatch
     = Raise "incompatible matrix shapes (2, 3) and (3, 2)" ex_dense_mismatch ∧
   sub_dense (N:=Z_numeric) 1 2 ex_dense_mismatch
     = Raise "incompatible matrix shapes (2, 3) and (3, 2)" ex_dense_mismatch).
Proof.
  split.
  - apply (proj1 (shape_mismatch_raises (N:=Z_numeric)) tidy_on (storage 0)
             ex_csr_mismatch 1%positive 2%positive ex_s23 ex_s32 1);
      [reflexivity|reflexivity|discriminate].
  - apply (proj2 (shape_mismatch_raises (N:=Z_numeric))
             ex_dense_mismatch 1%positive 2%positive ex_d23 ex_d32 1);
      [reflexivity|reflexivity|discriminate].
Defined.

(** ** More on the dense kernels *)

Section DenseInPlace.
Context {N : Numeric}.
Implicit Types h : gmap loc dense.Dense.

(** A unit-stride update of one buffer by itself is the update by an
    untouched copy of it. *)
Lemma zaxpy_unit_run n alpha x y h X Y :
  h !! x = Some X → h !! y = Some Y →
  blas.zaxpy n alpha x 0 _ONE y 0 _ONE h =
  match zaxpy_list n alpha (dense.data X) 0 _ONE (dense.data Y) 0 _ONE with
  | Some buf => Ok () (<[y := dense.with_data Y buf]> h)
  | None => Fault
  end.
Proof.
  intros Hx Hy. destruct (decide (x = y)) as [->|Hxy].
  - assert (X = Y) as -> by congruence.
    unfold blas.zaxpy, zaxpy_list.
    destruct (decide (n ≤ 0)).
    { rewrite with_data_id, insert_id by done. done. }
    unfold blas.start, _ONE. rewrite !decide_False by lia.
    rewrite (zaxpy_loop_same _ _ _ _ _ _ _ _ Y) by done.
    by rewrite (axpy_self_unit _ _ _ (dense.data Y)) by done.
  - by apply zaxpy_distinct.
Qed.

End DenseInPlace.

Section DenseCalls.
Context {N : Numeric}.
Implicit Types h : gmap loc dense.Dense.

(** X1: [iadd_dense(L, R, scale)] returns [L] itself, with its shape and
    layout flag, and leaves [L[i,j] + scale * R[i,j]] at every position of
    it, provided that the element count fits in a C int when the layout
    flags agree.  The operands may be one and the same object: each
    position is then read before it is written, and ends as
    [L[i,j] + scale * L[i,j]]. *)
Theorem iadd_dense_elementwise h l r L R scale :
  h !! l = Some L → h !! r = Some R →
  wf_dense L → wf_dense R → shape L = shape R →
  (dense.fortran L = dense.fortran R →
   (shape L).1 * (shape L).2 ≤ INT_MAX) →
  ∃ L',
    iadd_dense l r scale h = Ok l (<[l := L']> h) ∧
    shape L' = shape L ∧ dense.fortran L' = dense.fortran L ∧
    length (dense.data L') = length (dense.data L) ∧
    ∀ i j, 0 ≤ i < (shape L).1 → 0 ≤ j < (shape L).2 →
      ∃ lv rv, elem L i j = Some lv ∧ elem R i j = Some rv ∧
               elem L' i j = Some (cadd lv (cmul scale rv)).
Proof.
  intros Hl Hr HL HR Hs Hfit.
  destruct (dense_sum_total L R scale HL HR Hs) as (buf & Hbuf & Hlen).
  rewrite (iadd_dense_run h l r L R) by done. rewrite Hbuf.
  exists (dense.with_data L buf). split_and!; [done..|].
  intros i j Hi Hj.
  destruct (dense_sum_elem L R scale i j)
    as (buf' & lv & rv & Hb & _ & ? & ? & ?); try done.
  exists lv, rv. split_and!; [done..|].
  rewrite Hbuf in Hb. by injection Hb as <-.
Qed.

(** X2: [add_dense] on well-formed same-shape operands changes no object
    that exists when it is called: the store it leaves is the store it
    found with one new object, the result, whose buffer is as long as that
    of [left].  This holds for every element count, and when [left] and
    [right] are the same object. *)
Theorem add_dense_leaves_operands h l r L R scale :
  h !! l = Some L → h !! r = Some R →
  wf_dense L → wf_dense R → shape L = shape R →
  ∃ out O,
    add_dense l r scale h = Ok out (<[out := O]> h) ∧
    (out ∉ dom h) ∧ out ≠ l ∧ out ≠ r ∧
    length (dense.data O) = length (dense.data L) ∧
    ∀ k X, h !! k = Some X → <[out := O]> h !! k = Some X.
Proof.
  intros Hl Hr HL HR Hs.
  destruct (dense_sum_total L R scale HL HR Hs) as (buf & Hbuf & Hlen).
  rewrite (add_dense_run h l r L R) by done. rewrite Hbuf.
  exists (fresh (dom h)), (dense.with_data L buf).
  split_and!; [done|apply is_fresh|by eapply fresh_ne..|done|].
  intros k X Hk. rewrite lookup_insert_ne; [done|]. by eapply fresh_ne.
Qed.

(** X3: [_add_dense_eq_order] checks neither shapes nor layout flags.  On
    well-formed operands of one shape it returns a new object with the
    shape and flag of [left] in which buffer position [k] holds
    [left[k] + scale * right[k]] for [k] below the C int made of
    [rows * cols], and [left[k]] from there on: all positions when the
    element count fits in a C int, fewer or none when it does not. *)
Theorem add_dense_eq_order_prefix h l r L R scale :
  h !! l = Some L → h !! r = Some R →
  wf_dense L → wf_dense R → shape L = shape R →
  ∃ out O,
    _add_dense_eq_order l r scale h = Ok out (<[out := O]> h) ∧
    (out ∉ dom h) ∧
    shape O = shape L ∧ dense.fortran O = dense.fortran L ∧
    length (dense.data O) = length (dense.data L) ∧
    ∀ k, 0 ≤ k < Z.of_nat (length (dense.data L)) →
      ∃ lv rv, at_idx (dense.data L) k = Some lv ∧
               at_idx (dense.data R) k = Some rv ∧
               at_idx (dense.data O) k =
               Some (if decide (k < int_size (shape L))
                     then cadd lv (cmul scale rv) else lv).
Proof.
  intros Hl Hr HL HR Hs.
  destruct (wf_dense_sizes L R HL HR Hs) as [HlenR Hsize].
  destruct (zaxpy_list_prefix (int_size (shape L)) scale
              (dense.data R) (dense.data L) HlenR Hsize)
    as (buf & Hbuf & Hlen & Hk).
  pose proof (fresh_ne _ _ _ Hl) as Hol.
  pose proof (fresh_ne _ _ _ Hr) as Hor.
  exists (fresh (dom h)), (dense.with_data L buf).
  split_and!; [|apply is_fresh|done..].
  assert (dense.copy l h = Ok (fresh (dom h)) (<[fresh (dom h) := L]> h))
    as Hcopy.
  { unfold dense.copy. by rewrite (bind_Ok _ _ _ _ _ (deref_Some _ _ _ Hl)). }
  unfold _add_dense_eq_order.
  rewrite (bind_Ok _ _ _ _ _ Hcopy).
  erewrite bind_Ok; last by (apply deref_Some; rewrite lookup_insert_ne).
  unfold mbind, M_bind, bind.
  rewrite (zaxpy_unit_run _ _ _ _ _ R L);
    [|by rewrite lookup_insert_ne|by rewrite lookup_insert_eq].
  rewrite Hbuf. by rewrite insert_insert_eq.
Qed.

(** X4: [add_dense_eq_order_inplace] checks neither shapes nor layout
    flags.  On well-formed operands of one shape it writes into the buffer
    of [left], and nowhere else: position [k] ends as
    [left[k] + scale * right[k]] for [k] below the C int made of
    [rows * cols], and is left alone from there on.  [right] may be [left]
    itself. *)
Theorem add_dense_eq_order_inplace_prefix h l r L R scale :
  h !! l = Some L → h !! r = Some R →
  wf_dense L → wf_dense R → shape L = shape R →
  ∃ buf,
    add_dense_eq_order_inplace l r scale h =
      Ok () (<[l := dense.with_data L buf]> h) ∧
    length buf = length (dense.data L) ∧
    ∀ k, 0 ≤ k < Z.of_nat (length (dense.data L)) →
      ∃ lv rv, at_idx (dense.data L) k = Some lv ∧
               at_idx (dense.data R) k = Some rv ∧
               at_idx buf k =
               Some (if decide (k < int_size (shape L))
                     then cadd lv (cmul scale rv) else lv).
Proof.
  intros Hl Hr HL HR Hs.
  destruct (wf_dense_sizes L R HL HR Hs) as [HlenR Hsize].
  destruct (zaxpy_list_prefix (int_size (shape L)) scale
              (dense.data R) (dense.data L) HlenR Hsize)
    as (buf & Hbuf & Hlen & Hk).
  exists buf. split_and!; [|done..].
  unfold add_dense_eq_order_inplace.
  rewrite (bind_Ok _ _ _ _ _ (deref_Some _ _ _ Hl)).
  rewrite (zaxpy_unit_run _ _ _ _ _ R L) by done.
  by rewrite Hbuf.
Qed.

End DenseCalls.

Section DenseEdges.
Context {N : Numeric}.
Implicit Types h : gmap loc dense.Dense.

Lemma segments_no_extent (n : nat) idx alpha (xs ys : list cplx) dim2 :
  segments n idx alpha xs 0 dim2 ys = Some ys.
Proof.
  revert idx. induction n as [|n IH]; intros idx; [done|].
  cbn [segments]. unfold zaxpy_list at 1.
  rewrite decide_True by lia. apply IH.
Qed.

Lemma dense_sum_empty (L R : dense.Dense) scale :
  wf_dense L → (shape L).1 = 0 ∨ (shape L).2 = 0 →
  dense_sum L R scale = Some (dense.data L).
Proof.
  intros HL Hz. unfold dense_sum.
  destruct (negb (xorb (dense.fortran L) (dense.fortran R))).
  - assert (int_size (shape L) = 0) as ->.
    { unfold int_size. by replace ((shape L).1 * (shape L).2) with 0 by lia. }
    unfold zaxpy_list. by rewrite decide_True by done.
  - rewrite (int_dims_exact L HL).
    destruct (dense.fortran L), Hz as [Hz|Hz]; simpl; rewrite Hz;
      first [apply segments_no_extent | done].
Qed.

(** X5: on well-formed same-shape operands without rows or without
    columns, [add_dense] returns a new object equal to [left] and
    [iadd_dense] returns [left] in an unchanged store, whatever the layout
    flags: no buffer position is read or written. *)
Theorem add_dense_empty h l r L R scale :
  h !! l = Some L → h !! r = Some R →
  wf_dense L → shape L = shape R →
  (shape L).1 = 0 ∨ (shape L).2 = 0 →
  add_dense l r scale h = Ok (fresh (dom h)) (<[fresh (dom h) := L]> h) ∧
  iadd_dense l r scale h = Ok l h.
Proof.
  intros Hl Hr HL Hs Hz. split.
  - rewrite (add_dense_run h l r L R) by done.
    rewrite (dense_sum_empty L R scale HL Hz). by rewrite with_data_id.
  - rewrite (iadd_dense_run h l r L R) by done.
    rewrite (dense_sum_empty L R scale HL Hz).
    by rewrite with_data_id, insert_id.
Qed.

(** X6: subtracting [R] from the sum of [L] and [R] gives back the values
    of [L], in the layout of [L], when the scalars obey
    [(x + 1 * y) + (-1) * y = x]: [sub_dense(add_dense(L, R), R)] holds
    [L[i,j]] at every position.  The element count must fit in a C int
    when the layout flags of [L] and [R] agree. *)
Theorem sub_dense_undoes_add_dense h l r L R :
  h !! l = Some L → h !! r = Some R →
  wf_dense L → wf_dense R → shape L = shape R →
  (dense.fortran L = dense.fortran R →
   (shape L).1 * (shape L).2 ≤ INT_MAX) →
  (∀ x y, cadd (cadd x (cmul c1 y)) (cmul cm1 y) = x) →
  ∃ s h1 d h2 D,
    add_dense l r c1 h = Ok s h1 ∧
    sub_dense s r h1 = Ok d h2 ∧ h2 !! d = Some D ∧
    h2 !! l = Some L ∧ h2 !! r = Some R ∧
    shape D = shape L ∧ dense.fortran D = dense.fortran L ∧
    ∀ i j, 0 ≤ i < (shape L).1 → 0 ≤ j < (shape L).2 →
      is_Some (elem L i j) ∧ elem D i j = elem L i j.
Proof.
  intros Hl Hr HL HR Hs Hfit Hlaw.
  destruct (dense_sum_total L R c1 HL HR Hs) as (buf & Hbuf & Hlen).
  set (s := fresh (dom h)). set (O := dense.with_data L buf).
  set (h1 := <[s := O]> h).
  pose proof (fresh_ne _ _ _ Hl : s ≠ l) as Hsl.
  pose proof (fresh_ne _ _ _ Hr : s ≠ r) as Hsr.
  assert (wf_dense O) as HO.
  { pose proof HL as (? & ? & HlenL). split; [done|split; [done|]].
    unfold O. simpl. by rewrite Hlen. }
  assert (h1 !! s = Some O) as Hs1 by apply lookup_insert_eq.
  assert (h1 !! r = Some R) as Hr1 by by (unfold h1; rewrite lookup_insert_ne).
  assert (h1 !! l = Some L) as Hl1 by by (unfold h1; rewrite lookup_insert_ne).
  assert (shape O = shape R) as HsO by done.
  destruct (dense_sum_total O R cm1 HO HR HsO) as (buf2 & Hbuf2 & Hlen2).
  set (d := fresh (dom h1)).
  pose proof (fresh_ne _ _ _ Hl1 : d ≠ l) as Hdl.
  pose proof (fresh_ne _ _ _ Hr1 : d ≠ r) as Hdr.
  exists s, h1, d, (<[d := dense.with_data O buf2]> h1), (dense.with_data O buf2).
  split_and!.
  - rewrite (add_dense_run h l r L R) by done. by rewrite Hbuf.
  - unfold sub_dense. rewrite (add_dense_run h1 s r O R) by done.
    by rewrite Hbuf2.
  - apply lookup_insert_eq.
  - by rewrite lookup_insert_ne.
  - by rewrite lookup_insert_ne.
  - done.
  - done.
  - intros i j Hi Hj.
    destruct (dense_sum_elem L R c1 i j)
      as (b1 & lv & rv & Hb1 & _ & HLv & HRv & H1); try done.
    destruct (dense_sum_elem O R cm1 i j)
      as (b2 & ov & rv' & Hb2 & _ & HOv & HRv' & H2); try done.
    rewrite Hbuf in Hb1. injection Hb1 as <-.
    rewrite Hbuf2 in Hb2. injection Hb2 as <-.
    assert (rv' = rv) as -> by congruence.
    unfold elem in *. simpl in *.
    change (offset O i j) with (offset L i j) in *.
    change (offset (dense.with_data O buf2) i j) with (offset L i j).
    rewrite H1 in HOv. injection HOv as <-.
    rewrite HLv, H2, Hlaw. split; [by eexists|done].
Qed.

End DenseEdges.

(** ** The entries that the merge stores *)

Section TouchedFacts.
Context {N : Numeric}.

Lemma elem_of_segment {A} (l : list A) lo hi x :
  0 ≤ lo → hi ≤ Z.of_nat (length l) →
  x ∈ segment l lo hi ↔ ∃ p, lo ≤ p < hi ∧ at_idx l p = Some x.
Proof.
  intros Hlo Hhi. rewrite list_elem_of_lookup. split.
  - intros [k Hk]. rewrite segment_lookup in Hk by done.
    destruct (decide (Z.of_nat k < hi - lo)); [|done].
    exists (lo + Z.of_nat k). split; [lia|done].
  - intros (p & Hp & Hx). exists (Z.to_nat (p - lo)).
    rewrite segment_lookup by done. rewrite decide_True by lia.
    by replace (lo + Z.of_nat (Z.to_nat (p - lo))) with p by lia.
Qed.

(** The loop over one row touches exactly the columns under and after
    its two cursors. *)
Lemma merge_row_touched f (a b : csr.CSR) ncols hi_a hi_b :
  0 ≤ ncols < INT_MAX → hi_a ≤ INT_MAX → hi_b ≤ INT_MAX →
  ∀ (fuel : nat) ptr_a col_a ptr_b col_b acc acc',
    readable a ncols ptr_a hi_a → readable b ncols ptr_b hi_b →
    col_or_sentinel a ptr_a hi_a ncols = Some col_a →
    col_or_sentinel b ptr_b hi_b ncols = Some col_b →
    merge_row fuel f a b ncols ptr_a hi_a col_a ptr_b hi_b col_b acc
      = Some acc' →
    ∀ x, x ∈ csr.touched acc' ↔
         x ∈ csr.touched acc ∨
         (∃ p, ptr_a ≤ p < hi_a ∧ at_idx (csr.col_index a) p = Some x) ∨
         (∃ p, ptr_b ≤ p < hi_b ∧ at_idx (csr.col_index b) p = Some x).
Proof.
  intros Hn Hamax Hbmax.
  assert (∀ ptr_a ptr_b acc x,
            ¬ ptr_a < hi_a → ¬ ptr_b < hi_b →
            x ∈ csr.touched acc ↔
            x ∈ csr.touched acc ∨
            (∃ p, ptr_a ≤ p < hi_a ∧ at_idx (csr.col_index a) p = Some x) ∨
            (∃ p, ptr_b ≤ p < hi_b ∧ at_idx (csr.col_index b) p = Some x))
    as Hdone.
  { intros ptr_a ptr_b acc x Hna Hnb. split; [by left|].
    intros [?|[(p & ? & _)|(p & ? & _)]]; [done|lia..]. }
  induction fuel as [|fuel IH];
    intros ptr_a col_a ptr_b col_b acc acc' Ha Hb Hca Hcb Hrun x.
  - simpl in Hrun.
    destruct (bool_decide (ptr_a < hi_a) || bool_decide (ptr_b < hi_b))
      eqn:Hcond; [done|].
    apply orb_false_iff in Hcond
      as [Hna%bool_decide_eq_false Hnb%bool_decide_eq_false].
    injection Hrun as <-. by apply Hdone.
  - simpl in Hrun.
    destruct (bool_decide (ptr_a < hi_a) || bool_decide (ptr_b < hi_b))
      eqn:Hcond.
    2:{ apply orb_false_iff in Hcond
          as [Hna%bool_decide_eq_false Hnb%bool_decide_eq_false].
        injection Hrun as <-. by apply Hdone. }
    apply orb_true_iff in Hcond. rewrite !bool_decide_eq_true in Hcond.
    destruct (col_or_sentinel_readable a ncols ptr_a hi_a Hn Ha)
      as (ca & Hca' & Hra).
    destruct (col_or_sentinel_readable b ncols ptr_b hi_b Hn Hb)
      as (cb & Hcb' & Hrb).
    assert (ca = col_a) as -> by congruence.
    assert (cb = col_b) as -> by congruence.
    destruct (bool_decide (col_a < col_b)) eqn:Hlt.
    + apply bool_decide_eq_true in Hlt.
      assert (ptr_a < hi_a) as Hpa.
      { destruct (decide (ptr_a < hi_a)); [done|].
        destruct (decide (ptr_b < hi_b)); lia. }
      unfold col_or_sentinel in Hca. rewrite decide_True in Hca by done.
      destruct (at_idx (csr.data a) ptr_a) as [v|] eqn:Hv; [|done].
      simpl in Hrun.
      destruct (csr.acc_scatter acc v col_a) as [acc1|] eqn:Hsc; [|done].
      simpl in Hrun.
      apply at_idx_Some in Hv as [Hpa0 _].
      rewrite (idx_sum ptr_a 1) in Hrun by lia.
      destruct (col_or_sentinel a (ptr_a + 1) hi_a ncols) as [col_a'|] eqn:Hca'';
        [|done].
      simpl in Hrun.
      apply acc_scatter_inv in Hsc as (_ & _ & _ & _ & Htouch).
      rewrite (IH (ptr_a + 1) col_a' ptr_b col_b acc1 acc'
                 (readable_tail _ _ _ _ Ha) Hb Hca'' Hcb Hrun x).
      rewrite Htouch. split.
      * intros [[?| ->]|[(p & ? & ?)|?]]; [by left| | |by right; right].
        -- right. left. exists ptr_a. split; [lia|done].
        -- right. left. exists p. split; [lia|done].
      * intros [?|[(p & ? & Hp)|?]]; [by left; left| |by right; right].
        destruct (decide (p = ptr_a)) as [->|Hne].
        -- left. right. congruence.
        -- right. left. exists p. split; [lia|done].
    + apply bool_decide_eq_false in Hlt.
      assert (ptr_b < hi_b) as Hpb.
      { destruct (decide (ptr_b < hi_b)); [done|].
        destruct (decide (ptr_a < hi_a)); lia. }
      unfold col_or_sentinel in Hcb. rewrite decide_True in Hcb by done.
      destruct (at_idx (csr.data b) ptr_b) as [v|] eqn:Hv; [|done].
      simpl in Hrun.
      destruct (csr.acc_scatter acc (f v) col_b) as [acc1|] eqn:Hsc; [|done].
      simpl in Hrun.
      apply at_idx_Some in Hv as [Hpb0 _].
      rewrite (idx_sum ptr_b 1) in Hrun by lia.
      destruct (col_or_sentinel b (ptr_b + 1) hi_b ncols) as [col_b'|] eqn:Hcb'';
        [|done].
      simpl in Hrun.
      apply acc_scatter_inv in Hsc as (_ & _ & _ & _ & Htouch).
      rewrite (IH ptr_a col_a (ptr_b + 1) col_b' acc1 acc'
                 Ha (readable_tail _ _ _ _ Hb) Hca Hcb'' Hrun x).
      rewrite Htouch. split.
      * intros [[?| ->]|[?|(p & ? & ?)]]; [by left| |by right; left|].
        -- right. right. exists ptr_b. split; [lia|done].
        -- right. right. exists p. split; [lia|done].
      * intros [?|[?|(p & ? & Hp)]]; [by left; left|by right; left|].
        destruct (decide (p = ptr_b)) as [->|Hne].
        -- left. right. congruence.
        -- right. right. exists p. split; [lia|done].
Qed.

End TouchedFacts.

Section MergedRows.
Context {N : Numeric}.

Lemma gathered_merged f tol (a b : csr.CSR) ncols lo_a hi_a lo_b hi_b acc :
  0 ≤ lo_a ≤ hi_a → hi_a ≤ Z.of_nat (length (csr.col_index a)) →
  hi_a ≤ Z.of_nat (length (csr.data a)) →
  0 ≤ lo_b ≤ hi_b → hi_b ≤ Z.of_nat (length (csr.col_index b)) →
  hi_b ≤ Z.of_nat (length (csr.data b)) →
  acc_ok ncols acc →
  (∀ x, x ∈ csr.touched acc ↔
        (∃ p, lo_a ≤ p < hi_a ∧ at_idx (csr.col_index a) p = Some x) ∨
        (∃ p, lo_b ≤ p < hi_b ∧ at_idx (csr.col_index b) p = Some x)) →
  (∀ col, 0 ≤ col < ncols →
     at_idx (csr.values acc) col =
     Some (row_total f (entries a lo_a hi_a) (entries b lo_b hi_b) col)) →
  csr.gathered acc tol =
  merged_row f tol (entries a lo_a hi_a) (entries b lo_b hi_b).
Proof.
  intros Ha Hac Had Hb Hbc Hbd (Hlen & Hnd & Hin) Htouch Hvals.
  unfold csr.gathered, merged_row, merged_cols.
  assert (merge_sort Z.le (csr.touched acc) =
          merge_sort Z.le
            (remove_dups ((entries a lo_a hi_a).*1 ++ (entries b lo_b hi_b).*1)))
    as Hcols.
  { apply (StronglySorted_unique Z.le).
    - apply StronglySorted_merge_sort; apply _.
    - apply StronglySorted_merge_sort; apply _.
    - rewrite !merge_sort_Permutation.
      apply NoDup_Permutation; [done|apply NoDup_remove_dups|].
      intros x. rewrite elem_of_remove_dups, elem_of_app, Htouch.
      rewrite !entries_fst by done.
      rewrite !elem_of_segment by lia. done. }
  rewrite <- Hcols. apply list_omap_ext, Forall_Forall2_diag, Forall_forall.
  intros col Hcol. rewrite merge_sort_Permutation in Hcol.
  rewrite Forall_forall in Hin. specialize (Hin col Hcol).
  unfold csr.kept. rewrite (Hvals col Hin). done.
Qed.

(** One turn of the loop over the rows stores the merged row. *)
Lemma merge_step_entries f tol (a b : csr.CSR) cap row st st' na nb :
  valid_csr a → valid_csr b → shape a = shape b →
  csr.nnz a = Some na → csr.nnz b = Some nb → na + nb ≤ cap →
  fits_idxint a na nb →
  0 ≤ row < (shape a).1 → merge_inv a b cap row st →
  merge_step f tol a b (shape a).2 row st = Some st' →
  row_entries (st_c st') row =
  merged_row f tol (row_entries a row) (row_entries b row).
Proof.
  intros Ha Hb Hs Hna Hnb Hcap (Hrmax & Hcmax & Hnmax) Hrow Hinv Hrun.
  destruct Hinv as (Hacc & Htouch & Hzeros & Hpa & Hpb & Hnnz & Hshape & Hlri
                    & Hlci & Hld & Hri0 & Hrirow & Hvalid & Hbound).
  destruct (valid_row_readable a row na Ha Hna Hrow)
    as (lo_a & hi_a & Hlo_a & Hhi_a & Hord_a & Hhi_na & Hread_a).
  destruct (valid_row_readable b row nb Hb Hnb)
    as (lo_b & hi_b & Hlo_b & Hhi_b & Hord_b & Hhi_nb & Hread_b);
    [by rewrite <- Hs|].
  rewrite <- Hs in Hread_b.
  assert (lo_a = st_ptr_a_max st) as -> by congruence.
  assert (lo_b = st_ptr_b_max st) as -> by congruence.
  destruct (valid_nnz_cap a na Ha Hna) as (_ & Hca_cap & Hda).
  destruct (valid_nnz_cap b nb Hb Hnb) as (_ & Hcb_cap & Hdb).
  pose proof Ha as (_ & Hcols & _).
  assert (0 ≤ (shape a).2 < INT_MAX) as Hn by lia.
  assert (hi_a ≤ INT_MAX) as Hamax by lia.
  assert (hi_b ≤ INT_MAX) as Hbmax by lia.
  unfold merge_step in Hrun. rewrite (idx_sum row 1) in Hrun by lia.
  rewrite Hhi_a, Hhi_b in Hrun. simpl in Hrun.
  destruct (col_or_sentinel_readable a _ _ _ Hn Hread_a) as (col_a & Hca & _).
  destruct (col_or_sentinel_readable b _ _ _ Hn Hread_b) as (col_b & Hcb & _).
  rewrite Hca, Hcb in Hrun. simpl in Hrun.
  destruct (merge_row_ok f a b (shape a).2 hi_a hi_b Hn Hamax Hbmax
              (length (csr.data a) + length (csr.data b))%nat
              (st_ptr_a_max st) col_a (st_ptr_b_max st) col_b (st_acc st))
    as (acc1 & Hm & Hacc1 & Hlen1); try done; [lia|].
  rewrite Hm in Hrun. simpl in Hrun. rewrite Htouch in Hlen1. simpl in Hlen1.
  destruct (acc_gather_spec (shape a).2 acc1 (csr.data (st_c st))
              (csr.col_index (st_c st)) (st_nnz st) tol)
    as (es & Hes & Hg); try done; try lia.
  rewrite Hg in Hrun. simpl in Hrun.
  destruct (gathered_cols (shape a).2 acc1 tol Hacc1) as [_ Hlen_es].
  rewrite <- Hes in Hlen_es.
  rewrite (idx_sum (st_nnz st)) in Hrun by lia.
  rewrite set_idx_lt in Hrun by lia. simpl in Hrun.
  injection Hrun as <-.
  assert (Z.of_nat (length es) = Z.of_nat (length es.*1)) as Hlen_c
    by by rewrite length_fmap.
  assert (Z.of_nat (length es) = Z.of_nat (length es.*2)) as Hlen_d
    by by rewrite length_fmap.
  unfold row_entries at 1. simpl.
  rewrite !at_idx_insert by lia.
  rewrite decide_False by lia. rewrite decide_True by done.
  rewrite Hrirow. unfold entries at 1. simpl.
  rewrite Hlen_c at 1. rewrite segment_write_at by lia.
  rewrite Hlen_d. rewrite segment_write_at by lia.
  rewrite zip_fst_snd.
  unfold row_entries. rewrite Hpa, Hhi_a, Hpb, Hhi_b.
  pose proof Ha as (_ & _ & _ & _ & _ & Hrows_a).
  pose proof Hb as (_ & _ & _ & _ & _ & Hrows_b).
  destruct (Hrows_a row Hrow) as (la & ha & Hla & Hha & _ & Hsa).
  destruct (Hrows_b row) as (lb & hb & Hlb & Hhb & _ & Hsb);
    [by rewrite <- Hs|].
  rewrite <- Hs in Hsb.
  assert (la = st_ptr_a_max st) as -> by congruence.
  assert (ha = hi_a) as -> by congruence.
  assert (lb = st_ptr_b_max st) as -> by congruence.
  assert (hb = hi_b) as -> by congruence.
  pose proof (merge_row_values f a b (shape a).2
                (st_ptr_a_max st) hi_a (st_ptr_b_max st) hi_b) as Hmv.
  specialize (Hmv ltac:(lia) ltac:(lia) ltac:(lia) Hsa
                  ltac:(lia) ltac:(lia) ltac:(lia) Hsb Hn Hamax Hbmax).
  specialize (Hmv (length (csr.data a) + length (csr.data b))%nat
                  (st_ptr_a_max st) col_a (st_ptr_b_max st) col_b
                  (st_acc st) acc1 ltac:(lia) ltac:(lia) Hca Hcb).
  destruct Hmv as [Hvals _]; [|exact Hm|].
  { unfold row_state. rewrite !Z.sub_diag. simpl.
    destruct Hacc as (Hlen_v & _ & _).
    split_and!; [done| |by intros; apply Hzeros|by intros e ?%elem_of_nil].
    intros c Hc. by rewrite Hzeros. }
  rewrite Hes.
  apply (gathered_merged f tol a b (shape a).2); try done; try lia.
  intros x.
  rewrite (merge_row_touched f a b (shape a).2 hi_a hi_b Hn Hamax Hbmax
             _ _ _ _ _ _ acc1 Hread_a Hread_b Hca Hcb Hm x).
  rewrite Htouch. split; [|by right].
  by intros [?%elem_of_nil|?].
Qed.

End MergedRows.

Section KernelSpec.
Context {N : Numeric}.
Implicit Types h : gmap loc csr.CSR.

(** The loop over the rows, told by what it returns: the invariant goes
    on, the rows before it stay as they were, and every row it passes
    holds the merged row. *)
Lemma merge_rows_entries f tol (a b : csr.CSR) cap na nb :
  valid_csr a → valid_csr b → shape a = shape b →
  csr.nnz a = Some na → csr.nnz b = Some nb → na + nb ≤ cap →
  fits_idxint a na nb →
  ∀ (n : nat) row st st',
    0 ≤ row → row + Z.of_nat n ≤ (shape a).1 → merge_inv a b cap row st →
    merge_rows n f tol a b (shape a).2 row st = Some st' →
    merge_inv a b cap (row + Z.of_nat n) st' ∧
    (∀ r, 0 ≤ r < row →
       row_entries (st_c st') r = row_entries (st_c st) r) ∧
    (∀ r, row ≤ r < row + Z.of_nat n →
       row_entries (st_c st') r =
       merged_row f tol (row_entries a r) (row_entries b r)).
Proof.
  intros Ha Hb Hs Hna Hnb Hcap Hfit.
  induction n as [|n IH]; intros row st st' Hrow Hn Hinv Hrun; simpl in Hrun.
  - injection Hrun as <-. rewrite Z.add_0_r.
    split_and!; [done..|]. intros r Hr. lia.
  - pose proof Hfit as (Hrmax & Hcmax & Hnmax).
    destruct (merge_step_inv f tol a b cap row st na nb)
      as (st1 & Hst1 & Hinv1 & Hkeep1 & _); try done; [lia..|].
    rewrite Hst1 in Hrun. simpl in Hrun.
    destruct (IH (row + 1) st1 st') as (Hinv' & Hkeep' & Hrows');
      [lia|lia|done|done|].
    split_and!.
    + by replace (row + Z.of_nat (S n)) with (row + 1 + Z.of_nat n) by lia.
    + intros r Hr. rewrite Hkeep' by lia. by apply Hkeep1.
    + intros r Hr. destruct (decide (r = row)) as [->|Hne].
      * rewrite Hkeep' by lia.
        apply (merge_step_entries f tol a b cap row st st1 na nb);
          try done; lia.
      * apply Hrows'. lia.
Qed.

(** What a merge kernel returns when it is given a fresh accumulator and
    an output with room for [nnz(a) + nnz(b)] entries. *)
Lemma merge_kernel_spec f cfg u (a b c : csr.CSR) na nb :
  valid_csr a → valid_csr b → shape a = shape b →
  csr.nnz a = Some na → csr.nnz b = Some nb →
  shape c = shape a →
  Z.of_nat (length (csr.row_index c)) = (shape a).1 + 1 →
  length (csr.col_index c) = length (csr.data c) →
  na + nb ≤ Z.of_nat (length (csr.data c)) →
  fits_idxint a na nb →
  ∃ nnz acc' c',
    merge_kernel f cfg u (acc_fresh (shape a).2) a b c = Some (nnz, acc', c') ∧
    valid_csr c' ∧ csr.nnz c' = Some nnz ∧ shape c' = shape a ∧
    0 ≤ nnz ≤ na + nb ∧
    length (csr.data c') = length (csr.data c) ∧
    length (csr.col_index c') = length (csr.col_index c) ∧
    acc' = acc_fresh (shape a).2 ∧
    ∀ r, 0 ≤ r < (shape a).1 →
      row_entries c' r =
      merged_row f (read_tol cfg u) (row_entries a r) (row_entries b r).
Proof.
  intros Ha Hb Hs Hna Hnb Hshape Hlri Hlen Hcap Hfit.
  pose proof Ha as (Hrows & Hcols & HlenA & HA0 & _).
  pose proof Hb as (_ & _ & _ & HB0 & _).
  destruct (acc_alloc_ok (shape a).2 Hcols)
    as (acc & Hacc & Hok & Htouch & Hzeros).
  assert (acc = acc_fresh (shape a).2) as ->.
  { unfold csr.acc_alloc in Hacc. rewrite decide_False in Hacc by lia.
    by injection Hacc as <-. }
  unfold merge_kernel.
  rewrite set_idx_lt by lia. simpl.
  set (st0 := {| st_acc := acc_fresh (shape a).2; st_c := _ |}).
  assert (merge_inv a b (Z.of_nat (length (csr.data c))) 0 st0) as Hinv0.
  { unfold merge_inv, st0. simpl.
    assert (at_idx (<[Z.to_nat 0 := 0]> (csr.row_index c)) 0 = Some 0) as H0.
    { rewrite at_idx_insert by lia. by rewrite decide_True. }
    split_and!; try done; try lia.
    - by rewrite length_insert.
    - intros r v Hr Hv. assert (r = 0) as -> by lia.
      rewrite H0 in Hv. injection Hv as <-. lia. }
  destruct (merge_rows_inv f (read_tol cfg u) a b
              (Z.of_nat (length (csr.data c))) na nb Ha Hb Hs Hna Hnb Hcap Hfit
              (Z.to_nat (shape a).1) 0 st0)
    as (st' & Hst' & _); [lia|lia|done|].
  rewrite Hst'. simpl.
  destruct (merge_rows_entries f (read_tol cfg u) a b
              (Z.of_nat (length (csr.data c))) na nb Ha Hb Hs Hna Hnb Hcap Hfit
              (Z.to_nat (shape a).1) 0 st0 st')
    as (Hinv' & _ & Hrows'); [lia|lia|done|done|].
  replace (0 + Z.of_nat (Z.to_nat (shape a).1)) with (shape a).1
    in Hinv', Hrows' by lia.
  destruct (merge_inv_final a b (Z.of_nat (length (csr.data c))) st' na nb)
    as (Hv & Hn & Hsh); try done.
  exists (st_nnz st'), (st_acc st'), (st_c st').
  destruct Hinv' as (Hacc' & Htouch' & Hzeros' & Hpa & Hpb & Hnnz & _ & _
                     & Hlci & Hld & _).
  assert (st_ptr_a_max st' = na ∧ st_ptr_b_max st' = nb) as [Hea Heb].
  { unfold csr.nnz, shape, CSR_Data in *. rewrite <- Hs in Hnb.
    split; congruence. }
  split_and!; try done; try lia.
  destruct (st_acc st') as [vals touched]. simpl in *. subst touched.
  unfold acc_fresh. f_equal.
  destruct Hacc' as (Hlen_v & _). simpl in Hlen_v.
  apply list_eq. intros k.
  destruct (decide (k < length vals)%nat) as [Hk|Hk].
  - specialize (Hzeros' (Z.of_nat k) ltac:(lia)).
    rewrite at_idx_nat in Hzeros'. rewrite Hzeros'.
    symmetry. apply lookup_replicate_2. lia.
  - rewrite lookup_ge_None_2 by lia.
    symmetry. apply lookup_ge_None_2. rewrite length_replicate. lia.
Qed.

(** The main path of [add_csr] is a run of a merge kernel on a fresh
    accumulator and fresh buffers. *)
Lemma add_csr_merge_run cfg u h l r L R scale nl nr :
  h !! l = Some L → h !! r = Some R → shape L = shape R →
  csr.nnz L = Some nl → csr.nnz R = Some nr →
  nr ≠ 0 → ceqb scale c0 = false → nl ≠ 0 → 0 ≤ (shape L).2 →
  add_csr cfg u l r scale h =
  match merge_kernel (scattered scale) cfg u (acc_fresh (shape L).2) L R
          (out_fresh u (shape L).1 (shape L).2 (c_int (nl + nr))) with
  | Some (_, _, out) => Ok (fresh (dom h)) (<[fresh (dom h) := out]> h)
  | None => Fault
  end.
Proof.
  intros Hl Hr Hs Hnl Hnr Hnz Hscale Hnlz Hcols. unfold add_csr.
  rewrite (bind_Ok _ _ _ _ _ (deref_Some _ _ _ Hl)).
  rewrite (bind_Ok _ _ _ _ _ (deref_Some _ _ _ Hr)).
  rewrite (bind_Ok _ _ _ _ _ (check_shape_same L R h Hs)).
  rewrite Hnl, Hnr. unfold lift, mbind, M_bind, bind, ret. simpl.
  rewrite !bool_decide_eq_false_2 by done. rewrite Hscale. simpl.
  unfold csr.empty, alloc. set (out := fresh (dom h)).
  unfold csr.acc_alloc. rewrite decide_False by lia.
  unfold deref. rewrite lookup_insert_eq.
  unfold _add_csr, _add_csr_scale, scattered, acc_fresh, out_fresh.
  destruct (ceqb scale c1).
  - destruct (merge_kernel _ _ _ _ _ _ _) as [[[nnz acc'] c']|]; [|done].
    unfold store. by rewrite lookup_insert_eq, insert_insert_eq.
  - destruct (merge_kernel _ _ _ _ _ _ _) as [[[nnz acc'] c']|]; [|done].
    unfold store. by rewrite lookup_insert_eq, insert_insert_eq.
Qed.

End KernelSpec.

Section RowFacts.
Context {N : Numeric}.

Lemma row_entries_length (m : csr.CSR) i lo hi :
  valid_csr m → 0 ≤ i < (shape m).1 →
  at_idx (csr.row_index m) i = Some lo →
  at_idx (csr.row_index m) (i + 1) = Some hi →
  Z.of_nat (length (row_entries m i)) = hi - lo.
Proof.
  intros Hm Hi Hlo Hhi.
  destruct (valid_nnz_is_Some m Hm) as [n Hn].
  destruct (valid_row_readable m i n Hm Hn Hi)
    as (lo' & hi' & Hlo' & Hhi' & Hord & Hcap & _).
  assert (lo' = lo) as -> by congruence.
  assert (hi' = hi) as -> by congruence.
  destruct (valid_nnz_cap m n Hm Hn) as (_ & Hc & Hd).
  unfold row_entries. rewrite Hlo, Hhi. apply entries_length; lia.
Qed.

(** The row offsets of a valid matrix are fixed by the lengths of its
    rows. *)
Lemma row_index_determined (m1 m2 : csr.CSR) :
  valid_csr m1 → valid_csr m2 → shape m1 = shape m2 →
  (∀ i, 0 ≤ i < (shape m1).1 →
     length (row_entries m1 i) = length (row_entries m2 i)) →
  csr.row_index m1 = csr.row_index m2.
Proof.
  intros H1 H2 Hs Hrows.
  pose proof H1 as (Hr1 & _ & Hl1 & H01 & _).
  pose proof H2 as (_ & _ & Hl2 & H02 & _). rewrite <- Hs in Hl2.
  assert (∀ k : nat, Z.of_nat k ≤ (shape m1).1 →
            at_idx (csr.row_index m1) (Z.of_nat k) =
            at_idx (csr.row_index m2) (Z.of_nat k)) as Hk.
  { induction k as [|k IH]; intros Hle.
    - change (Z.of_nat 0) with 0. by rewrite H01, H02.
    - destruct (valid_row_step m1 (Z.of_nat k) H1) as (lo1 & hi1 & Hlo1 & Hhi1 & _);
        [lia|].
      destruct (valid_row_step m2 (Z.of_nat k) H2) as (lo2 & hi2 & Hlo2 & Hhi2 & _);
        [rewrite <- Hs; lia|].
      pose proof (row_entries_length m1 (Z.of_nat k) lo1 hi1 H1
                    ltac:(lia) Hlo1 Hhi1) as Hlen1.
      pose proof (row_entries_length m2 (Z.of_nat k) lo2 hi2 H2
                    ltac:(rewrite <- Hs; lia) Hlo2 Hhi2) as Hlen2.
      rewrite (Hrows (Z.of_nat k)) in Hlen1 by lia.
      rewrite IH in Hlo1 by lia.
      assert (lo1 = lo2) as -> by congruence.
      replace (Z.of_nat (S k)) with (Z.of_nat k + 1) by lia.
      rewrite Hhi1, Hhi2. f_equal. lia. }
  apply list_eq. intros k.
  destruct (decide (Z.of_nat k ≤ (shape m1).1)) as [Hle|Hgt].
  - specialize (Hk k Hle). by rewrite !at_idx_nat in Hk.
  - rewrite !lookup_ge_None_2; [done|lia..].
Qed.

(** A valid matrix without stored entries has only empty rows. *)
Lemma row_entries_empty (m : csr.CSR) i :
  valid_csr m → csr.nnz m = Some 0 → 0 ≤ i < (shape m).1 →
  row_entries m i = [].
Proof.
  intros Hm Hn Hi.
  destruct (valid_row_readable m i 0 Hm Hn Hi) as (lo & hi & Hlo & Hhi & ? & ? & _).
  unfold row_entries. rewrite Hlo, Hhi.
  assert (lo = 0) as -> by lia. assert (hi = 0) as -> by lia.
  unfold entries. by rewrite !segment_empty.
Qed.

(** A valid matrix whose rows are all empty has no stored entries. *)
Lemma rows_empty_nnz (m : csr.CSR) :
  valid_csr m →
  (∀ i, 0 ≤ i < (shape m).1 → row_entries m i = []) →
  csr.nnz m = Some 0.
Proof.
  intros Hm Hrows.
  pose proof Hm as (Hr & _ & _ & H0 & _).
  assert (∀ k : nat, Z.of_nat k ≤ (shape m).1 →
            at_idx (csr.row_index m) (Z.of_nat k) = Some 0) as Hk.
  { induction k as [|k IH]; intros Hle; [exact H0|].
    destruct (valid_row_step m (Z.of_nat k) Hm) as (lo & hi & Hlo & Hhi & _);
      [lia|].
    pose proof (row_entries_length m (Z.of_nat k) lo hi Hm
                  ltac:(lia) Hlo Hhi) as Hlen.
    rewrite Hrows in Hlen by lia. simpl in Hlen.
    rewrite IH in Hlo by lia. injection Hlo as <-.
    replace (Z.of_nat (S k)) with (Z.of_nat k + 1) by lia.
    rewrite Hhi. f_equal. lia. }
  unfold csr.nnz. specialize (Hk (Z.to_nat (shape m).1)).
  rewrite Z2Nat.id in Hk by done. apply Hk. lia.
Qed.

End RowFacts.

Section ResultRows.
Context {N : Numeric}.
Implicit Types h : gmap loc csr.CSR.

(** The main path of [add_csr], when its index arithmetic fits. *)
Lemma add_csr_main cfg u h l r L R scale nl nr :
  h !! l = Some L → h !! r = Some R →
  valid_csr L → valid_csr R → shape L = shape R →
  csr.nnz L = Some nl → csr.nnz R = Some nr →
  nl ≠ 0 → nr ≠ 0 → ceqb scale c0 = false →
  fits_idxint L nl nr →
  ∃ O n, add_csr cfg u l r scale h =
           Ok (fresh (dom h)) (<[fresh (dom h) := O]> h) ∧
         valid_csr O ∧ shape O = shape L ∧
         csr.nnz O = Some n ∧ 0 ≤ n ≤ nl + nr ∧
         Z.of_nat (length (csr.data O)) = nl + nr ∧
         Z.of_nat (length (csr.col_index O)) = nl + nr ∧
         ∀ i, 0 ≤ i < (shape L).1 →
           row_entries O i =
           merged_row (scattered scale) (read_tol cfg u)
                      (row_entries L i) (row_entries R i).
Proof.
  intros Hl Hr HL HR Hs Hnl Hnr Hnlz Hnz Hscale Hfit.
  destruct (valid_nnz_cap L nl HL Hnl) as (Hnl0 & _).
  destruct (valid_nnz_cap R nr HR Hnr) as (Hnr0 & _).
  pose proof HL as (Hrows0 & Hcols & _).
  pose proof Hfit as (_ & _ & Hnmax).
  rewrite (add_csr_merge_run cfg u h l r L R scale nl nr) by done.
  rewrite (idx_sum nl nr) by lia.
  destruct (merge_kernel_spec (scattered scale) cfg u L R
              (out_fresh u (shape L).1 (shape L).2 (nl + nr)) nl nr)
    as (n & acc' & O & -> & HO & Hn & Hsh & Hbound & Hld & Hlc & _ & Hrows);
    try done.
  - by destruct (shape L).
  - simpl. rewrite length_fmap, length_seq. lia.
  - simpl. by rewrite !length_fmap, !length_seq.
  - simpl. rewrite length_fmap, length_seq. lia.
  - exists O, n. split_and!; try done; try lia.
    + rewrite Hld. simpl. rewrite length_fmap, length_seq. lia.
    + rewrite Hlc. simpl. rewrite length_fmap, length_seq. lia.
Qed.

(** What [add_csr] returns, on every path: a new valid matrix with no
    more entries than its operands have together, and its rows. *)
Lemma add_csr_rows cfg u h l r L R scale nl nr :
  h !! l = Some L → h !! r = Some R →
  valid_csr L → valid_csr R → shape L = shape R →
  csr.nnz L = Some nl → csr.nnz R = Some nr →
  (nl ≠ 0 → nr ≠ 0 → fits_idxint L nl nr) →
  ∃ O n, add_csr cfg u l r scale h =
           Ok (fresh (dom h)) (<[fresh (dom h) := O]> h) ∧
         valid_csr O ∧ shape O = shape L ∧
         csr.nnz O = Some n ∧ 0 ≤ n ≤ nl + nr ∧
         ∀ i, 0 ≤ i < (shape L).1 →
           row_entries O i =
           result_row cfg u scale nl nr (row_entries L i) (row_entries R i).
Proof.
  intros Hl Hr HL HR Hs Hnl Hnr Hfit. unfold result_row.
  destruct (valid_nnz_cap L nl HL Hnl) as (Hnl0 & _).
  destruct (valid_nnz_cap R nr HR Hnr) as (Hnr0 & _ & Hcap).
  destruct (bool_decide (nr = 0) || ceqb scale c0) eqn:Hfast.
  { exists L, nl. split_and!; [|done..|lia|lia|done].
    apply (add_csr_copy_left cfg u h l r L R scale nl nr); try done.
    apply orb_true_iff in Hfast as [Hz%bool_decide_eq_true|Hz]; auto. }
  apply orb_false_iff in Hfast as [Hnz%bool_decide_eq_false Hscale].
  destruct (decide (nl = 0)) as [->|Hnlz].
  - rewrite bool_decide_eq_true_2 by done.
    rewrite (add_csr_scale_right cfg u h l r L R scale nr) by done.
    destruct (scaled_spec (Z.to_nat nr) 0 scale (csr.data R))
      as (buf & Hbuf & Hlen & Hk); [lia|lia|].
    set (g := λ v, if ceqb scale c1 then v else cmul v scale).
    assert (∃ buf', (if negb (ceqb scale c1)
                     then scaled (Z.to_nat nr) 0 scale (csr.data R)
                     else Some (csr.data R)) = Some buf' ∧
                    length buf' = length (csr.data R) ∧
                    ∀ k, 0 ≤ k →
                      at_idx buf' k =
                      if decide (k < nr) then g <$> at_idx (csr.data R) k
                      else at_idx (csr.data R) k) as (buf' & -> & Hlen' & Hbuf').
    { unfold g. destruct (ceqb scale c1); simpl.
      - exists (csr.data R). split_and!; [done..|]. intros k Hk0.
        destruct (decide (k < nr)); [|done].
        by destruct (at_idx (csr.data R) k).
      - exists buf. split_and!; [done..|]. intros k Hk0. rewrite Hk by done.
        destruct (decide (k < nr)).
        + by rewrite decide_True by lia.
        + by rewrite decide_False by lia. }
    exists (csr.with_data R buf'), nr.
    split_and!; [done|by apply valid_with_data|done|done|lia|lia|].
    intros i Hi.
    destruct (valid_row_readable R i nr HR Hnr) as (lo & hi & Hlo & Hhi & ? & ? & _);
      [by rewrite <- Hs|].
    unfold row_entries. simpl. rewrite Hlo, Hhi.
    by rewrite (entries_with_data R buf' g nr) by (done || lia).
  - rewrite bool_decide_eq_false_2 by done.
    destruct (add_csr_main cfg u h l r L R scale nl nr)
      as (O & n & Hrun & HO & Hsh & Hn & Hbound & _ & _ & Hrows); try done;
      [by apply Hfit|].
    exists O, n. split_and!; try done; lia.
Qed.

End ResultRows.

(** ** The index type at its edge *)

(** With [ncols + 1] one more than the largest C int, the sentinel of an
    exhausted operand is [-2^31]: no column is below it, the loop takes the
    exhausted operand's next entry as present and reads past the end of
    its buffers. *)
Lemma wide_sentinel_fault cfg u (ncols : Z)
    (h : gmap loc (@csr.CSR Z_numeric)) l r :
  ncols = INT_MAX →
  h !! l = Some (wide ncols) → h !! r = Some (wide ncols) →
  add_csr (N:=Z_numeric) cfg u l r 1 h = Fault.
Proof.
  intros Hn Hl Hr.
  assert (0 < ncols) as Hpos by (rewrite Hn; unfold INT_MAX; lia).
  rewrite (add_csr_merge_run cfg u h l r (wide ncols) (wide ncols) 1 1 1);
    [|done|done|done|done|done|done|done|done|simpl; lia].
  assert (merge_kernel (scattered (N:=Z_numeric) 1) cfg u
            (acc_fresh (shape (wide ncols)).2) (wide ncols) (wide ncols)
            (out_fresh u (shape (wide ncols)).1 (shape (wide ncols)).2
               (c_int (1 + 1)))
          = None) as ->; [|done].
  unfold merge_kernel. simpl.
  set (st0 := {| st_acc := acc_fresh ncols; st_c := _ |}).
  assert (merge_step (scattered (N:=Z_numeric) 1) (read_tol cfg u)
            (wide ncols) (wide ncols) ncols 0 st0 = None) as ->; [|done].
  unfold merge_step. simpl.
  assert (c_int (ncols + 1) = - 2 ^ 31) as -> by (by rewrite Hn).
  by destruct (csr.acc_scatter _ _ _).
Qed.

(** C2 as stated fails at the edge of the index type: two valid matrices
    of shape [(1, 2^31 - 1)] with one entry each, for which [cols + 1] is
    not a C int, make [add_csr] read outside a buffer, so that it returns
    no matrix. *)
Lemma add_csr_wide_counterexample :
  valid_csr ex_wide ∧
  ex_wide_store !! 1%positive = Some ex_wide ∧
  ex_wide_store !! 2%positive = Some ex_wide ∧
  shape ex_wide = (1, INT_MAX) ∧ csr.nnz ex_wide = Some 1 ∧
  (shape ex_wide).2 + 1 = 2 ^ 31 ∧
  add_csr (N:=Z_numeric) tidy_on (storage 0) 1 2 1 ex_wide_store = Fault.
Proof.
  split; [apply valid_csrb_sound; vm_compute; reflexivity|].
  split; [reflexivity|]. split; [reflexivity|]. split; [reflexivity|].
  split; [reflexivity|]. split; [reflexivity|].
  by apply (wide_sentinel_fault tidy_on (storage 0) INT_MAX).
Qed.


(** ** The CSR entry point, all paths *)

Section CSRAllPaths.
Context {N : Numeric}.
Implicit Types h : gmap loc csr.CSR.

Lemma elem_of_merged_row f tol (ea eb : list (Z * cplx)) col v :
  (col, v) ∈ merged_row f tol ea eb ↔
  (col ∈ ea.*1 ∨ col ∈ eb.*1) ∧ v = row_total f ea eb col ∧
  at_or_below v tol = false.
Proof.
  unfold merged_row, merged_cols. rewrite list_elem_of_omap. split.
  - intros (x & Hx & Hv). simpl in Hv.
    rewrite merge_sort_Permutation, elem_of_remove_dups, elem_of_app in Hx.
    destruct (at_or_below (row_total f ea eb x) tol) eqn:Hb; [done|].
    injection Hv as <- <-. done.
  - intros (Hcol & -> & Hb). exists col. split.
    + by rewrite merge_sort_Permutation, elem_of_remove_dups, elem_of_app.
    + simpl. by rewrite Hb.
Qed.

(** X7: for every [scale], and so for [sub_csr] too, [add_csr] on valid
    same-shape operands returns a new valid CSR matrix of that shape with
    at most [nnz(left) + nnz(right)] stored entries, and changes no object
    that exists when it is called, provided that, when both operands
    store entries, the row count, [cols + 1] and [nnz(left) + nnz(right)]
    fit in the index type, a C int. *)
Theorem add_csr_valid_any_scale cfg u h l r L R scale nl nr :
  h !! l = Some L → h !! r = Some R →
  valid_csr L → valid_csr R → shape L = shape R →
  csr.nnz L = Some nl → csr.nnz R = Some nr →
  (nl ≠ 0 → nr ≠ 0 → fits_idxint L nl nr) →
  ∃ out O n,
    add_csr cfg u l r scale h = Ok out (<[out := O]> h) ∧
    (out ∉ dom h) ∧
    valid_csr O ∧ shape O = shape L ∧
    csr.nnz O = Some n ∧ 0 ≤ n ≤ nl + nr ∧
    ∀ k X, h !! k = Some X → <[out := O]> h !! k = Some X.
Proof.
  intros Hl Hr HL HR Hs Hnl Hnr Hfit.
  destruct (add_csr_rows cfg u h l r L R scale nl nr)
    as (O & n & Hrun & HO & Hsh & Hn & Hbound & _); try done.
  exists (fresh (dom h)), O, n.
  split_and!; [done|apply is_fresh|done..|lia|lia|].
  intros k X Hk. rewrite lookup_insert_ne; [done|]. by eapply fresh_ne.
Qed.

(** X8: the contract of the two merge kernels, as their docstrings give
    it.  Given valid same-shape [a] and [b], a cleared accumulator for
    their columns and an output [c] of their shape whose buffers have room
    for at least [nnz(a) + nnz(b)] entries, either kernel returns the
    stored entry count of [c], which is at most [nnz(a) + nnz(b)], leaves
    in [c] a valid CSR matrix in buffers of unchanged length, and leaves
    the accumulator cleared.  This holds for every tolerance, the row
    count, [cols + 1] and [nnz(a) + nnz(b)] fitting in the index type, a
    C int. *)
Theorem merge_kernels_contract cfg u (a b c : csr.CSR) scale na nb :
  valid_csr a → valid_csr b → shape a = shape b →
  csr.nnz a = Some na → csr.nnz b = Some nb →
  shape c = shape a →
  Z.of_nat (length (csr.row_index c)) = (shape a).1 + 1 →
  length (csr.col_index c) = length (csr.data c) →
  na + nb ≤ Z.of_nat (length (csr.data c)) →
  fits_idxint a na nb →
  (∃ nnz c',
     _add_csr cfg u (acc_fresh (shape a).2) a b c =
       Some (nnz, acc_fresh (shape a).2, c') ∧
     valid_csr c' ∧ shape c' = shape a ∧
     csr.nnz c' = Some nnz ∧ 0 ≤ nnz ≤ na + nb ∧
     length (csr.data c') = length (csr.data c) ∧
     length (csr.col_index c') = length (csr.col_index c)) ∧
  (∃ nnz c',
     _add_csr_scale cfg u (acc_fresh (shape a).2) a b c scale =
       Some (nnz, acc_fresh (shape a).2, c') ∧
     valid_csr c' ∧ shape c' = shape a ∧
     csr.nnz c' = Some nnz ∧ 0 ≤ nnz ≤ na + nb ∧
     length (csr.data c') = length (csr.data c) ∧
     length (csr.col_index c') = length (csr.col_index c)).
Proof.
  intros Ha Hb Hs Hna Hnb Hshape Hlri Hlen Hcap Hfit.
  assert (∀ f, ∃ nnz c',
            merge_kernel f cfg u (acc_fresh (shape a).2) a b c =
              Some (nnz, acc_fresh (shape a).2, c') ∧
            valid_csr c' ∧ shape c' = shape a ∧
            csr.nnz c' = Some nnz ∧ 0 ≤ nnz ≤ na + nb ∧
            length (csr.data c') = length (csr.data c) ∧
            length (csr.col_index c') = length (csr.col_index c)) as Hker.
  { intros f.
    destruct (merge_kernel_spec f cfg u a b c na nb)
      as (n & acc' & c' & Hk & Hv & Hn & Hsh & Hbound & Hld & Hlc & -> & _);
      try done.
    exists n, c'. split_and!; try done; lia. }
  split; apply Hker.
Qed.

(** X9: on the main path of [add_csr] (both operands store entries and
    [scale] is not zero), the row count, [cols + 1] and
    [nnz(left) + nnz(right)] fitting in the index type, every row of the
    result holds exactly the merged row: the columns at which the row of
    [left] or of [right] stores an entry, ascending, each with the total
    accumulated from zero, first what is scattered for [right]'s value
    and then [left]'s value, and without the columns whose total is at or
    below the tolerance.  The buffers of the result keep room for
    [nnz(left) + nnz(right)] entries, whatever was dropped. *)
Theorem add_csr_merge_entries cfg u h l r L R scale nl nr :
  h !! l = Some L → h !! r = Some R →
  valid_csr L → valid_csr R → shape L = shape R →
  csr.nnz L = Some nl → csr.nnz R = Some nr →
  nl ≠ 0 → nr ≠ 0 → ceqb scale c0 = false →
  fits_idxint L nl nr →
  ∃ out O,
    add_csr cfg u l r scale h = Ok out (<[out := O]> h) ∧
    Z.of_nat (length (csr.data O)) = nl + nr ∧
    Z.of_nat (length (csr.col_index O)) = nl + nr ∧
    ∀ i, 0 ≤ i < (shape L).1 →
      row_entries O i =
      merged_row (scattered scale) (read_tol cfg u)
                 (row_entries L i) (row_entries R i).
Proof.
  intros Hl Hr HL HR Hs Hnl Hnr Hnlz Hnz Hscale Hfit.
  destruct (add_csr_main cfg u h l r L R scale nl nr)
    as (O & n & Hrun & _ & _ & _ & _ & Hld & Hlc & Hrows); try done.
  by exists (fresh (dom h)), O.
Qed.

(** X10: on the main path of [add_csr], the row count, [cols + 1] and
    [nnz(left) + nnz(right)] fitting in the index type, no entry is
    stored at a position where neither operand stores one. *)
Theorem add_csr_merge_no_fill_in cfg u h l r L R scale nl nr :
  h !! l = Some L → h !! r = Some R →
  valid_csr L → valid_csr R → shape L = shape R →
  csr.nnz L = Some nl → csr.nnz R = Some nr →
  nl ≠ 0 → nr ≠ 0 → ceqb scale c0 = false →
  fits_idxint L nl nr →
  ∃ out O,
    add_csr cfg u l r scale h = Ok out (<[out := O]> h) ∧
    ∀ i col v, 0 ≤ i < (shape L).1 → (col, v) ∈ row_entries O i →
      col ∈ (row_entries L i).*1 ∨ col ∈ (row_entries R i).*1.
Proof.
  intros Hl Hr HL HR Hs Hnl Hnr Hnlz Hnz Hscale Hfit.
  destruct (add_csr_main cfg u h l r L R scale nl nr)
    as (O & n & Hrun & _ & _ & _ & _ & _ & _ & Hrows); try done.
  exists (fresh (dom h)), O. split; [done|].
  intros i col v Hi Hin. rewrite (Hrows i Hi) in Hin.
  by apply elem_of_merged_row in Hin as (Hcol & _).
Qed.

End CSRAllPaths.

Section KernelsAgree.
Context {N : Numeric}.

Lemma merge_row_ext (f g : cplx → cplx) (a b : csr.CSR) ncols :
  (∀ v, f v = g v) →
  ∀ (fuel : nat) ptr_a ptr_a_max col_a ptr_b ptr_b_max col_b acc,
    merge_row fuel f a b ncols ptr_a ptr_a_max col_a ptr_b ptr_b_max col_b acc =
    merge_row fuel g a b ncols ptr_a ptr_a_max col_a ptr_b ptr_b_max col_b acc.
Proof.
  intros Hext. induction fuel as [|fuel IH]; intros; simpl; [done|].
  destruct (bool_decide (ptr_a < ptr_a_max) || bool_decide (ptr_b < ptr_b_max));
    [|done].
  destruct (bool_decide (col_a < col_b)).
  - destruct (at_idx (csr.data a) ptr_a) as [v|]; simpl; [|done].
    destruct (csr.acc_scatter acc v col_a) as [acc1|]; simpl; [|done].
    destruct (col_or_sentinel a _ ptr_a_max ncols); simpl; [|done].
    apply IH.
  - destruct (at_idx (csr.data b) ptr_b) as [v|]; simpl; [|done].
    rewrite Hext.
    destruct (csr.acc_scatter acc (g v) col_b) as [acc1|]; simpl; [|done].
    destruct (col_or_sentinel b _ ptr_b_max ncols); simpl; [|done].
    apply IH.
Qed.

Lemma merge_step_ext (f g : cplx → cplx) tol (a b : csr.CSR) ncols row st :
  (∀ v, f v = g v) →
  merge_step f tol a b ncols row st = merge_step g tol a b ncols row st.
Proof.
  intros Hext. unfold merge_step.
  destruct (at_idx (csr.row_index a) _); simpl; [|done].
  destruct (at_idx (csr.row_index b) _); simpl; [|done].
  destruct (col_or_sentinel a _ _ _); simpl; [|done].
  destruct (col_or_sentinel b _ _ _); simpl; [|done].
  by rewrite (merge_row_ext f g a b ncols Hext).
Qed.

Lemma merge_rows_ext (f g : cplx → cplx) tol (a b : csr.CSR) ncols :
  (∀ v, f v = g v) →
  ∀ (n : nat) row st,
    merge_rows n f tol a b ncols row st = merge_rows n g tol a b ncols row st.
Proof.
  intros Hext. induction n as [|n IH]; intros row st; simpl; [done|].
  rewrite (merge_step_ext f g tol a b ncols row st Hext).
  destruct (merge_step g tol a b ncols row st); simpl; [|done]. apply IH.
Qed.

(** X11: the kernel for [scale == 1] is a shortcut and nothing else: if
    [1 * v = v] for the scalars, [_add_csr_scale] with [scale = 1] returns
    what [_add_csr] returns, on every input and also when they fail. *)
Theorem merge_kernels_agree_at_one cfg u acc (a b c : csr.CSR) :
  (∀ v, cmul c1 v = v) →
  _add_csr_scale cfg u acc a b c c1 = _add_csr cfg u acc a b c.
Proof.
  intros Hone. unfold _add_csr_scale, _add_csr, merge_kernel.
  destruct (set_idx (csr.row_index c) 0 0); simpl; [|done].
  by rewrite (merge_rows_ext (cmul c1) (λ v, v) _ a b _ Hone).
Qed.

End KernelsAgree.

Section ExactSums.
Context {N : Numeric} {E : ExactLaws}.
Implicit Types h : gmap loc csr.CSR.

(** X12: with exact arithmetic and a tolerance that drops only zeros
    (tidy-up enabled with threshold zero, for one), the matrix returned by
    [add_csr(L, R, scale)] expands to [dense(L) + scale * dense(R)], on the
    fast paths as on the main path, and the one returned by
    [sub_csr(L, R)] to [dense(L) + (-1) * dense(R)], provided that, when
    both operands store entries, the row count, [cols + 1] and
    [nnz(L) + nnz(R)] fit in the index type, a C int. *)
Theorem add_csr_exact_sum cfg u h l r L R scale nl nr :
  h !! l = Some L → h !! r = Some R →
  valid_csr L → valid_csr R → shape L = shape R →
  csr.nnz L = Some nl → csr.nnz R = Some nr →
  (nl ≠ 0 → nr ≠ 0 → fits_idxint L nl nr) →
  drops_only_zero (read_tol cfg u) →
  (∃ out O,
     add_csr cfg u l r scale h = Ok out (<[out := O]> h) ∧
     ∀ i col, 0 ≤ i < (shape L).1 → 0 ≤ col < (shape L).2 →
       to_dense O i col =
       cadd (to_dense L i col) (cmul scale (to_dense R i col))) ∧
  (∃ out O,
     sub_csr cfg u l r h = Ok out (<[out := O]> h) ∧
     ∀ i col, 0 ≤ i < (shape L).1 → 0 ≤ col < (shape L).2 →
       to_dense O i col =
       cadd (to_dense L i col) (cmul cm1 (to_dense R i col))).
Proof.
  intros Hl Hr HL HR Hs Hnl Hnr Hfit Htol. split.
  - destruct (add_csr_dense_sum cfg u h l r L R scale nl nr)
      as (O & Hrun & Hd); try done.
    by exists (fresh (dom h)), O.
  - destruct (add_csr_dense_sum cfg u h l r L R cm1 nl nr)
      as (O & Hrun & Hd); try done.
    by exists (fresh (dom h)), O.
Qed.

(** X13: with exact arithmetic, a tolerance that drops only zeros and
    scalars that obey [(x + 1 * y) + (-1) * y = x], subtracting [R] from
    the sum of [L] and [R] gives a matrix that expands to [dense(L)]:
    [sub_csr(add_csr(L, R), R)].  The row count, [cols + 1] and
    [nnz(L) + 2 * nnz(R)], which bounds the capacity asked for by the
    second call, must fit in the index type, a C int. *)
Theorem sub_csr_undoes_add_csr cfg u h l r L R nl nr :
  h !! l = Some L → h !! r = Some R →
  valid_csr L → valid_csr R → shape L = shape R →
  csr.nnz L = Some nl → csr.nnz R = Some nr →
  fits_idxint L nl (nr + nr) →
  drops_only_zero (read_tol cfg u) →
  (∀ x y, cadd (cadd x (cmul c1 y)) (cmul cm1 y) = x) →
  ∃ s h1 d D,
    add_csr cfg u l r c1 h = Ok s h1 ∧
    sub_csr cfg u s r h1 = Ok d (<[d := D]> h1) ∧
    ∀ i col, 0 ≤ i < (shape L).1 → 0 ≤ col < (shape L).2 →
      to_dense D i col = to_dense L i col.
Proof.
  intros Hl Hr HL HR Hs Hnl Hnr (Hrmax & Hcmax & Hnmax) Htol Hlaw.
  destruct (valid_nnz_cap R nr HR Hnr) as (Hnr0 & _).
  assert (fits_idxint L nl nr) as Hfit by (split_and!; [done..|lia]).
  destruct (add_csr_dense_sum cfg u h l r L R c1 nl nr) as (O & Hrun & Hd);
    try done.
  destruct (add_csr_rows cfg u h l r L R c1 nl nr)
    as (O' & n & Hrun' & HO & Hsh & Hn & Hbound & _); try done.
  assert (O' = O) as ->.
  { rewrite Hrun in Hrun'. injection Hrun' as Heq.
    apply (f_equal (λ m, m !! fresh (dom h))) in Heq.
    rewrite !lookup_insert_eq in Heq. congruence. }
  set (s := fresh (dom h)) in *. set (h1 := <[s := O]> h) in *.
  assert (h1 !! s = Some O) as Hs1 by apply lookup_insert_eq.
  assert (h1 !! r = Some R) as Hr1.
  { unfold h1. rewrite lookup_insert_ne; [done|]. by eapply fresh_ne. }
  destruct (add_csr_dense_sum cfg u h1 s r O R cm1 n nr) as (D & Hrun2 & Hd2);
    try done; [congruence| |].
  { intros _ _. unfold fits_idxint. rewrite Hsh. split_and!; [done..|lia]. }
  exists s, h1, (fresh (dom h1)), D. split_and!; [done..|].
  intros i col Hi Hcol. rewrite Hsh in Hd2.
  rewrite Hd2, Hd by done. apply Hlaw.
Qed.

End ExactSums.

Section StoredRows.
Context {N : Numeric}.
Implicit Types h : gmap loc csr.CSR.
Implicit Types ea eb : list (Z * cplx).

Lemma assoc_elem col ea : col ∈ ea.*1 → is_Some (assoc col ea).
Proof.
  induction ea as [|[c v] ea IH]; simpl.
  - by intros ?%elem_of_nil.
  - intros Hin. destruct (decide (c = col)); [by eexists|].
    apply IH. by apply elem_of_cons in Hin as [?|?].
Qed.

Lemma merged_cols_comm ea eb : merged_cols ea eb = merged_cols eb ea.
Proof.
  unfold merged_cols. apply (StronglySorted_unique Z.le).
  - apply StronglySorted_merge_sort; apply _.
  - apply StronglySorted_merge_sort; apply _.
  - rewrite !merge_sort_Permutation.
    apply NoDup_Permutation; [apply NoDup_remove_dups..|].
    intros x. rewrite !elem_of_remove_dups, !elem_of_app. tauto.
Qed.

Lemma row_total_comm ea eb col :
  (∀ x y, cadd (cadd c0 x) y = cadd (cadd c0 y) x) →
  row_total (λ v, v) ea eb col = row_total (λ v, v) eb ea col.
Proof.
  intros Hlaw. unfold row_total.
  destruct (assoc col ea), (assoc col eb); auto.
Qed.

Lemma merged_row_comm tol ea eb :
  (∀ x y, cadd (cadd c0 x) y = cadd (cadd c0 y) x) →
  merged_row (λ v, v) tol ea eb = merged_row (λ v, v) tol eb ea.
Proof.
  intros Hlaw. unfold merged_row. rewrite (merged_cols_comm ea eb).
  apply list_omap_ext, Forall_Forall2_diag, Forall_forall.
  intros col _. simpl. by rewrite (row_total_comm ea eb col Hlaw).
Qed.

Lemma no_elem_nil {A} (l : list A) : (∀ x, x ∉ l) → l = [].
Proof. destruct l as [|x l]; [done|]. intros Hl. destruct (Hl x). by left. Qed.

(** X14: subtracting a matrix from itself leaves no stored entry when
    tidy-up is enabled: for a valid [A], scalars that obey
    [(0 + (-1) * v) + v = 0], a threshold that zero does not exceed, and
    [-1] equal to neither [0] nor [1], [sub_csr(A, A)] returns a valid
    matrix whose rows are all empty.  The two operands may be one object
    or two.  If [A] stores entries, its row count, [cols + 1] and
    [2 * nnz(A)] must fit in the index type, a C int. *)
Theorem sub_csr_self_is_empty cfg u h l r A n :
  h !! l = Some A → h !! r = Some A → valid_csr A →
  csr.nnz A = Some n → (n ≠ 0 → fits_idxint A n n) →
  auto_tidyup cfg = true → at_or_below c0 (auto_tidyup_atol cfg) = true →
  (∀ v, cadd (cadd c0 (cmul cm1 v)) v = c0) →
  ceqb cm1 c0 = false → ceqb cm1 c1 = false →
  ∃ out O,
    sub_csr cfg u l r h = Ok out (<[out := O]> h) ∧
    valid_csr O ∧ shape O = shape A ∧ csr.nnz O = Some 0 ∧
    ∀ i, 0 ≤ i < (shape A).1 → row_entries O i = [].
Proof.
  intros Hl Hr HA Hn Hfit Hon Hzero Hlaw Hm0 Hm1.
  destruct (add_csr_rows cfg u h l r A A cm1 n n)
    as (O & n' & Hrun & HO & Hsh & _ & _ & Hrows); try done; auto.
  assert (∀ i, 0 ≤ i < (shape A).1 → row_entries O i = []) as Hempty.
  { intros i Hi. rewrite (Hrows i Hi). unfold result_row.
    rewrite Hm0, orb_false_r.
    destruct (decide (n = 0)) as [->|Hnz].
    - rewrite bool_decide_eq_true_2 by done. simpl.
      by apply row_entries_empty.
    - rewrite !bool_decide_eq_false_2 by done. simpl.
      apply no_elem_nil. intros [col v] Hin.
      apply elem_of_merged_row in Hin as ([Hcol|Hcol] & -> & Hb);
        destruct (assoc_elem col _ Hcol) as [va Hva];
        unfold row_total, scattered in Hb; rewrite Hm1, Hva, Hlaw in Hb;
        rewrite (read_tol_enabled cfg u Hon) in Hb; congruence. }
  exists (fresh (dom h)), O. split_and!; [done..| |done].
  apply rows_empty_nnz; [done|]. by rewrite Hsh.
Qed.

(** X15: [add_csr] is commutative in what it stores: if
    [(0 + x) + y = (0 + y) + x] for the scalars and [1] is told from [0]
    and equal to itself, [add_csr(L, R)] and [add_csr(R, L)] return
    matrices with the same row offsets and, row by row, the same stored
    entries, provided that, when both operands store entries, the row
    count, [cols + 1] and [nnz(L) + nnz(R)] fit in the index type, a C
    int. *)
Theorem add_csr_commutes cfg u h l r L R nl nr :
  h !! l = Some L → h !! r = Some R →
  valid_csr L → valid_csr R → shape L = shape R →
  csr.nnz L = Some nl → csr.nnz R = Some nr →
  (nl ≠ 0 → nr ≠ 0 → fits_idxint L nl nr) →
  (∀ x y, cadd (cadd c0 x) y = cadd (cadd c0 y) x) →
  ceqb c1 c0 = false → ceqb c1 c1 = true →
  ∃ out O1 O2,
    add_csr cfg u l r c1 h = Ok out (<[out := O1]> h) ∧
    add_csr cfg u r l c1 h = Ok out (<[out := O2]> h) ∧
    shape O1 = shape O2 ∧ csr.row_index O1 = csr.row_index O2 ∧
    ∀ i, 0 ≤ i < (shape L).1 → row_entries O1 i = row_entries O2 i.
Proof.
  intros Hl Hr HL HR Hs Hnl Hnr Hfit Hlaw H10 H11.
  destruct (add_csr_rows cfg u h l r L R c1 nl nr)
    as (O1 & n1 & Hrun1 & HO1 & Hsh1 & _ & _ & Hrows1); try done.
  destruct (add_csr_rows cfg u h r l R L c1 nr nl)
    as (O2 & n2 & Hrun2 & HO2 & Hsh2 & _ & _ & Hrows2); try done.
  { intros Hnrz Hnlz. destruct (Hfit Hnlz Hnrz) as (? & ? & ?).
    unfold fits_idxint. rewrite <- Hs. split_and!; [done..|lia]. }
  assert (∀ i, 0 ≤ i < (shape L).1 → row_entries O1 i = row_entries O2 i)
    as Hsame.
  { intros i Hi. rewrite (Hrows1 i Hi), (Hrows2 i) by by rewrite <- Hs.
    unfold result_row, scattered. rewrite H10, H11, !orb_false_r.
    assert (∀ es : list (Z * cplx), prod_map id (λ v : cplx, v) <$> es = es)
      as Hid.
    { intros es. induction es as [|[c v] es IH]; [done|].
      csimpl. by f_equal. }
    destruct (decide (nl = 0)) as [->|Hnlz],
             (decide (nr = 0)) as [->|Hnrz];
      rewrite ?bool_decide_eq_true_2 by done;
      rewrite ?bool_decide_eq_false_2 by done; simpl; rewrite ?Hid.
    - rewrite (row_entries_empty L), (row_entries_empty R);
        done || by rewrite <- Hs.
    - done.
    - done.
    - by apply merged_row_comm. }
  exists (fresh (dom h)), O1, O2. split_and!; [done..|congruence| |done].
  apply row_index_determined; [done..|congruence|].
  intros i Hi. rewrite Hsh1 in Hi. by rewrite Hsame.
Qed.

(** X16: with tidy-up enabled, what [add_csr] stores does not depend on
    what uninitialized memory held: two calls that differ only in the
    content of the stack slot of [tol] and of the fresh buffers return
    matrices with the same row offsets and, row by row, the same stored
    entries, provided that, when both operands store entries, the row
    count, [cols + 1] and [nnz(L) + nnz(R)] fit in the index type, a C
    int. *)
Theorem add_csr_ignores_indeterminate cfg u1 u2 h l r L R scale nl nr :
  h !! l = Some L → h !! r = Some R →
  valid_csr L → valid_csr R → shape L = shape R →
  csr.nnz L = Some nl → csr.nnz R = Some nr →
  (nl ≠ 0 → nr ≠ 0 → fits_idxint L nl nr) →
  auto_tidyup cfg = true →
  ∃ out O1 O2,
    add_csr cfg u1 l r scale h = Ok out (<[out := O1]> h) ∧
    add_csr cfg u2 l r scale h = Ok out (<[out := O2]> h) ∧
    shape O1 = shape O2 ∧ csr.row_index O1 = csr.row_index O2 ∧
    ∀ i, 0 ≤ i < (shape L).1 → row_entries O1 i = row_entries O2 i.
Proof.
  intros Hl Hr HL HR Hs Hnl Hnr Hfit Hon.
  destruct (add_csr_rows cfg u1 h l r L R scale nl nr)
    as (O1 & n1 & Hrun1 & HO1 & Hsh1 & _ & _ & Hrows1); try done.
  destruct (add_csr_rows cfg u2 h l r L R scale nl nr)
    as (O2 & n2 & Hrun2 & HO2 & Hsh2 & _ & _ & Hrows2); try done.
  assert (∀ i, 0 ≤ i < (shape L).1 → row_entries O1 i = row_entries O2 i)
    as Hsame.
  { intros i Hi. rewrite (Hrows1 i Hi), (Hrows2 i Hi).
    unfold result_row. by rewrite !(read_tol_enabled cfg _ Hon). }
  exists (fresh (dom h)), O1, O2. split_and!; [done..|congruence| |done].
  apply row_index_determined; [done..|congruence|].
  intros i Hi. rewrite Hsh1 in Hi. by rewrite Hsame.
Qed.

End StoredRows.

(** ** The further properties on concrete matrices *)

(** Dense: the scenario of the specification, an in-place update of a
    matrix by itself, and matrices without rows. *)
Lemma iadd_dense_elementwise_witness :
  ∃ L',
    iadd_dense (N:=Z_numeric) 1 1 2 ex_dense_store =
      Ok 1%positive (<[1%positive := L']> ex_dense_store) ∧
    shape L' = shape ex_L ∧ dense.fortran L' = dense.fortran ex_L ∧
    length (dense.data L') = length (dense.data ex_L) ∧
    ∀ i j, 0 ≤ i < 2 → 0 ≤ j < 2 →
      ∃ lv rv, elem ex_L i j = Some lv ∧ elem ex_L i j = Some rv ∧
               elem L' i j = Some (lv + 2 * rv).
Proof.
  apply (iadd_dense_elementwise (N:=Z_numeric)
           ex_dense_store 1 1 ex_L ex_L 2);
    [reflexivity|reflexivity|solve_wf_dense|solve_wf_dense|reflexivity|].
  intros _. unfold INT_MAX. simpl. lia.
Defined.

(** [iadd_dense(L, L, 2)] on row-major [[1,2],[3,4]] leaves
    [[3,6],[9,12]] in [L]. *)
Lemma iadd_dense_self_scenario :
  iadd_dense (N:=Z_numeric) 1 1 2 ex_dense_store =
    Ok 1%positive
       (<[1%positive := @dense.Build_Dense Z_numeric (2, 2) [3; 6; 9; 12] false]>
          ex_dense_store).
Proof. by vm_compute. Qed.

Lemma add_dense_leaves_operands_witness :
  ∃ out O,
    add_dense (N:=Z_numeric) 1 2 1 ex_dense_store
      = Ok out (<[out := O]> ex_dense_store) ∧
    (out ∉ dom ex_dense_store) ∧ out ≠ 1%positive ∧ out ≠ 2%positive ∧
    length (dense.data O) = length (dense.data ex_L) ∧
    ∀ k X, ex_dense_store !! k = Some X →
           <[out := O]> ex_dense_store !! k = Some X.
Proof.
  apply (add_dense_leaves_operands (N:=Z_numeric)
           ex_dense_store 1 2 ex_L ex_R 1);
    [reflexivity|reflexivity|solve_wf_dense|solve_wf_dense|reflexivity].
Defined.

Lemma add_dense_eq_order_prefix_witness :
  ∃ out O,
    _add_dense_eq_order (N:=Z_numeric) 1 2 1 ex_dense_store
      = Ok out (<[out := O]> ex_dense_store) ∧
    (out ∉ dom ex_dense_store) ∧
    shape O = shape ex_L ∧ dense.fortran O = dense.fortran ex_L ∧
    length (dense.data O) = length (dense.data ex_L) ∧
    ∀ k, 0 ≤ k < 4 →
      ∃ lv rv, at_idx (dense.data ex_L) k = Some lv ∧
               at_idx (dense.data ex_R) k = Some rv ∧
               at_idx (dense.data O) k =
               Some (if decide (k < int_size (2, 2)) then lv + 1 * rv else lv).
Proof.
  apply (add_dense_eq_order_prefix (N:=Z_numeric)
           ex_dense_store 1 2 ex_L ex_R 1);
    [reflexivity|reflexivity|solve_wf_dense|solve_wf_dense|reflexivity].
Defined.

(** Without the layout check the buffers are added position by position:
    [[1,2],[3,4]] row-major and [[5,6],[7,8]] column-major give the buffer
    [6, 9, 9, 12], which is not the sum of the two matrices.  A count of
    [65536 * 65537 = 2^32 + 65536] elements reaches the vector update as
    65536. *)
Lemma add_dense_eq_order_scenario :
  _add_dense_eq_order (N:=Z_numeric) 1 2 1 ex_dense_store =
    Ok 3%positive
       (<[3%positive := @dense.Build_Dense Z_numeric (2, 2) [6; 9; 9; 12] false]>
          ex_dense_store) ∧
  int_size (65536, 65537) = 65536.
Proof. split; by vm_compute. Qed.

Lemma add_dense_eq_order_inplace_prefix_witness :
  ∃ buf,
    add_dense_eq_order_inplace (N:=Z_numeric) 2 2 3 ex_dense_store =
      Ok () (<[2%positive := dense.with_data ex_R buf]> ex_dense_store) ∧
    length buf = length (dense.data ex_R) ∧
    ∀ k, 0 ≤ k < 4 →
      ∃ lv rv, at_idx (dense.data ex_R) k = Some lv ∧
               at_idx (dense.data ex_R) k = Some rv ∧
               at_idx buf k =
               Some (if decide (k < int_size (2, 2)) then lv + 3 * rv else lv).
Proof.
  apply (add_dense_eq_order_inplace_prefix (N:=Z_numeric)
           ex_dense_store 2 2 ex_R ex_R 3);
    [reflexivity|reflexivity|solve_wf_dense|solve_wf_dense|reflexivity].
Defined.

Lemma add_dense_empty_witness :
  add_dense (N:=Z_numeric) 1 2 1 ex_dense_empty =
    Ok (fresh (dom ex_dense_empty))
       (<[fresh (dom ex_dense_empty) := ex_d03]> ex_dense_empty) ∧
  iadd_dense (N:=Z_numeric) 1 2 1 ex_dense_empty = Ok 1%positive ex_dense_empty.
Proof.
  apply (add_dense_empty (N:=Z_numeric) ex_dense_empty 1 2 ex_d03 ex_d03f 1);
    [reflexivity|reflexivity|solve_wf_dense|reflexivity|].
  left. reflexivity.
Defined.

Lemma sub_dense_undoes_add_dense_witness :
  ∃ s h1 d h2 D,
    add_dense (N:=Z_numeric) 1 2 1 ex_dense_store = Ok s h1 ∧
    sub_dense (N:=Z_numeric) s 2 h1 = Ok d h2 ∧ h2 !! d = Some D ∧
    h2 !! 1%positive = Some ex_L ∧ h2 !! 2%positive = Some ex_R ∧
    shape D = shape ex_L ∧ dense.fortran D = dense.fortran ex_L ∧
    ∀ i j, 0 ≤ i < 2 → 0 ≤ j < 2 →
      is_Some (elem ex_L i j) ∧ elem D i j = elem ex_L i j.
Proof.
  apply (sub_dense_undoes_add_dense (N:=Z_numeric)
           ex_dense_store 1 2 ex_L ex_R);
    [reflexivity|reflexivity|solve_wf_dense|solve_wf_dense|reflexivity| |].
  - intros _. unfold INT_MAX. simpl. lia.
  - intros x y. simpl. lia.
Defined.

(** Sparse: the scenario of the specification. *)
Lemma add_csr_valid_any_scale_witness :
  ∃ out O n,
    add_csr (N:=Z_numeric) tidy_on (storage 0) 1 2 (-1) ex_csr_store
      = Ok out (<[out := O]> ex_csr_store) ∧
    (out ∉ dom ex_csr_store) ∧
    valid_csr O ∧ shape O = shape ex_A ∧
    csr.nnz O = Some n ∧ 0 ≤ n ≤ 2 + 2 ∧
    ∀ k X, ex_csr_store !! k = Some X →
           <[out := O]> ex_csr_store !! k = Some X.
Proof.
  apply (add_csr_valid_any_scale (N:=Z_numeric) tidy_on (storage 0)
           ex_csr_store 1 2 ex_A ex_B (-1) 2 2);
    [reflexivity|reflexivity|solve_valid_csr|solve_valid_csr|reflexivity
    |reflexivity|reflexivity|solve_fits].
Defined.

Lemma merge_kernels_contract_witness :
  (∃ nnz c',
     _add_csr (N:=Z_numeric) tidy_on (storage 0) (acc_fresh 2) ex_A ex_B
       (out_fresh (storage7 0) 2 2 5) = Some (nnz, acc_fresh 2, c') ∧
     valid_csr c' ∧ shape c' = shape ex_A ∧
     csr.nnz c' = Some nnz ∧ 0 ≤ nnz ≤ 2 + 2 ∧
     length (csr.data c') = 5%nat ∧ length (csr.col_index c') = 5%nat) ∧
  (∃ nnz c',
     _add_csr_scale (N:=Z_numeric) tidy_on (storage 0) (acc_fresh 2) ex_A ex_B
       (out_fresh (storage7 0) 2 2 5) 3 = Some (nnz, acc_fresh 2, c') ∧
     valid_csr c' ∧ shape c' = shape ex_A ∧
     csr.nnz c' = Some nnz ∧ 0 ≤ nnz ≤ 2 + 2 ∧
     length (csr.data c') = 5%nat ∧ length (csr.col_index c') = 5%nat).
Proof.
  apply (merge_kernels_contract (N:=Z_numeric) tidy_on (storage 0)
           ex_A ex_B (out_fresh (storage7 0) 2 2 5) 3 2 2);
    [solve_valid_csr|solve_valid_csr|reflexivity|reflexivity|reflexivity
    |reflexivity|reflexivity|reflexivity|simpl; lia|solve_fits].
Defined.

(** The kernels on buffers of five slots that held sevens: [a + b] keeps
    two entries, [a + 3 * b] three, and the unused slots keep what they
    held. *)
Lemma merge_kernels_scenario :
  _add_csr (N:=Z_numeric) tidy_on (storage 0) (acc_fresh 2) ex_A ex_B
    (out_fresh (storage7 0) 2 2 5) =
    Some (2, acc_fresh 2,
          @csr.Build_CSR Z_numeric (2, 2) [3; 2; 7; 7; 7] [1; 1; 7; 7; 7] [0; 1; 2]) ∧
  _add_csr_scale (N:=Z_numeric) tidy_on (storage 0) (acc_fresh 2) ex_A ex_B
    (out_fresh (storage7 0) 2 2 5) 3 =
    Some (3, acc_fresh 2,
          @csr.Build_CSR Z_numeric (2, 2) [-2; 9; 2; 7; 7] [0; 1; 1; 7; 7] [0; 2; 3]).
Proof. split; by vm_compute. Qed.

Lemma add_csr_merge_entries_witness :
  ∃ out O,
    add_csr (N:=Z_numeric) tidy_on (storage 0) 1 2 1 ex_csr_store
      = Ok out (<[out := O]> ex_csr_store) ∧
    Z.of_nat (length (csr.data O)) = 2 + 2 ∧
    Z.of_nat (length (csr.col_index O)) = 2 + 2 ∧
    ∀ i, 0 ≤ i < 2 →
      row_entries O i =
      merged_row (scattered (N:=Z_numeric) 1) (read_tol tidy_on (storage 0))
                 (row_entries ex_A i) (row_entries ex_B i).
Proof.
  apply (add_csr_merge_entries (N:=Z_numeric) tidy_on (storage 0)
           ex_csr_store 1 2 ex_A ex_B 1 2 2);
    [reflexivity|reflexivity|solve_valid_csr|solve_valid_csr|reflexivity
    |reflexivity|reflexivity|discriminate|discriminate|reflexivity
    |solve_fits].
Defined.

(** The merged rows of the scenario: the entries at (0,0) cancel and are
    dropped with threshold 0, and kept with a threshold of -1. *)
Lemma merged_row_scenario :
  merged_row (N:=Z_numeric) (scattered (N:=Z_numeric) 1) 0
    (row_entries ex_A 0) (row_entries ex_B 0) = [(1, 3)] ∧
  merged_row (N:=Z_numeric) (scattered (N:=Z_numeric) 1) 0
    (row_entries ex_A 1) (row_entries ex_B 1) = [(1, 2)] ∧
  merged_row (N:=Z_numeric) (scattered (N:=Z_numeric) 1) (-1)
    (row_entries ex_A 0) (row_entries ex_B 0) = [(0, 0); (1, 3)].
Proof. split_and!; by vm_compute. Qed.

Lemma add_csr_merge_no_fill_in_witness :
  ∃ out O,
    add_csr (N:=Z_numeric) tidy_on (storage 0) 1 2 1 ex_csr_store
      = Ok out (<[out := O]> ex_csr_store) ∧
    ∀ i col v, 0 ≤ i < 2 → (col, v) ∈ row_entries O i →
      col ∈ (row_entries ex_A i).*1 ∨ col ∈ (row_entries ex_B i).*1.
Proof.
  apply (add_csr_merge_no_fill_in (N:=Z_numeric) tidy_on (storage 0)
           ex_csr_store 1 2 ex_A ex_B 1 2 2);
    [reflexivity|reflexivity|solve_valid_csr|solve_valid_csr|reflexivity
    |reflexivity|reflexivity|discriminate|discriminate|reflexivity
    |solve_fits].
Defined.

Lemma merge_kernels_agree_at_one_witness :
  _add_csr_scale (N:=Z_numeric) tidy_on (storage 0) (acc_fresh 2) ex_A ex_B
    (out_fresh (storage 0) 2 2 4) 1 =
  _add_csr (N:=Z_numeric) tidy_on (storage 0) (acc_fresh 2) ex_A ex_B
    (out_fresh (storage 0) 2 2 4).
Proof.
  apply (merge_kernels_agree_at_one (N:=Z_numeric) tidy_on (storage 0)
           (acc_fresh 2) ex_A ex_B (out_fresh (storage 0) 2 2 4)).
  intros v. simpl. lia.
Defined.

Lemma add_csr_exact_sum_witness :
  (∃ out O,
     add_csr (N:=Z_numeric) tidy_on (storage 0) 1 2 5 ex_csr_store
       = Ok out (<[out := O]> ex_csr_store) ∧
     ∀ i col, 0 ≤ i < 2 → 0 ≤ col < 2 →
       to_dense O i col = to_dense ex_A i col + 5 * to_dense ex_B i col) ∧
  (∃ out O,
     sub_csr (N:=Z_numeric) tidy_on (storage 0) 1 2 ex_csr_store
       = Ok out (<[out := O]> ex_csr_store) ∧
     ∀ i col, 0 ≤ i < 2 → 0 ≤ col < 2 →
       to_dense O i col = to_dense ex_A i col + -1 * to_dense ex_B i col).
Proof.
  apply (add_csr_exact_sum (N:=Z_numeric) (E:=Z_exact) tidy_on (storage 0)
           ex_csr_store 1 2 ex_A ex_B 5 2 2);
    [reflexivity|reflexivity|solve_valid_csr|solve_valid_csr|reflexivity
    |reflexivity|reflexivity|solve_fits|].
  apply tidy_on_drops_only_zero.
Defined.

Lemma sub_csr_undoes_add_csr_witness :
  ∃ s h1 d D,
    add_csr (N:=Z_numeric) tidy_on (storage 0) 1 2 1 ex_csr_store = Ok s h1 ∧
    sub_csr (N:=Z_numeric) tidy_on (storage 0) s 2 h1 = Ok d (<[d := D]> h1) ∧
    ∀ i col, 0 ≤ i < 2 → 0 ≤ col < 2 →
      to_dense D i col = to_dense ex_A i col.
Proof.
  apply (sub_csr_undoes_add_csr (N:=Z_numeric) (E:=Z_exact)
           tidy_on (storage 0) ex_csr_store 1 2 ex_A ex_B 2 2);
    [reflexivity|reflexivity|solve_valid_csr|solve_valid_csr|reflexivity
    |reflexivity|reflexivity|solve_fits| |].
  - apply tidy_on_drops_only_zero.
  - intros x y. simpl. lia.
Defined.

Lemma sub_csr_self_is_empty_witness :
  ∃ out O,
    sub_csr (N:=Z_numeric) tidy_on (storage 0) 1 1 ex_csr_store
      = Ok out (<[out := O]> ex_csr_store) ∧
    valid_csr O ∧ shape O = shape ex_A ∧ csr.nnz O = Some 0 ∧
    ∀ i, 0 ≤ i < 2 → row_entries O i = [].
Proof.
  apply (sub_csr_self_is_empty (N:=Z_numeric) tidy_on (storage 0)
           ex_csr_store 1 1 ex_A 2);
    [reflexivity|reflexivity|solve_valid_csr|reflexivity|solve_fits
    |reflexivity|reflexivity| |reflexivity|reflexivity].
  intros v. simpl. lia.
Defined.

(** [A - A] on the scenario: no stored entries, in buffers that still
    have room for four. *)
Lemma sub_csr_self_scenario :
  sub_csr (N:=Z_numeric) tidy_on (storage 0) 1 1 ex_csr_store =
    Ok 3%positive
       (<[3%positive :=
            @csr.Build_CSR Z_numeric (2, 2) [0; 0; 0; 0] [0; 0; 0; 0] [0; 0; 0]]>
          ex_csr_store).
Proof. by vm_compute. Qed.

Lemma add_csr_commutes_witness :
  ∃ out O1 O2,
    add_csr (N:=Z_numeric) tidy_on (storage 0) 1 2 1 ex_csr_store
      = Ok out (<[out := O1]> ex_csr_store) ∧
    add_csr (N:=Z_numeric) tidy_on (storage 0) 2 1 1 ex_csr_store
      = Ok out (<[out := O2]> ex_csr_store) ∧
    shape O1 = shape O2 ∧ csr.row_index O1 = csr.row_index O2 ∧
    ∀ i, 0 ≤ i < 2 → row_entries O1 i = row_entries O2 i.
Proof.
  apply (add_csr_commutes (N:=Z_numeric) tidy_on (storage 0)
           ex_csr_store 1 2 ex_A ex_B 2 2);
    [reflexivity|reflexivity|solve_valid_csr|solve_valid_csr|reflexivity
    |reflexivity|reflexivity|solve_fits| |reflexivity|reflexivity].
  intros x y. simpl. lia.
Defined.

Lemma add_csr_ignores_indeterminate_witness :
  ∃ out O1 O2,
    add_csr (N:=Z_numeric) tidy_on (storage 0) 1 2 1 ex_csr_store
      = Ok out (<[out := O1]> ex_csr_store) ∧
    add_csr (N:=Z_numeric) tidy_on (storage7 100) 1 2 1 ex_csr_store
      = Ok out (<[out := O2]> ex_csr_store) ∧
    shape O1 = shape O2 ∧ csr.row_index O1 = csr.row_index O2 ∧
    ∀ i, 0 ≤ i < 2 → row_entries O1 i = row_entries O2 i.
Proof.
  apply (add_csr_ignores_indeterminate (N:=Z_numeric) tidy_on
           (storage 0) (storage7 100) ex_csr_store 1 2 ex_A ex_B 1 2 2);
    [reflexivity|reflexivity|solve_valid_csr|solve_valid_csr|reflexivity
    |reflexivity|reflexivity|solve_fits|reflexivity].
Defined.

(** The two results differ in the slots that were never written. *)
Lemma add_csr_indeterminate_scenario :
  add_csr (N:=Z_numeric) tidy_on (storage7 100) 1 2 1 ex_csr_store =
    Ok 3%positive
       (<[3%positive :=
            @csr.Build_CSR Z_numeric (2, 2) [3; 2; 7; 7] [1; 1; 7; 7] [0; 1; 2]]>
          ex_csr_store).
Proof. by vm_compute. Qed.
